(** * Mileage reimbursement calculator: the text miners and the matcher

    A shallow embedding of [src/main.py]: [parse_dates_from_text],
    [parse_parking_receipts], [parse_time_report] and
    [match_dates_to_clients], together with the parts of the Python
    standard library they call ([str] methods, [re], [datetime]).

    A Python [str] is a [list ascii]; every [ascii] stands for the code
    point of the same number, so texts range over U+0000..U+00FF and the
    character tables below are the Unicode ones restricted to that block. *)

From Stdlib Require Import ZArith QArith Ascii String Lia.
From stdpp Require Import base decidable option list sorting gmap strings pretty.

Local Open Scope Z_scope.
Local Open Scope list_scope.

Abbreviation str := (list ascii).

(** String literals are read as lists of characters. *)
Coercion list_ascii_of_string : string >-> list.

(** ** Character tables (Unicode, block U+0000..U+00FF) *)
Module Unicode.

Definition code (c : ascii) : N := N_of_ascii c.

Definition in_range (lo hi : N) (c : ascii) : bool :=
  ((lo <=? code c) && (code c <=? hi))%N.

Definition is_code (n : N) (c : ascii) : bool := (code c =? n)%N.

(** [str.isdecimal], and [\d] of [re]: category Nd. *)
Definition is_decimal (c : ascii) : bool := in_range 48 57 c.

(** [str.isdigit]: the decimals and the superscripts 2, 3 and 1. *)
Definition is_digit (c : ascii) : bool :=
  is_decimal c || is_code 178 c || is_code 179 c || is_code 185 c.

(** [str.isnumeric] adds the vulgar fractions U+00BC..U+00BE. *)
Definition is_numeric (c : ascii) : bool :=
  is_digit c || in_range 188 190 c.

(** Property Uppercase. *)
Definition is_upper (c : ascii) : bool :=
  in_range 65 90 c || in_range 192 214 c || in_range 216 222 c.

(** Property Lowercase (with the ordinal indicators and the micro sign). *)
Definition is_lower (c : ascii) : bool :=
  in_range 97 122 c || is_code 170 c || is_code 181 c || is_code 186 c
  || in_range 223 246 c || in_range 248 255 c.

(** [str.isalpha]: every letter of the block is cased or an ordinal
    indicator, which carries the property Lowercase. *)
Definition is_alpha (c : ascii) : bool := is_upper c || is_lower c.

Definition is_alnum (c : ascii) : bool := is_alpha c || is_numeric c.

(** [\w] of [re] on [str] patterns: alphanumeric or underscore. *)
Definition is_word (c : ascii) : bool := is_alnum c || is_code 95 c.

(** [str.isspace], [\s] of [re], and what [strip] and [split] remove. *)
Definition is_space (c : ascii) : bool :=
  in_range 9 13 c || in_range 28 32 c || is_code 133 c || is_code 160 c.

(** [str.lower] on one character. *)
Definition to_lower (c : ascii) : ascii :=
  if is_upper c then ascii_of_N (code c + 32) else c.

End Unicode.

(** ** Exceptions

    The only exception the modelled code raises and catches is
    [ValueError]. *)
Inductive result (A : Type) : Type :=
| Ok (a : A)
| ValueError.
Arguments Ok {A} a.
Arguments ValueError {A}.

#[global] Instance result_ret : MRet result := λ A a, Ok a.

#[global] Instance result_bind : MBind result := λ A B f r,
  match r with
  | Ok a => f a
  | ValueError => ValueError
  end.

(** ** Methods of [str] *)
Module Str.
Import Unicode.

Definition lower (s : str) : str := map to_lower s.

Fixpoint lstrip (s : str) : str :=
  match s with
  | c :: s' => if is_space c then lstrip s' else s
  | [] => []
  end.

Definition rstrip (s : str) : str := rev (lstrip (rev s)).

Definition strip (s : str) : str := rstrip (lstrip s).

(** [s.split(sep)] for a separator of one character. *)
Fixpoint split_on (sep : ascii) (s : str) : list str :=
  match s with
  | [] => [[]]
  | c :: s' =>
      if decide (c = sep) then [] :: split_on sep s'
      else match split_on sep s' with
           | l :: ls => (c :: l) :: ls
           | [] => [[c]]
           end
  end.

(** [s.split()]: the maximal runs of characters that are not white
    space.  The auxiliary function returns the run that starts at the
    head of [s] (empty when [s] starts with white space) and the runs
    after it. *)
Fixpoint split_runs (s : str) : str * list str :=
  match s with
  | [] => ([], [])
  | c :: s' =>
      let '(w, ws) := split_runs s' in
      if is_space c then ([], match w with [] => ws | _ => w :: ws end)
      else (c :: w, ws)
  end.

Definition split (s : str) : list str :=
  let '(w, ws) := split_runs s in
  match w with [] => ws | _ => w :: ws end.

Fixpoint startswith (s p : str) : bool :=
  match p, s with
  | [], _ => true
  | a :: p', b :: s' => bool_decide (a = b) && startswith s' p'
  | _ :: _, [] => false
  end.

(** [sub in s] *)
Fixpoint contains (sub s : str) : bool :=
  startswith s sub ||
  match s with
  | [] => false
  | _ :: s' => contains sub s'
  end.

Definition isdigit (s : str) : bool :=
  match s with [] => false | _ => forallb is_digit s end.

(** [str.isupper]: no lowercase character and at least one uppercase
    one. *)
Definition isupper (s : str) : bool :=
  forallb (λ c, negb (is_lower c)) s && existsb is_upper s.

(** [str.istitle], as the interpreter computes it: one pass that
    remembers whether the previous character was cased and whether a
    cased character was seen. *)
Fixpoint istitle_from (previous_is_cased cased : bool) (s : str) : bool :=
  match s with
  | [] => cased
  | c :: s' =>
      if is_upper c then
        if previous_is_cased then false else istitle_from true true s'
      else if is_lower c then
        if previous_is_cased then istitle_from true true s' else false
      else istitle_from false cased s'
  end.

Definition istitle (s : str) : bool := istitle_from false false s.

(** [sep.join(l)] *)
Fixpoint join (sep : str) (l : list str) : str :=
  match l with
  | [] => []
  | [w] => w
  | w :: l' => w ++ sep ++ join sep l'
  end.

Definition digit_value (c : ascii) : Z := Z.of_N (code c) - 48.

Definition digits_value (s : str) : Z :=
  fold_left (λ acc c, 10 * acc + digit_value c) s 0.

(** [int(s)] for the literals the program can pass: decimal digits
    with optional surrounding white space; anything else raises. *)
Definition int (s : str) : result Z :=
  let t := strip s in
  match t with
  | [] => ValueError
  | _ => if forallb is_decimal t then Ok (digits_value t) else ValueError
  end.

(** [float(s)] for literals of the shape digits, optional point,
    optional digits (one of the two runs of digits may be empty); the
    amount is kept as the exact decimal value the
    literal denotes (the interpreter rounds it to the nearest binary64
    number, which is the same number for integers below 2^53). *)
Definition float (s : str) : result Q :=
  let t := strip s in
  match split_on "." t with
  | [ip] =>
      match ip with
      | [] => ValueError
      | _ => if forallb is_decimal ip then Ok (inject_Z (digits_value ip))
             else ValueError
      end
  | [ip; fp] =>
      match ip ++ fp with
      | [] => ValueError
      | _ =>
          if forallb is_decimal (ip ++ fp)
          then Ok (Qred (Qmake (digits_value (ip ++ fp))
                               (Z.to_pos (10 ^ Z.of_nat (length fp)))))
          else ValueError
      end
  | _ => ValueError
  end.

(** [str(n)] for an integer. *)
Definition of_int (n : Z) : str := list_ascii_of_string (pretty n).

End Str.



(** ** The [re] module

    A backtracking matcher for the fragment of the pattern language the
    program uses: literals, character classes, concatenation, ordered
    alternation, greedy bounded or unbounded repetition of a class,
    capturing groups, [\b] and [^]. *)
Module Re.
Import Unicode.

Inductive regex : Type :=
| Eps
| Lit (a : ascii)
| Cls (p : ascii → bool)
| Cat (r1 r2 : regex)
| Alt (r1 r2 : regex)
| Rep (p : ascii → bool) (lo : nat) (hi : option nat)
| Grp (r : regex)
| WordB
| Bol.

Definition cat (rs : list regex) : regex := foldr Cat Eps rs.

(** [p{lo,hi}], [p{n}], [p*], [p+] and [p?] for a class [p]. *)
Definition range (p : ascii → bool) (lo hi : nat) : regex := Rep p lo (Some hi).
Definition exactly (p : ascii → bool) (n : nat) : regex := Rep p n (Some n).
Definition star (p : ascii → bool) : regex := Rep p 0 None.
Definition plus (p : ascii → bool) : regex := Rep p 1 None.
Definition opt (p : ascii → bool) : regex := Rep p 0 (Some 1%nat).
Arguments range p (lo hi)%_nat.
Arguments exactly p n%_nat.

Definition alt (r : regex) (rs : list regex) : regex :=
  foldl Alt r rs.

(** Literal text. *)
Definition lit (s : str) : regex := cat (Lit <$> s).

(** [\b]: exactly one of the two neighbours is a word character. *)
Definition at_boundary (prev : option ascii) (s : str) : bool :=
  xorb (from_option is_word false prev) (from_option is_word false (head s)).

(** A literal under [re.IGNORECASE] matches the characters with the
    same lowercase form. *)
Definition lit_matches (ignorecase : bool) (a c : ascii) : bool :=
  if ignorecase then bool_decide (to_lower a = to_lower c)
  else bool_decide (a = c).

Definition may_take (hi : option nat) : bool :=
  match hi with Some O => false | _ => true end.

(** A position in the subject while a match is tried: the character
    before it, the number of characters matched so far, and the
    characters from it on. *)
Record cursor : Type := Cursor {
  prev : option ascii;
  pos : nat;
  rest : str
}.

(** Greedy repetition: take one more character when allowed, fall back
    to stopping here when the rest of the pattern fails. *)
Fixpoint rep {A} (p : ascii → bool) (lo : nat) (hi : option nat)
    (prev : option ascii) (pos : nat) (s : str)
    (k : cursor → option A) : option A :=
  let stop :=
    match lo with O => k (Cursor prev pos s) | S _ => None end in
  match s with
  | c :: s' =>
      if p c && may_take hi then
        match rep p (pred lo) (pred <$> hi) (Some c) (S pos) s' k with
        | Some x => Some x
        | None => stop
        end
      else stop
  | [] => stop
  end.

(** [run r cur caps k]: match [r] at the position [cur] and hand the
    position after it and the groups closed so far to the continuation
    [k]; [None] makes the matcher backtrack.  Groups are recorded when
    they close, which is their number for patterns without nested
    groups. *)
Fixpoint run {A} (ignorecase : bool) (r : regex)
    (cur : cursor) (caps : list str)
    (k : cursor → list str → option A) : option A :=
  match r with
  | Eps => k cur caps
  | Lit a =>
      match rest cur with
      | c :: s' =>
          if lit_matches ignorecase a c
          then k (Cursor (Some c) (S (pos cur)) s') caps
          else None
      | [] => None
      end
  | Cls p =>
      match rest cur with
      | c :: s' =>
          if p c then k (Cursor (Some c) (S (pos cur)) s') caps else None
      | [] => None
      end
  | Cat r1 r2 =>
      run ignorecase r1 cur caps (λ cur' caps', run ignorecase r2 cur' caps' k)
  | Alt r1 r2 =>
      match run ignorecase r1 cur caps k with
      | Some x => Some x
      | None => run ignorecase r2 cur caps k
      end
  | Rep p lo hi =>
      rep p lo hi (prev cur) (pos cur) (rest cur) (λ cur', k cur' caps)
  | Grp r1 =>
      run ignorecase r1 cur caps
        (λ cur' caps',
           k cur' (caps' ++ [take (pos cur' - pos cur) (rest cur)]))
  | WordB =>
      if at_boundary (prev cur) (rest cur) then k cur caps else None
  | Bol => match prev cur with None => k cur caps | Some _ => None end
  end.

(** A match object: its groups and the number of characters matched. *)
Record match_object : Type := Match { groups : list str; span : nat }.

Definition match_at (ignorecase : bool) (r : regex)
    (prev : option ascii) (s : str) : option match_object :=
  run ignorecase r (Cursor prev 0 s) []
    (λ cur caps, Some (Match caps (pos cur))).

(** [re.match(r, s)] *)
Definition match_ (ignorecase : bool) (r : regex) (s : str) : option match_object :=
  match_at ignorecase r None s.

(** After a match of [n] characters the scan resumes [n] characters
    further on; every pattern of the program matches at least one
    character, so the scan never meets an empty match. *)
Fixpoint finditer_from (ignorecase : bool) (r : regex) (skip : nat)
    (prev : option ascii) (s : str) : list match_object :=
  match skip with
  | S n =>
      match s with
      | c :: s' => finditer_from ignorecase r n (Some c) s'
      | [] => []
      end
  | O =>
      match match_at ignorecase r prev s with
      | Some m =>
          m :: match s with
               | c :: s' => finditer_from ignorecase r (pred (span m)) (Some c) s'
               | [] => []
               end
      | None =>
          match s with
          | c :: s' => finditer_from ignorecase r 0 (Some c) s'
          | [] => []
          end
      end
  end.

(** [re.finditer(r, s, flags)] *)
Definition finditer (ignorecase : bool) (r : regex) (s : str) : list match_object :=
  finditer_from ignorecase r 0 None s.

(** [re.search(r, s)]: the leftmost match. *)
Definition search (ignorecase : bool) (r : regex) (s : str) : option match_object :=
  head (finditer ignorecase r s).

(** [re.findall(r, s)] for a pattern with one group: the text of the
    group, for every match. *)
Definition findall (ignorecase : bool) (r : regex) (s : str) : list str :=
  (λ m, default [] (head (groups m))) <$> finditer ignorecase r s.

(** [re.sub(r, repl, s)] for a replacement without back references. *)
Fixpoint sub_from (ignorecase : bool) (r : regex) (repl : str) (skip : nat)
    (prev : option ascii) (s : str) : str :=
  match skip with
  | S n =>
      match s with
      | c :: s' => sub_from ignorecase r repl n (Some c) s'
      | [] => []
      end
  | O =>
      match match_at ignorecase r prev s with
      | Some m =>
          repl ++ match s with
                  | c :: s' => sub_from ignorecase r repl (pred (span m)) (Some c) s'
                  | [] => []
                  end
      | None =>
          match s with
          | c :: s' => c :: sub_from ignorecase r repl 0 (Some c) s'
          | [] => []
          end
      end
  end.

Definition sub (r : regex) (repl s : str) : str :=
  sub_from false r repl 0 None s.

(** Character classes of the patterns. *)
Definition one_of (cs : str) (c : ascii) : bool := bool_decide (c ∈ cs).

Definition between (lo hi : ascii) (c : ascii) : bool :=
  in_range (code lo) (code hi) c.

End Re.

(** ** The [datetime] module: calendar dates *)
Module datetime.

Definition MINYEAR : Z := 1.
Definition MAXYEAR : Z := 9999.

Definition is_leap (year : Z) : bool :=
  (year mod 4 =? 0) && (negb (year mod 100 =? 0) || (year mod 400 =? 0)).

(** Number of days before January 1st of [year]. *)
Definition days_before_year (year : Z) : Z :=
  let y := year - 1 in y * 365 + y / 4 - y / 100 + y / 400.

Definition DAYS_IN_MONTH : list Z :=
  [-1; 31; 28; 31; 30; 31; 30; 31; 31; 30; 31; 30; 31].

Definition DAYS_BEFORE_MONTH : list Z :=
  [-1; 0; 31; 59; 90; 120; 151; 181; 212; 243; 273; 304; 334].

Definition days_in_month (year month : Z) : Z :=
  if (month =? 2) && is_leap year then 29
  else nth (Z.to_nat month) DAYS_IN_MONTH 0.

Definition days_before_month (year month : Z) : Z :=
  nth (Z.to_nat month) DAYS_BEFORE_MONTH 0
  + (if (2 <? month) && is_leap year then 1 else 0).

Definition ymd2ord (year month day : Z) : Z :=
  days_before_year year + days_before_month year month + day.

Definition check_date_fields (year month day : Z) : bool :=
  (MINYEAR <=? year) && (year <=? MAXYEAR)
  && (1 <=? month) && (month <=? 12)
  && (1 <=? day) && (day <=? days_in_month year month).

(** A [date] object: its fields passed [check_date_fields] when it was
    built, and there is no other way to build one. *)
Record date : Type := Date {
  year : Z;
  month : Z;
  day : Z;
  date_checked : Is_true (check_date_fields year month day)
}.

(** [date(year, month, day)]; also [datetime(year, month, day).date()]. *)
Definition new (year month day : Z) : result date :=
  (if check_date_fields year month day as b
      return (Is_true b → date) → result date
   then λ mk, Ok (mk I)
   else λ _, ValueError) (Date year month day).

Definition toordinal (d : date) : Z := ymd2ord (year d) (month d) (day d).

(** [(d1 - d2).days] *)
Definition days_between (d1 d2 : date) : Z := toordinal d1 - toordinal d2.

Definition fields (d : date) : Z * Z * Z := (year d, month d, day d).

(** [d1 == d2] compares the fields. *)
#[global] Instance date_eq_dec : EqDecision date.
Proof.
  refine (λ d1 d2, cast_if (decide (fields d1 = fields d2)));
    abstract (first
      [ destruct d1, d2; unfold fields in *; simpl in *;
        simplify_eq; f_equal; apply proof_irrel
      | congruence ]).
Defined.

(** *** [strptime]

    The format is turned into a pattern with one group per directive;
    the data must match it to its end, and the fields must form a
    date. *)
Import Re Unicode.

Inductive directive : Type := dir_Y | dir_m | dir_d.

#[global] Instance directive_eq_dec : EqDecision directive.
Proof. solve_decision. Defined.

Inductive format_item : Type :=
| Directive (d : directive)
| Literal (c : ascii).

Definition directive_regex (d : directive) : regex :=
  match d with
  | dir_d =>
      Grp (alt (Cat (Lit "3") (Cls (between "0" "1")))
               [Cat (Cls (between "1" "2")) (Cls is_decimal);
                Cat (Lit "0") (Cls (between "1" "9"));
                Cls (between "1" "9");
                Cat (Lit " ") (Cls (between "1" "9"))])
  | dir_m =>
      Grp (alt (Cat (Lit "1") (Cls (between "0" "2")))
               [Cat (Lit "0") (Cls (between "1" "9"));
                Cls (between "1" "9")])
  | dir_Y =>
      Grp (cat [Cls is_decimal; Cls is_decimal; Cls is_decimal; Cls is_decimal])
  end.

Definition format_regex (format : list format_item) : regex :=
  cat ((λ it, match it with
              | Directive d => directive_regex d
              | Literal c => Lit c
              end) <$> format).

Definition directives (format : list format_item) : list directive :=
  omap (λ it, match it with Directive d => Some d | Literal _ => None end) format.

Fixpoint found_field (d : directive) (found : list (directive * str))
    (default : Z) : result Z :=
  match found with
  | [] => Ok default
  | (d', v) :: found' =>
      if decide (d' = d) then Str.int v else found_field d found' default
  end.

Definition strptime (data_string : str) (format : list format_item) : result date :=
  match match_ true (format_regex format) data_string with
  | None => ValueError
  | Some found =>
      if bool_decide (span found = length data_string) then
        let found_dict := zip (directives format) (groups found) in
        y ← found_field dir_Y found_dict 1900;
        m ← found_field dir_m found_dict 1;
        d ← found_field dir_d found_dict 1;
        new y m d
      else ValueError
  end.

(** ["%Y-%m-%d"] and ["%m/%d/%Y"] *)
Definition fmt_Ymd : list format_item :=
  [Directive dir_Y; Literal "-"; Directive dir_m; Literal "-"; Directive dir_d].
Definition fmt_mdY : list format_item :=
  [Directive dir_m; Literal "/"; Directive dir_d; Literal "/"; Directive dir_Y].

End datetime.

(** ** Iteration order of a [set]

    [list(set(l))] lists the distinct elements of [l] in an order the
    language leaves open (it follows the hashes of the elements); the
    program is modelled for every such order. *)
Class SetOrder : Type := {
  list_of_set : ∀ {A : Type} `{EqDecision A}, list A → list A;
  list_of_set_perm : ∀ {A : Type} `{EqDecision A} (l : list A),
    list_of_set l ≡ₚ remove_dups l
}.

(** One such order: that of the last occurrences. *)
Definition last_occurrence_order : SetOrder :=
  {| list_of_set := λ A _ l, remove_dups l;
     list_of_set_perm := λ A _ l, reflexivity (remove_dups l) |}.

(** [sorted(l)] on strings: the order of [str] is the lexicographic
    order on code points. *)
Definition str_le (s1 s2 : str) : Prop :=
  String.le (string_of_list_ascii s1) (string_of_list_ascii s2).

#[global] Instance str_le_dec : RelDecision str_le.
Proof. intros s1 s2. unfold str_le. apply _. Defined.

Definition sorted (l : list str) : list str := merge_sort str_le l.

(** ** The program *)
Section program.
Import Unicode Re.
Context `{SetOrder}.

Definition date_sep : ascii → bool := one_of "/.-".

Definition month_abbr : regex :=
  alt (lit "Jan") [lit "Feb"; lit "Mar"; lit "Apr"; lit "May"; lit "Jun";
                   lit "Jul"; lit "Aug"; lit "Sep"; lit "Oct"; lit "Nov";
                   lit "Dec"].

(** [\b(\d{1,2})[/.-](\d{1,2})[/.-](\d{4})\b] *)
Definition pattern_mdy : regex :=
  cat [WordB; Grp (range is_decimal 1 2); Cls date_sep;
       Grp (range is_decimal 1 2); Cls date_sep;
       Grp (exactly is_decimal 4); WordB].

(** [\b(\d{4})[/.-](\d{1,2})[/.-](\d{1,2})\b] *)
Definition pattern_ymd : regex :=
  cat [WordB; Grp (exactly is_decimal 4); Cls date_sep;
       Grp (range is_decimal 1 2); Cls date_sep;
       Grp (range is_decimal 1 2); WordB].

(** [\b(\d{1,2})\s+(Jan|...|Dec)\w*\s+(\d{4})\b] *)
Definition pattern_d_month_y : regex :=
  cat [WordB; Grp (range is_decimal 1 2); plus is_space;
       Grp month_abbr; star is_word; plus is_space;
       Grp (exactly is_decimal 4); WordB].

(** [\b(Jan|...|Dec)\w*\s+(\d{1,2}),?\s+(\d{4})\b] *)
Definition pattern_month_d_y : regex :=
  cat [WordB; Grp month_abbr; star is_word; plus is_space;
       Grp (range is_decimal 1 2); opt (one_of ","); plus is_space;
       Grp (exactly is_decimal 4); WordB].

Definition date_patterns : list regex :=
  [pattern_mdy; pattern_ymd; pattern_d_month_y; pattern_month_d_y].

Definition month_names : gmap str Z :=
  list_to_map
    [("jan" : str, 1); ("feb" : str, 2); ("mar" : str, 3); ("apr" : str, 4);
     ("may" : str, 5); ("jun" : str, 6); ("jul" : str, 7); ("aug" : str, 8);
     ("sep" : str, 9); ("oct" : str, 10); ("nov" : str, 11); ("dec" : str, 12)].

(** The body of the [try] for one match: the list [dates] after it, or
    the [ValueError] that [strptime], [int] or [datetime] raised. *)
Definition try_match (groups : list str) (dates : list datetime.date)
    : result (list datetime.date) :=
  match groups with
  | [g0; g1; g2] =>
      if Str.isdigit g0 && Str.isdigit g1 && Str.isdigit g2 then
        date_obj ←
          (if (length g0 =? 4)%nat
           then datetime.strptime (g0 ++ "-" ++ g1 ++ "-" ++ g2) datetime.fmt_Ymd
           else datetime.strptime (g0 ++ "/" ++ g1 ++ "/" ++ g2) datetime.fmt_mdY);
        mret (dates ++ [date_obj])
      else
        match month_names !! take 3 (Str.lower g1) with
        | Some month =>
            day ← Str.int g0;
            year ← Str.int g2;
            date_obj ← datetime.new year month day;
            mret (dates ++ [date_obj])
        | None =>
            match month_names !! take 3 (Str.lower g0) with
            | Some month =>
                day ← Str.int g1;
                year ← Str.int g2;
                date_obj ← datetime.new year month day;
                mret (dates ++ [date_obj])
            | None => mret dates
            end
        end
  | _ => mret dates
  end.

(** [except ValueError: continue] *)
Definition mine_match (dates : list datetime.date) (m : match_object)
    : list datetime.date :=
  match try_match (groups m) dates with
  | Ok dates' => dates'
  | ValueError => dates
  end.

Definition mine_pattern (text : str) (dates : list datetime.date)
    (pattern : regex) : list datetime.date :=
  foldl mine_match dates (finditer true pattern text).

(** The list [dates] when the two loops are over. *)
Definition mined_dates (text : str) : list datetime.date :=
  foldl (mine_pattern text) [] date_patterns.

Definition parse_dates_from_text (text : str) : list datetime.date :=
  list_of_set (mined_dates text).

(** *** Parking receipts *)
Record receipt_data : Type := ReceiptData {
  r_dates : list datetime.date;
  r_locations : list str;
  r_amounts : list Q
}.

Definition location_keywords : list str :=
  ["lot" : str; "garage" : str; "parking" : str; "meter" : str;
   "street" : str; "ave" : str; "avenue" : str; "blvd" : str;
   "boulevard" : str; "rd" : str; "road" : str].

(** [[^\w\s\-\.]] *)
Definition not_location_char (c : ascii) : bool :=
  negb (is_word c || is_space c || one_of "-." c).

Definition is_location_candidate (line : str) : bool :=
  let line_lower := Str.strip (Str.lower line) in
  existsb (λ keyword, Str.contains keyword line_lower) location_keywords.

Definition clean_location (line : str) : str :=
  Str.strip (sub (Cls not_location_char) " " line).

Definition location_step (locations : list str) (line : str) : list str :=
  if is_location_candidate line then
    let cleaned_line := clean_location line in
    if (3 <? length cleaned_line)%nat then locations ++ [cleaned_line]
    else locations
  else locations.

(** The list [locations] after the loop over the lines. *)
Definition found_locations (text : str) : list str :=
  foldl location_step [] (Str.split_on "010" text).

(** An optional dollar sign, then the group [\d+\.?\d*]. *)
Definition amount_pattern : regex :=
  cat [opt (one_of "$");
       Grp (cat [plus is_decimal; opt (one_of "."); star is_decimal])].

Definition amount_step (amounts : list Q) (amount : str) : list Q :=
  match Str.float amount with
  | Ok a => amounts ++ [a]
  | ValueError => amounts
  end.

Definition found_amounts (text : str) : list Q :=
  foldl amount_step [] (findall false amount_pattern text).

Definition parse_parking_receipts (text : str) : receipt_data :=
  {| r_dates := parse_dates_from_text text;
     r_locations := take 10 (found_locations text);
     r_amounts := take 10 (found_amounts text) |}.

(** *** Time report *)
Record time_report : Type := TimeReport {
  dates : list datetime.date;
  clients : list str
}.

Definition exclude_words : list str :=
  ["total" : str; "hours" : str; "time" : str; "date" : str; "project" : str;
   "task" : str; "work" : str; "report" : str; "summary" : str;
   "billing" : str; "invoice" : str; "amount" : str; "cost" : str;
   "rate" : str; "page" : str; "description" : str; "notes" : str;
   "client" : str; "company" : str; "contact" : str; "phone" : str;
   "email" : str; "address" : str; "city" : str; "state" : str;
   "zip" : str; "country" : str].

(** [^\d+[/.-]\d+[/.-]\d+] *)
Definition leading_date_pattern : regex :=
  cat [Bol; plus is_decimal; Cls date_sep; plus is_decimal; Cls date_sep;
       plus is_decimal].

(** [\$\d+] *)
Definition dollar_pattern : regex := cat [Lit "$"; plus is_decimal].

Definition skip_line (line : str) : bool :=
  (length line <? 3)%nat || Str.isdigit line
  || bool_decide (is_Some (match_ false leading_date_pattern line))
  || bool_decide (is_Some (search false dollar_pattern line)).

Definition keep_word (word : str) : bool :=
  let clean_word := sub (Cls (λ c, negb (is_word c))) [] (Str.lower word) in
  (1 <? length word)%nat
  && (Str.istitle word || Str.isupper word)
  && negb (bool_decide (clean_word ∈ exclude_words))
  && negb (Str.isdigit word).

Definition client_step (clients : list str) (line : str) : list str :=
  let line := Str.strip line in
  if skip_line line then clients
  else
    let potential_client := filter (λ word, Is_true (keep_word word)) (Str.split line) in
    if (1 <=? length potential_client)%nat then
      let client_name := Str.join " " potential_client in
      if (3 <=? length client_name)%nat && (length client_name <=? 50)%nat
         && negb (bool_decide (client_name ∈ clients))
      then clients ++ [client_name]
      else clients
    else clients.

(** The list [clients] after the loop over the lines. *)
Definition found_clients (text : str) : list str :=
  foldl client_step [] (Str.split_on "010" text).

Definition parse_time_report (text : str) : time_report :=
  {| dates := parse_dates_from_text text;
     clients := take 10 (sorted (list_of_set (found_clients text))) |}.

End program.

(** ** The matcher *)
Section matcher.
Import datetime.

Record match_record : Type := MatchRecord {
  date : datetime.date;
  client : str;
  address : str;
  match_type : str
}.

#[global] Instance match_record_eq_dec : EqDecision match_record.
Proof. solve_decision. Defined.

(** The two tags; the second starts with the plus-minus sign, U+00B1. *)
Definition tag_exact : str := "exact".
Definition tag_within (date_diff : Z) : str :=
  ["177"%char] ++ Str.of_int date_diff ++ " day(s)".

(** The loop over the clients, shared by the two passes: one record
    per client that is a key of the mapping. *)
Definition client_records (receipt_date : datetime.date) (tag : str)
    (clients : list str) (client_address_mapping : gmap str str)
    (best_matches : list match_record) : list match_record :=
  foldl (λ best_matches client,
           match client_address_mapping !! client with
           | Some addr =>
               best_matches ++ [MatchRecord receipt_date client addr tag]
           | None => best_matches
           end)
        best_matches clients.

(** Exact date matches. *)
Definition exact_pass (receipt_date : datetime.date)
    (time_report_data : time_report) (client_address_mapping : gmap str str)
    : list match_record :=
  if bool_decide (receipt_date ∈ dates time_report_data) then
    client_records receipt_date tag_exact (clients time_report_data)
      client_address_mapping []
  else [].

(** Dates within one day, tried when [best_matches] is still empty. *)
Definition tolerance_pass (receipt_date : datetime.date)
    (time_report_data : time_report) (client_address_mapping : gmap str str)
    : list match_record :=
  foldl (λ best_matches time_date,
           let date_diff := Z.abs (days_between receipt_date time_date) in
           if date_diff <=? 1 then
             client_records receipt_date (tag_within date_diff)
               (clients time_report_data) client_address_mapping best_matches
           else best_matches)
        [] (dates time_report_data).

(** The list [best_matches] at the end of one turn of the outer loop. *)
Definition best_matches_for (receipt_date : datetime.date)
    (time_report_data : time_report) (client_address_mapping : gmap str str)
    : list match_record :=
  match exact_pass receipt_date time_report_data client_address_mapping with
  | [] => tolerance_pass receipt_date time_report_data client_address_mapping
  | best_matches => best_matches
  end.

Definition match_dates_to_clients (receipt_dates : list datetime.date)
    (time_report_data : time_report) (client_address_mapping : gmap str str)
    : list match_record :=
  foldl (λ matches receipt_date,
           match best_matches_for receipt_date time_report_data
                   client_address_mapping with
           | [] => matches
           | best_matches => matches ++ best_matches
           end)
        [] receipt_dates.

End matcher.

(** ** Auxiliary notions used in the statements *)

(** The length of a year in days. *)
Definition days_in_year (y : Z) : Z := if datetime.is_leap y then 366 else 365.

(** The records one pass of the loop over the clients adds. *)
Definition records_for (receipt_date : datetime.date) (tag : str)
    (clients : list str) (client_address_mapping : gmap str str)
    : list match_record :=
  omap (λ client,
          (λ addr, MatchRecord receipt_date client addr tag)
            <$> client_address_mapping !! client)
       clients.

(** What the tolerance pass adds for one date of the time report. *)
Definition near_records (receipt_date : datetime.date)
    (time_report_data : time_report) (client_address_mapping : gmap str str)
    (time_date : datetime.date) : list match_record :=
  let date_diff := Z.abs (datetime.days_between receipt_date time_date) in
  if date_diff <=? 1 then
    records_for receipt_date (tag_within date_diff)
      (clients time_report_data) client_address_mapping
  else [].

(** The character before a position, after the characters [w] were
    matched from a position that had [prev] before it. *)
Definition last_or (prev : option ascii) (w : str) : option ascii :=
  match last w with
  | Some c => Some c
  | None => prev
  end.

(** No word character: what [\b] needs next to a digit. *)
Definition no_word_char (c : option ascii) : Prop :=
  from_option Unicode.is_word false c = false.

(** What the body of the [try] does with the groups of a match, apart
    from the list it appends to: the date to append, nothing to append,
    or the [ValueError] raised. *)
Definition date_of_groups (groups : list str) : result (option datetime.date) :=
  match groups with
  | [g0; g1; g2] =>
      if Str.isdigit g0 && Str.isdigit g1 && Str.isdigit g2 then
        date_obj ←
          (if (length g0 =? 4)%nat
           then datetime.strptime (g0 ++ "-" ++ g1 ++ "-" ++ g2) datetime.fmt_Ymd
           else datetime.strptime (g0 ++ "/" ++ g1 ++ "/" ++ g2) datetime.fmt_mdY);
        mret (Some date_obj)
      else
        match month_names !! take 3 (Str.lower g1) with
        | Some month =>
            day ← Str.int g0;
            year ← Str.int g2;
            date_obj ← datetime.new year month day;
            mret (Some date_obj)
        | None =>
            match month_names !! take 3 (Str.lower g0) with
            | Some month =>
                day ← Str.int g1;
                year ← Str.int g2;
                date_obj ← datetime.new year month day;
                mret (Some date_obj)
            | None => mret None
            end
        end
  | _ => mret None
  end.

(** A date written with two digits, a slash, two digits, a slash and
    four digits. *)
Definition numeric_date (a b c d e f g h : ascii) : str :=
  [a; b; "/"%char; c; d; "/"%char; e; f; g; h].

(** The characters a location keeps: word characters, white space,
    hyphen and period. *)
Definition location_char (c : ascii) : bool :=
  Unicode.is_word c || Unicode.is_space c || Re.one_of "-." c.

(** A line with every other character replaced by a space. *)
Definition blank_out (line : str) : str :=
  (λ c, if location_char c then c else " "%char) <$> line.

(** A line with every other character taken out: the reading of
    "stripped of all characters except" that the code does not follow. *)
Definition take_out (line : str) : str :=
  filter (λ c, Is_true (location_char c)) line.

(** The location one line of a receipt yields, for a way of cleaning. *)
Definition location_of_line (clean : str → str) (line : str) : option str :=
  if is_location_candidate line then
    let cleaned_line := Str.strip (clean line) in
    if (4 <=? length cleaned_line)%nat then Some cleaned_line else None
  else None.

(** The candidate name one line of a time report yields, before the
    test against the names accepted so far. *)
Definition line_candidate (line : str) : option str :=
  let line := Str.strip line in
  if skip_line line then None
  else
    let potential_client :=
      filter (λ word, Is_true (keep_word word)) (Str.split line) in
    let client_name := Str.join " " potential_client in
    if (1 <=? length potential_client)%nat
       && (3 <=? length client_name)%nat && (length client_name <=? 50)%nat
    then Some client_name
    else None.

(** A text as the list of its lines. *)
Definition lines_of (text : str) : list str := Str.split_on "010" text.

(** How many times a record occurs in a list. *)
Definition occurrences (r : match_record) (l : list match_record) : nat :=
  length (filter (λ x, x = r) l).

(** Sample data for the scenarios. *)
Definition mar14 : datetime.date := datetime.Date 2024 3 14 I.
Definition mar15 : datetime.date := datetime.Date 2024 3 15 I.
Definition mar16 : datetime.date := datetime.Date 2024 3 16 I.
Definition mar20 : datetime.date := datetime.Date 2024 3 20 I.

Definition acme_report : time_report :=
  {| dates := [mar15]; clients := ["Acme Inc" : str] |}.

Definition acme_addresses : gmap str str :=
  {[ ("Acme Inc" : str) := ("1 Main St" : str) ]}.

(** Eleven lines that each name a lot. *)
Definition eleven_lots : str :=
  Str.join ["010"%char]
    ["lot 01" : str; "lot 02" : str; "lot 03" : str; "lot 04" : str;
     "lot 05" : str; "lot 06" : str; "lot 07" : str; "lot 08" : str;
     "lot 09" : str; "lot 10" : str; "lot 11" : str].

Definition neighbours_report : time_report :=
  {| dates := [mar14; mar16]; clients := ["Acme Inc" : str] |}.

(** ** The callers in [main]

    [main] is a page of an interactive application; its widgets and
    messages are left out, what it computes with the functions above is
    kept. *)

(** [d1 <= d2] on dates compares year, month and day in this order. *)
Definition date_le (d1 d2 : datetime.date) : Prop :=
  datetime.year d1 < datetime.year d2
  ∨ (datetime.year d1 = datetime.year d2
     ∧ (datetime.month d1 < datetime.month d2
        ∨ (datetime.month d1 = datetime.month d2
           ∧ datetime.day d1 ≤ datetime.day d2))).

#[global] Instance date_le_dec : RelDecision date_le.
Proof. intros d1 d2. unfold date_le. apply _. Defined.

Section main.
Context `{SetOrder}.

(** The loop over the uploaded receipts: [texts] holds, for every file,
    what [extract_text_from_pdf] returned ([None], or a text).  A file
    without text is reported and skipped. *)
Definition add_receipt (all_receipt_data : receipt_data) (text : option str)
    : receipt_data :=
  match text with
  | Some ((_ :: _) as text) =>
      let receipt_data := parse_parking_receipts text in
      {| r_dates := r_dates all_receipt_data ++ r_dates receipt_data;
         r_locations := r_locations all_receipt_data ++ r_locations receipt_data;
         r_amounts := r_amounts all_receipt_data ++ r_amounts receipt_data |}
  | _ => all_receipt_data
  end.

(** The receipt data kept in the session: dates without duplicates and
    sorted, locations without duplicates. *)
Definition collect_receipts (texts : list (option str)) : receipt_data :=
  let all_receipt_data := foldl add_receipt (ReceiptData [] [] []) texts in
  {| r_dates := merge_sort date_le (list_of_set (r_dates all_receipt_data));
     r_locations := list_of_set (r_locations all_receipt_data);
     r_amounts := r_amounts all_receipt_data |}.

End main.

(** An entry of [manual_clients]. *)
Record client_entry : Type := ClientEntry {
  entry_name : str;
  entry_address : str
}.

(** The form [add_client_form], when it is submitted. *)
Definition add_client (manual_clients : list client_entry)
    (new_client_name new_client_address : str) : list client_entry :=
  match Str.strip new_client_name, Str.strip new_client_address with
  | _ :: _, _ :: _ =>
      let client_entry :=
        ClientEntry (Str.strip new_client_name) (Str.strip new_client_address) in
      let existing_names := entry_name <$> manual_clients in
      if bool_decide (entry_name client_entry ∈ existing_names)
      then manual_clients
      else manual_clients ++ [client_entry]
  | _, _ => manual_clients
  end.

(** The button [Remove] of the entry of index [i]:
    [manual_clients.pop(i)], which raises [IndexError] ([None] here)
    when the list has no entry of that index. *)
Definition remove_client (manual_clients : list client_entry) (i : nat)
    : option (list client_entry) :=
  if decide (i < length manual_clients)%nat
  then Some (delete i manual_clients)
  else None.

(** The dictionary comprehension from names to addresses: a later entry
    replaces an earlier one of the same name. *)
Definition client_address_mapping_of (manual_clients : list client_entry)
    : gmap str str :=
  foldl (λ mapping client, <[entry_name client := entry_address client]> mapping)
        ∅ manual_clients.

(** The list of clients that replaces the one read from the report. *)
Definition client_names_of (manual_clients : list client_entry) : list str :=
  entry_name <$> manual_clients.

(** The three figures shown with the matches. *)
Definition exact_matches (matches : list match_record) : nat :=
  length (filter (λ m, match_type m = tag_exact) matches).

Definition near_matches (matches : list match_record) : nat :=
  length (filter (λ m, Is_true (Str.contains ["177"%char] (match_type m)))
            matches).

Definition unmatched (receipt_dates : list datetime.date)
    (matches : list match_record) : Z :=
  let total_receipt_dates := Z.of_nat (length receipt_dates) in
  let matched_dates := Z.of_nat (length matches) in
  total_receipt_dates - matched_dates.

(** ** [extract_text_from_pdf]

    The two libraries that read a file are outside the program; a call
    of one of them either raises or returns the texts of the pages
    ([None] or an empty text for a page without text, with the first
    library). *)
Inductive attempt (A : Type) : Type :=
| Returned (a : A)
| Raised.
Arguments Returned {A} a.
Arguments Raised {A}.

(** The text built from the pages the first library returns: pages
    without text are left out, every other page is followed by a line
    feed. *)
Definition pdfplumber_text (pages : list (option str)) : str :=
  foldl (λ text page_text,
           match page_text with
           | Some ((_ :: _) as page_text) => text ++ page_text ++ ["010"%char]
           | _ => text
           end)
        [] pages.

(** The text built from the pages the second library returns: every
    page is followed by a line feed. *)
Definition pymupdf_text (pages : list str) : str :=
  foldl (λ text page_text, text ++ page_text ++ ["010"%char]) [] pages.

Definition extract_text_from_pdf (pdfplumber : attempt (list (option str)))
    (pymupdf : attempt (list str)) : option str :=
  let fallback :=
    match pymupdf with
    | Returned pages =>
        let text := pymupdf_text pages in
        match Str.strip text with
        | _ :: _ => Some text
        | [] => None
        end
    | Raised => None
    end in
  match pdfplumber with
  | Returned pages =>
      let text := pdfplumber_text pages in
      match Str.strip text with
      | _ :: _ => Some text
      | [] => fallback
      end
  | Raised => fallback
  end.

(** A pattern that cannot match without a decimal digit in what it
    matches. *)
Fixpoint needs_digit (r : Re.regex) : Prop :=
  match r with
  | Re.Cat r1 r2 => needs_digit r1 ∨ needs_digit r2
  | Re.Alt r1 r2 => needs_digit r1 ∧ needs_digit r2
  | Re.Rep p lo _ =>
      (1 ≤ lo)%nat ∧ ∀ c, p c = true → Unicode.is_decimal c = true
  | Re.Cls p => ∀ c, p c = true → Unicode.is_decimal c = true
  | Re.Grp r1 => needs_digit r1
  | _ => False
  end.

(** A text without decimal digit. *)
Definition no_digit (s : str) : Prop :=
  Forall (λ c, Unicode.is_decimal c = false) s.

(** A text that neither starts nor ends with white space. *)
Definition trimmed (s : str) : Prop :=
  from_option Unicode.is_space false (head s) = false
  ∧ from_option Unicode.is_space false (last s) = false.

(** A word as [split] returns them: not empty and without white space. *)
Definition is_word_of_split (w : str) : Prop :=
  w ≠ [] ∧ Forall (λ c, Unicode.is_space c = false) w.

(** The words of a line that are kept for a client name. *)
Definition kept_words (line : str) : list str :=
  filter (λ word, Is_true (keep_word word)) (Str.split (Str.strip line)).

(** The names are distinct, and names and addresses are not empty and
    neither start nor end with white space. *)
Definition well_formed_clients (manual_clients : list client_entry) : Prop :=
  NoDup (entry_name <$> manual_clients)
  ∧ Forall (λ c, (entry_name c ≠ [] ∧ trimmed (entry_name c))
                 ∧ entry_address c ≠ [] ∧ trimmed (entry_address c))
      manual_clients.

(** What the page does to the session once the list of clients is shown:
    with no client in the list, the mapping and the clients of the report
    are left as they are. *)
Definition update_session (manual_clients : list client_entry)
    (client_address_mapping : gmap str str) (time_report_data : time_report)
    : gmap str str * time_report :=
  match manual_clients with
  | [] => (client_address_mapping, time_report_data)
  | _ :: _ =>
      (client_address_mapping_of manual_clients,
       {| dates := dates time_report_data;
          clients := client_names_of manual_clients |})
  end.

(** A text of white space only; [strip] leaves nothing of it. *)
Definition blank (s : str) : Prop :=
  Forall (λ c, Unicode.is_space c = true) s.

(** A library that raised, or returned blank pages only. *)
Definition no_text {A} (page_text : A → option str) (a : attempt (list A))
    : Prop :=
  match a with
  | Raised => True
  | Returned pages => ∀ page t, page ∈ pages → page_text page = Some t → blank t
  end.

(** A run of decimal digits, of a length from [lo] to [hi]. *)
Definition decimal_digits (lo hi : nat) (w : str) : Prop :=
  Forall (λ c, Unicode.is_decimal c = true) w ∧ (lo ≤ length w ≤ hi)%nat.

(** The three letters of a month, in upper or lower case, and its
    number. *)
Definition month_of (w : str) (month : Z) : Prop :=
  length w = 3%nat ∧ month_names !! Str.lower w = Some month.

(** [w] stands in [text]. *)
Definition occurs_in (w text : str) : Prop :=
  ∃ pre post, text = pre ++ w ++ post.

(** The text holds the year as four digits, the day as one or two
    digits, and the month as one or two digits or as the three letters
    of a month. *)
Definition written_in (text : str) (year month day : Z) : Prop :=
  ∃ year_text month_text day_text,
    (occurs_in year_text text ∧ decimal_digits 4 4 year_text
     ∧ year = Str.digits_value year_text)
    ∧ (occurs_in month_text text
       ∧ ((decimal_digits 1 2 month_text
           ∧ month = Str.digits_value month_text)
          ∨ month_of month_text month))
    ∧ (occurs_in day_text text ∧ decimal_digits 1 2 day_text
       ∧ day = Str.digits_value day_text).

(** A date written with numbers: three groups and two separators. *)
Definition delimited_date (g1 : str) (sep1 : ascii) (g2 : str) (sep2 : ascii)
    (g3 : str) : str :=
  g1 ++ sep1 :: g2 ++ sep2 :: g3.

(** White space, one character at least. *)
Definition white_space (w : str) : Prop := w ≠ [] ∧ blank w.

(** A date written with the name of the month in the middle: the day,
    white space, the three letters of the month and what follows them
    in the word, white space, the year. *)
Definition day_month_year (day sp1 mon rest_of_word sp2 year : str) : str :=
  day ++ sp1 ++ mon ++ rest_of_word ++ sp2 ++ year.

(** A date written with the name of the month first: the three letters
    of the month and what follows them in the word, white space, the
    day, a comma or nothing, white space, the year. *)
Definition month_day_year (mon rest_of_word sp1 day comma sp2 year : str)
    : str :=
  mon ++ rest_of_word ++ sp1 ++ day ++ comma ++ sp2 ++ year.

(** * Properties *)

(** Closed decidable facts are settled by evaluation. *)
Ltac by_decide := refine (bool_decide_unpack _ _); vm_compute; exact I.

(** ** Calendar arithmetic *)
Section calendar.
Import datetime.

Lemma is_leap_spec y :
  is_leap y = true ↔ y mod 4 = 0 ∧ (y mod 100 ≠ 0 ∨ y mod 400 = 0).
Proof.
  unfold is_leap.
  rewrite andb_true_iff, orb_true_iff, negb_true_iff, !Z.eqb_eq, Z.eqb_neq.
  reflexivity.
Qed.

Lemma days_before_year_succ y :
  days_before_year (y + 1) = days_before_year y + days_in_year y.
Proof.
  unfold days_before_year, days_in_year.
  destruct (is_leap y) eqn:E.
  - apply is_leap_spec in E. Z.div_mod_to_equations. lia.
  - assert (¬ (y mod 4 = 0 ∧ (y mod 100 ≠ 0 ∨ y mod 400 = 0))) as E'
      by (rewrite <- is_leap_spec; congruence).
    Z.div_mod_to_equations. lia.
Qed.

Lemma days_before_year_mono y1 y2 :
  y1 ≤ y2 → days_before_year y1 ≤ days_before_year y2.
Proof.
  intros Hle. unfold days_before_year. Z.div_mod_to_equations. lia.
Qed.

Lemma check_date_fields_spec y m d :
  Is_true (check_date_fields y m d) ↔
  1 ≤ y ≤ 9999 ∧ 1 ≤ m ≤ 12 ∧ 1 ≤ d ≤ days_in_month y m.
Proof.
  unfold check_date_fields, MINYEAR, MAXYEAR.
  rewrite Is_true_true, !andb_true_iff, !Z.leb_le. lia.
Qed.

Lemma month_cases m :
  1 ≤ m ≤ 12 →
  m = 1 ∨ m = 2 ∨ m = 3 ∨ m = 4 ∨ m = 5 ∨ m = 6 ∨ m = 7 ∨ m = 8 ∨ m = 9
  ∨ m = 10 ∨ m = 11 ∨ m = 12.
Proof. lia. Qed.

Ltac month_table :=
  repeat match goal with
    | |- context [Z.to_nat ?k] =>
        let n := eval vm_compute in (Z.to_nat k) in
        change (Z.to_nat k) with n
    end;
  cbn.

Lemma day_of_year_bounds y m d :
  1 ≤ m ≤ 12 → 1 ≤ d ≤ days_in_month y m →
  1 ≤ days_before_month y m + d ≤ days_in_year y.
Proof.
  intros Hm. unfold days_in_month, days_before_month, days_in_year.
  destruct (is_leap y);
    apply month_cases in Hm; destruct_or!; subst m; month_table; lia.
Qed.

Lemma day_of_year_inj y m1 d1 m2 d2 :
  1 ≤ m1 ≤ 12 → 1 ≤ d1 ≤ days_in_month y m1 →
  1 ≤ m2 ≤ 12 → 1 ≤ d2 ≤ days_in_month y m2 →
  days_before_month y m1 + d1 = days_before_month y m2 + d2 →
  m1 = m2 ∧ d1 = d2.
Proof.
  intros Hm1 Hd1 Hm2 Hd2. revert Hd1 Hd2.
  unfold days_in_month, days_before_month.
  destruct (is_leap y);
    apply month_cases in Hm1; apply month_cases in Hm2;
    destruct_or!; subst m1 m2; month_table; lia.
Qed.

Lemma ordinal_year_bounds y m d :
  1 ≤ m ≤ 12 → 1 ≤ d ≤ days_in_month y m →
  days_before_year y < ymd2ord y m d ≤ days_before_year (y + 1).
Proof.
  intros Hm Hd. pose proof (day_of_year_bounds y m d Hm Hd).
  rewrite days_before_year_succ. unfold ymd2ord. lia.
Qed.

(** Two dates with the same ordinal are the same date. *)
Lemma toordinal_inj d1 d2 : toordinal d1 = toordinal d2 → d1 = d2.
Proof.
  destruct d1 as [y1 m1 d1 H1], d2 as [y2 m2 d2 H2].
  unfold toordinal; simpl. intros Heq.
  pose proof H1 as (Hy1 & Hm1 & Hd1)%check_date_fields_spec.
  pose proof H2 as (Hy2 & Hm2 & Hd2)%check_date_fields_spec.
  pose proof (ordinal_year_bounds y1 m1 d1 Hm1 Hd1) as B1.
  pose proof (ordinal_year_bounds y2 m2 d2 Hm2 Hd2) as B2.
  assert (y1 = y2) as ->.
  { destruct (Z.lt_trichotomy y1 y2) as [Hlt | [-> | Hgt]]; [|done|].
    - pose proof (days_before_year_mono (y1 + 1) y2). lia.
    - pose proof (days_before_year_mono (y2 + 1) y1). lia. }
  unfold ymd2ord in Heq.
  destruct (day_of_year_inj y2 m1 d1 m2 d2) as [-> ->]; [done..|lia|].
  f_equal. apply proof_irrel.
Qed.

Lemma days_between_0 d1 d2 : days_between d1 d2 = 0 → d1 = d2.
Proof. unfold days_between. intros ?. apply toordinal_inj. lia. Qed.
End calendar.

(** ** The loops of the matcher, as maps and concatenations *)
Section matcher_loops.

Lemma foldl_append {A B} (f : B → list A) (step : list A → B → list A)
    (l : list B) (acc : list A) :
  (∀ acc x, step acc x = acc ++ f x) →
  foldl step acc l = acc ++ (l ≫= f).
Proof.
  intros Hstep. revert acc.
  induction l as [|x l IH]; intros acc; csimpl.
  - by rewrite app_nil_r.
  - by rewrite IH, Hstep, <- app_assoc.
Qed.

Lemma client_records_eq rd tag cl cam acc :
  client_records rd tag cl cam acc = acc ++ records_for rd tag cl cam.
Proof.
  unfold client_records, records_for.
  rewrite (foldl_append
             (λ c, option_list ((λ a, MatchRecord rd c a tag) <$> cam !! c))).
  - f_equal. induction cl as [|c cl IH]; csimpl; [done|].
    rewrite IH. by destruct (cam !! c).
  - intros acc' c. destruct (cam !! c); simpl; [done|by rewrite app_nil_r].
Qed.

Lemma exact_pass_eq rd data cam :
  exact_pass rd data cam =
  if bool_decide (rd ∈ dates data)
  then records_for rd tag_exact (clients data) cam else [].
Proof. unfold exact_pass. by rewrite client_records_eq. Qed.

Lemma tolerance_pass_eq rd data cam :
  tolerance_pass rd data cam = dates data ≫= near_records rd data cam.
Proof.
  unfold tolerance_pass.
  rewrite (foldl_append (near_records rd data cam)); [done|].
  intros acc td. unfold near_records; simpl.
  case_match; [apply client_records_eq|by rewrite app_nil_r].
Qed.

Lemma match_dates_to_clients_eq rds data cam :
  match_dates_to_clients rds data cam =
  rds ≫= λ rd, best_matches_for rd data cam.
Proof.
  unfold match_dates_to_clients.
  rewrite (foldl_append (λ rd, best_matches_for rd data cam)); [done|].
  intros acc rd. destruct (best_matches_for rd data cam); [|done].
  by rewrite app_nil_r.
Qed.

Lemma elem_of_records_for r rd tag cl cam :
  r ∈ records_for rd tag cl cam ↔
  ∃ c a, c ∈ cl ∧ cam !! c = Some a ∧ r = MatchRecord rd c a tag.
Proof.
  unfold records_for. rewrite list_elem_of_omap. split.
  - intros (c & Hc & Hr). destruct (cam !! c) as [a|] eqn:E; [|done].
    simpl in Hr. exists c, a. naive_solver.
  - intros (c & a & Hc & Ha & ->). exists c. by rewrite Ha.
Qed.

Lemma records_for_nil rd tag cl cam :
  records_for rd tag cl cam = [] ↔ ∀ c, c ∈ cl → cam !! c = None.
Proof.
  split.
  - intros Hnil c Hc. destruct (cam !! c) as [a|] eqn:E; [|done].
    assert (MatchRecord rd c a tag ∈ records_for rd tag cl cam) as Hin
      by (apply elem_of_records_for; eauto).
    rewrite Hnil in Hin. by apply elem_of_nil in Hin.
  - intros Hnone. destruct (records_for rd tag cl cam) as [|r l] eqn:E; [done|].
    assert (r ∈ records_for rd tag cl cam) as Hin by (rewrite E; left).
    apply elem_of_records_for in Hin as (c & a & Hc & Ha & _).
    rewrite (Hnone c Hc) in Ha. done.
Qed.

Lemma records_for_tag_irrelevant rd tag tag' cl cam :
  records_for rd tag cl cam = [] → records_for rd tag' cl cam = [].
Proof. rewrite !records_for_nil. done. Qed.

End matcher_loops.

(** ** The matcher *)
Section matcher_properties.

Lemma records_for_date r rd tag cl cam :
  r ∈ records_for rd tag cl cam → date r = rd ∧ match_type r = tag.
Proof. intros (c & a & _ & _ & ->)%elem_of_records_for. done. Qed.

Lemma best_matches_for_cases rd data cam :
  (exact_pass rd data cam = [] ∧
   best_matches_for rd data cam = tolerance_pass rd data cam)
  ∨ (exact_pass rd data cam ≠ [] ∧ rd ∈ dates data ∧
     best_matches_for rd data cam = records_for rd tag_exact (clients data) cam).
Proof.
  unfold best_matches_for.
  destruct (exact_pass rd data cam) as [|r l] eqn:E; [by left|right].
  split; [done|]. rewrite exact_pass_eq in E.
  case_bool_decide; by simplify_eq.
Qed.

Lemma abs_days_between_le_1 rd td :
  Z.abs (datetime.days_between rd td) ≤ 1 →
  td = rd ∨ Z.abs (datetime.days_between rd td) = 1.
Proof.
  intros Hle.
  destruct (decide (datetime.days_between rd td = 0)) as [E|E].
  - left. symmetry. by apply days_between_0.
  - right. lia.
Qed.

(** When the exact pass added nothing, the tolerance pass tags every
    record it adds with a difference of one day. *)
Lemma tolerance_pass_tag rd data cam r :
  exact_pass rd data cam = [] →
  r ∈ tolerance_pass rd data cam →
  date r = rd ∧ match_type r = tag_within 1.
Proof.
  intros Hexact. rewrite tolerance_pass_eq, list_elem_of_bind.
  intros (td & Hr & Htd). unfold near_records in Hr; simpl in Hr.
  destruct (Z.leb_spec (Z.abs (datetime.days_between rd td)) 1) as [Hle|];
    [|by apply elem_of_nil in Hr].
  destruct (abs_days_between_le_1 rd td Hle) as [-> | Hone].
  - rewrite exact_pass_eq, bool_decide_eq_true_2 in Hexact by done.
    rewrite (records_for_tag_irrelevant _ _ _ _ _ Hexact) in Hr.
    by apply elem_of_nil in Hr.
  - rewrite Hone in Hr. by apply records_for_date in Hr.
Qed.

Lemma elem_of_match_dates_to_clients r rds data cam :
  r ∈ match_dates_to_clients rds data cam ↔
  ∃ rd, rd ∈ rds ∧ r ∈ best_matches_for rd data cam.
Proof.
  rewrite match_dates_to_clients_eq, list_elem_of_bind.
  split; intros (rd & ? & ?); by exists rd.
Qed.

Lemma best_matches_for_date r rd data cam :
  r ∈ best_matches_for rd data cam → date r = rd.
Proof.
  destruct (best_matches_for_cases rd data cam) as [[E ->] | (_ & _ & ->)].
  - intros Hr. by destruct (tolerance_pass_tag rd data cam r E Hr).
  - intros Hr. by destruct (records_for_date _ _ _ _ _ Hr).
Qed.

Lemma tag_within_0_1 : tag_within 0 ≠ tag_within 1.
Proof. by vm_compute. Qed.

Lemma tag_exact_within n : tag_exact ≠ tag_within n.
Proof. unfold tag_exact, tag_within. simpl. congruence. Qed.

(** C3: in the output of the matcher a record is either an exact one,
    for a receipt date that is a date of the time report, or a record
    of the tolerance pass, tagged with a difference of one day and
    belonging to a receipt date for which the exact pass added
    nothing; no record is tagged with a difference of zero days. *)
Theorem C3_tolerance_pass_after_empty_exact_pass
    (receipt_dates : list datetime.date) (time_report_data : time_report)
    (client_address_mapping : gmap str str) (r : match_record) :
  r ∈ match_dates_to_clients receipt_dates time_report_data
        client_address_mapping →
  match_type r ≠ tag_within 0
  ∧ ((match_type r = tag_exact
      ∧ exact_pass (date r) time_report_data client_address_mapping ≠ []
      ∧ r ∈ exact_pass (date r) time_report_data client_address_mapping)
     ∨ (match_type r = ["177"%char] ++ "1 day(s)"
        ∧ exact_pass (date r) time_report_data client_address_mapping = []
        ∧ r ∈ tolerance_pass (date r) time_report_data
                client_address_mapping)).
Proof.
  intros (rd & _ & Hr)%elem_of_match_dates_to_clients.
  pose proof (best_matches_for_date _ _ _ _ Hr) as <-.
  destruct (best_matches_for_cases (date r) time_report_data
              client_address_mapping) as [[E Hb] | (E & Hin & Hb)];
    rewrite Hb in Hr.
  - destruct (tolerance_pass_tag _ _ _ _ E Hr) as [_ Htag].
    split.
    + rewrite Htag. intros Heq. by apply tag_within_0_1.
    + right. split_and!; [by rewrite Htag|done..].
  - destruct (records_for_date _ _ _ _ _ Hr) as [_ Htag].
    split.
    + rewrite Htag. apply tag_exact_within.
    + left. split_and!; [done..|].
      by rewrite exact_pass_eq, bool_decide_eq_true_2.
Qed.

(** C3 at a receipt date one day after the only work date. *)
Lemma C3_witness :
  let r := MatchRecord mar16 "Acme Inc" "1 Main St" (tag_within 1) in
  r ∈ match_dates_to_clients [mar16] acme_report acme_addresses
  ∧ match_type r ≠ tag_within 0
  ∧ exact_pass (date r) acme_report acme_addresses = [].
Proof.
  intros r.
  assert (r ∈ match_dates_to_clients [mar16] acme_report acme_addresses)
    as Hr by (vm_compute; left).
  destruct (C3_tolerance_pass_after_empty_exact_pass
              [mar16] acme_report acme_addresses r Hr)
    as [Hne [(Hex & _) | (_ & Hnil & _)]].
  - exfalso. revert Hex. by vm_compute.
  - exact (conj Hr (conj Hne Hnil)).
Defined.

Lemma filter_all {A} (P : A → Prop) `{∀ x, Decision (P x)} (l : list A) :
  (∀ x, x ∈ l → P x) → filter P l = l.
Proof.
  induction l as [|x l IH]; intros Hall; [done|].
  rewrite filter_cons_True by (apply Hall; left).
  f_equal. apply IH. intros y Hy. apply Hall. by right.
Qed.

Lemma filter_none {A} (P : A → Prop) `{∀ x, Decision (P x)} (l : list A) :
  (∀ x, x ∈ l → ¬ P x) → filter P l = [].
Proof.
  induction l as [|x l IH]; intros Hnone; [done|].
  rewrite filter_cons_False by (apply Hnone; left).
  apply IH. intros y Hy. apply Hnone. by right.
Qed.

Lemma filter_bind_none {A B} (P : A → Prop) `{∀ x, Decision (P x)}
    (f : B → list A) (l : list B) :
  (∀ y x, y ∈ l → x ∈ f y → ¬ P x) → filter P (l ≫= f) = [].
Proof.
  intros Hnone. apply filter_none. intros x (y & Hx & Hy)%list_elem_of_bind.
  by apply (Hnone y).
Qed.

(** The records of one receipt date sit together in the output: when
    the date occurs once among the receipt dates, the records that a
    predicate on that date selects are those of its turn of the loop. *)
Lemma filter_match_dates_to_clients (Q : match_record → Prop)
    `{∀ r, Decision (Q r)} rds data cam rd :
  (∀ r, Q r → date r = rd) → NoDup rds → rd ∈ rds →
  filter Q (match_dates_to_clients rds data cam)
  = filter Q (best_matches_for rd data cam).
Proof.
  intros HQ Hnd Hin. rewrite match_dates_to_clients_eq.
  assert (∀ l, rd ∉ l →
            filter Q (l ≫= λ rd', best_matches_for rd' data cam) = [])
    as Hother.
  { intros l Hl. apply filter_bind_none. intros rd' r Hrd' Hr HQr.
    apply best_matches_for_date in Hr. apply HQ in HQr.
    apply Hl. congruence. }
  induction rds as [|rd' rds IH]; [by apply elem_of_nil in Hin|].
  apply NoDup_cons in Hnd as [Hrd' Hnd].
  csimpl. rewrite filter_app.
  destruct (decide (rd' = rd)) as [->|Hne].
  - by rewrite (Hother rds Hrd'), app_nil_r.
  - apply elem_of_cons in Hin as [Heq|Hin]; [congruence|].
    rewrite (IH Hnd Hin).
    rewrite (filter_none Q (best_matches_for rd' data cam)); [done|].
    intros r Hr HQr. apply best_matches_for_date in Hr. apply HQ in HQr.
    congruence.
Qed.

Lemma client_records_for rd tag cl cam :
  client <$> records_for rd tag cl cam
  = filter (λ c, is_Some (cam !! c)) cl.
Proof.
  unfold records_for. induction cl as [|c cl IH]; [done|].
  csimpl. destruct (cam !! c) as [a|] eqn:E; simpl.
  - rewrite filter_cons_True by (rewrite E; eauto). f_equal. exact IH.
  - rewrite filter_cons_False by (rewrite E; by intros [? ?]). exact IH.
Qed.

Lemma length_records_for rd tag cl cam :
  length (records_for rd tag cl cam)
  = length (filter (λ c, is_Some (cam !! c)) cl).
Proof.
  by rewrite <- (client_records_for rd tag), length_fmap.
Qed.

(** C4: when the receipt date is a date of the time report, its turn
    of the loop yields one record tagged [exact] per client of the
    report that is a key of the address map, N records for N such
    clients, and these are the records of that date in the output when
    the date occurs once among the receipt dates; the scenario of the
    single client Acme Inc yields exactly its one record. *)
Theorem C4_exact_pass_one_record_per_known_client
    (receipt_dates : list datetime.date) (time_report_data : time_report)
    (client_address_mapping : gmap str str) (receipt_date : datetime.date) :
  receipt_date ∈ dates time_report_data →
  let known := filter (λ c, is_Some (client_address_mapping !! c))
                 (clients time_report_data) in
  let exact := records_for receipt_date tag_exact
                 (clients time_report_data) client_address_mapping in
  best_matches_for receipt_date time_report_data client_address_mapping
  = exact
  ∧ length exact = length known
  ∧ client <$> exact = known
  ∧ (∀ r, r ∈ exact → match_type r = "exact")
  ∧ (NoDup receipt_dates → receipt_date ∈ receipt_dates →
     filter (λ r, date r = receipt_date)
       (match_dates_to_clients receipt_dates time_report_data
          client_address_mapping)
     = exact)
  ∧ match_dates_to_clients [mar15] acme_report acme_addresses
    = [MatchRecord mar15 "Acme Inc" "1 Main St" "exact"].
Proof.
  intros Hin known exact.
  assert (best_matches_for receipt_date time_report_data
            client_address_mapping = exact) as Hbest.
  { destruct (best_matches_for_cases receipt_date time_report_data
                client_address_mapping) as [[E ->] | (_ & _ & ->)]; [|done].
    rewrite exact_pass_eq, bool_decide_eq_true_2 in E by done.
    rewrite tolerance_pass_eq. fold exact in E. rewrite E.
    destruct (dates time_report_data ≫= _) as [|r l] eqn:E'; [done|].
    assert (r ∈ dates time_report_data
                  ≫= near_records receipt_date time_report_data
                       client_address_mapping) as Hr by (rewrite E'; left).
    apply list_elem_of_bind in Hr as (td & Hr & _).
    unfold near_records in Hr; simpl in Hr.
    case_match; [|by apply elem_of_nil in Hr].
    rewrite (records_for_tag_irrelevant _ _ _ _ _ E) in Hr.
    by apply elem_of_nil in Hr. }
  split_and!.
  - done.
  - apply length_records_for.
  - apply client_records_for.
  - intros r Hr. by destruct (records_for_date _ _ _ _ _ Hr).
  - intros Hnd Hrd.
    rewrite (filter_match_dates_to_clients _ _ _ _ receipt_date)
      by done.
    rewrite Hbest. apply filter_all.
    intros r Hr. by destruct (records_for_date _ _ _ _ _ Hr).
  - by vm_compute.
Qed.

(** C4 in the scenario of the specification. *)
Lemma C4_witness :
  mar15 ∈ dates acme_report
  ∧ best_matches_for mar15 acme_report acme_addresses
    = records_for mar15 tag_exact (clients acme_report) acme_addresses
  ∧ length (records_for mar15 tag_exact (clients acme_report) acme_addresses)
    = 1%nat.
Proof.
  assert (mar15 ∈ dates acme_report) as Hin by (vm_compute; left).
  destruct (C4_exact_pass_one_record_per_known_client
              [mar15] acme_report acme_addresses mar15 Hin)
    as (Hbest & Hlen & _).
  split; [exact Hin|]. split; [exact Hbest|].
  rewrite Hlen. by vm_compute.
Defined.

Lemma near_records_nil rd data cam td :
  near_records rd data cam td = [] ↔
  1 < Z.abs (datetime.days_between rd td)
  ∨ ∀ c, c ∈ clients data → cam !! c = None.
Proof.
  unfold near_records; simpl.
  destruct (Z.leb_spec (Z.abs (datetime.days_between rd td)) 1) as [Hle|Hlt].
  - rewrite records_for_nil. split; [by right|]. intros [?|?]; [lia|done].
  - split; [by left|done].
Qed.

Lemma bind_nil {A B} (f : B → list A) (l : list B) :
  l ≫= f = [] ↔ ∀ y, y ∈ l → f y = [].
Proof.
  induction l as [|y l IH]; csimpl.
  - split; [|done]. intros _ y Hy. by apply elem_of_nil in Hy.
  - rewrite app_nil, IH. split.
    + intros [Hy Hl] z [->|Hz]%elem_of_cons; auto.
    + intros Hall. split; [apply Hall; left|].
      intros z Hz. apply Hall. by right.
Qed.

(** Neither pass yields a record exactly when no client of the report
    has an address, or no date of the report is within one day. *)
Lemma best_matches_for_nil rd data cam :
  best_matches_for rd data cam = [] ↔
  (∀ c, c ∈ clients data → cam !! c = None)
  ∨ (∀ td, td ∈ dates data → 1 < Z.abs (datetime.days_between rd td)).
Proof.
  destruct (best_matches_for_cases rd data cam) as [[E ->] | (E & Hin & ->)].
  - rewrite tolerance_pass_eq, bind_nil. split.
    + intros Hall.
      destruct (decide (records_for rd tag_exact (clients data) cam = []))
        as [Hnil|Hne];
        [left; exact (proj1 (records_for_nil _ _ _ _) Hnil)|right].
      intros td Htd. apply Hall, near_records_nil in Htd as [?|Hnone]; [done|].
      destruct Hne. exact (proj2 (records_for_nil _ _ _ _) Hnone).
    + intros Hcase td Htd. apply near_records_nil.
      destruct Hcase as [Hnone|Hfar]; [by right|left; by apply Hfar].
  - rewrite exact_pass_eq, bool_decide_eq_true_2 in E by done.
    split; [done|]. intros [Hnone | Hfar].
    + exact (proj2 (records_for_nil _ _ _ _) Hnone).
    + specialize (Hfar rd Hin). unfold datetime.days_between in Hfar. lia.
Qed.

(** C5: a receipt date for which neither pass yields a record (no date
    of the time report within one day, or no client with an address in
    the map) has no record in the output; and every record of the
    output carries a receipt date, a client of the report and the
    address the map gives for that client, so that nothing stands for
    an unmatched date or a client without address. *)
Theorem C5_unmatched_dates_are_absent
    (receipt_dates : list datetime.date) (time_report_data : time_report)
    (client_address_mapping : gmap str str) :
  (∀ receipt_date,
     (∀ td, td ∈ dates time_report_data →
            1 < Z.abs (datetime.days_between receipt_date td))
     ∨ (∀ c, c ∈ clients time_report_data →
             client_address_mapping !! c = None) →
     exact_pass receipt_date time_report_data client_address_mapping = []
     ∧ tolerance_pass receipt_date time_report_data client_address_mapping
       = []
     ∧ ∀ r, r ∈ match_dates_to_clients receipt_dates time_report_data
                  client_address_mapping →
            date r ≠ receipt_date)
  ∧ (∀ r, r ∈ match_dates_to_clients receipt_dates time_report_data
                client_address_mapping →
          date r ∈ receipt_dates
          ∧ client r ∈ clients time_report_data
          ∧ client_address_mapping !! client r = Some (address r)
          ∧ r ∈ best_matches_for (date r) time_report_data
                  client_address_mapping).
Proof.
  split.
  - intros rd Hcase.
    assert (best_matches_for rd time_report_data client_address_mapping = [])
      as Hnil by (apply best_matches_for_nil; tauto).
    destruct (best_matches_for_cases rd time_report_data
                client_address_mapping) as [[E Hb] | (E & Hin & Hb)].
    + split; [done|]. split; [congruence|].
      intros r (rd' & _ & Hr)%elem_of_match_dates_to_clients Heq.
      pose proof (best_matches_for_date _ _ _ _ Hr) as Hd.
      rewrite Heq in Hd. subst rd'. rewrite Hnil in Hr.
      by apply elem_of_nil in Hr.
    + rewrite exact_pass_eq, bool_decide_eq_true_2 in E by done. congruence.
  - intros r (rd & Hrd & Hr)%elem_of_match_dates_to_clients.
    pose proof (best_matches_for_date _ _ _ _ Hr) as <-.
    split; [done|].
    assert (∃ tag, r ∈ records_for (date r) tag (clients time_report_data)
                         client_address_mapping) as [tag Hrec].
    { destruct (best_matches_for_cases (date r) time_report_data
                  client_address_mapping) as [[E Hb] | (E & Hin & Hb)];
        rewrite Hb in Hr; [|by eexists].
      rewrite tolerance_pass_eq in Hr.
      apply list_elem_of_bind in Hr as (td & Hr & _).
      unfold near_records in Hr; simpl in Hr.
      case_match; [by eexists|by apply elem_of_nil in Hr]. }
    apply elem_of_records_for in Hrec as (c & a & Hc & Ha & Heq).
    assert (client r = c) as -> by (by rewrite Heq).
    assert (address r = a) as -> by (by rewrite Heq).
    done.
Qed.

(** C5 at a receipt date five days after the only work date. *)
Lemma C5_witness :
  (∀ td, td ∈ dates acme_report →
         1 < Z.abs (datetime.days_between mar20 td))
  ∧ ∀ r, r ∈ match_dates_to_clients [mar15; mar20] acme_report
               acme_addresses →
         date r ≠ mar20.
Proof.
  assert (∀ td, td ∈ dates acme_report →
                1 < Z.abs (datetime.days_between mar20 td)) as Hfar.
  { intros td Htd. apply list_elem_of_singleton in Htd as ->. by vm_compute. }
  split; [exact Hfar|].
  destruct (C5_unmatched_dates_are_absent [mar15; mar20] acme_report
              acme_addresses) as [Habsent _].
  destruct (Habsent mar20 (or_introl Hfar)) as (_ & _ & Hr).
  exact Hr.
Defined.

Lemma occurrences_app r l1 l2 :
  occurrences r (l1 ++ l2) = (occurrences r l1 + occurrences r l2)%nat.
Proof. unfold occurrences. by rewrite filter_app, length_app. Qed.

Lemma occurrences_perm r l1 l2 :
  l1 ≡ₚ l2 → occurrences r l1 = occurrences r l2.
Proof. unfold occurrences. by intros ->. Qed.

Lemma occurrences_elem_of r l : r ∈ l → (1 ≤ occurrences r l)%nat.
Proof.
  intros (k & Hk)%elem_of_Permutation.
  rewrite (occurrences_perm _ _ _ Hk). unfold occurrences.
  rewrite filter_cons_True by done. simpl. lia.
Qed.

Lemma occurrences_not_elem_of r l : r ∉ l → occurrences r l = 0%nat.
Proof.
  intros Hr. unfold occurrences. rewrite filter_none; [done|].
  intros x Hx ->. done.
Qed.

Lemma occurrences_NoDup r l : NoDup l → (occurrences r l ≤ 1)%nat.
Proof.
  intros Hnd. unfold occurrences.
  pose proof (NoDup_filter (λ x, x = r) l Hnd) as Hf.
  destruct (filter (λ x, x = r) l) as [|x1 [|x2 k]] eqn:E; simpl; [lia..|].
  assert (x1 = r ∧ x2 = r) as [-> ->].
  { split.
    - assert (x1 ∈ filter (λ x, x = r) l) as Hx by (rewrite E; left).
      by apply list_elem_of_filter in Hx as [? _].
    - assert (x2 ∈ filter (λ x, x = r) l) as Hx
        by (rewrite E; right; left).
      by apply list_elem_of_filter in Hx as [? _]. }
  apply NoDup_cons in Hf as [Hf _]. destruct Hf. left.
Qed.

Lemma NoDup_records_for rd tag cl cam :
  NoDup cl → NoDup (records_for rd tag cl cam).
Proof.
  intros Hnd. apply (NoDup_fmap_1 client).
  rewrite client_records_for. by apply NoDup_filter.
Qed.

(** C10: a receipt date that is no date of the time report, while the
    day before it and the day after it both are, gets for every client
    with an address the same record twice, tagged with a difference of
    one day, so that the output has duplicates; the record occurs
    exactly twice when the receipt dates, the work dates and the
    clients are free of duplicates. *)
Theorem C10_two_neighbours_duplicate_records
    (receipt_dates : list datetime.date) (time_report_data : time_report)
    (client_address_mapping : gmap str str)
    (receipt_date before after : datetime.date) (c addr : str) :
  receipt_date ∈ receipt_dates →
  receipt_date ∉ dates time_report_data →
  before ∈ dates time_report_data →
  after ∈ dates time_report_data →
  datetime.days_between receipt_date before = 1 →
  datetime.days_between receipt_date after = -1 →
  c ∈ clients time_report_data →
  client_address_mapping !! c = Some addr →
  let r := MatchRecord receipt_date c addr (["177"%char] ++ "1 day(s)") in
  let output := match_dates_to_clients receipt_dates time_report_data
                  client_address_mapping in
  (2 ≤ occurrences r output)%nat
  ∧ ¬ NoDup output
  ∧ (NoDup receipt_dates → NoDup (dates time_report_data) →
     NoDup (clients time_report_data) → occurrences r output = 2%nat).
Proof.
  intros Hrd Hnot Hbefore Hafter Hdb Hda Hc Haddr r output.
  set (data := time_report_data) in *. set (cam := client_address_mapping) in *.
  change (["177"%char] ++ "1 day(s)") with (tag_within 1) in r.
  assert (before ≠ after) as Hne by (intros ->; lia).
  (* the dates of the report: the two neighbours and the rest *)
  apply elem_of_Permutation in Hbefore as [k Hk].
  assert (after ∈ k) as [rest Hrest]%elem_of_Permutation.
  { rewrite Hk in Hafter. by apply elem_of_cons in Hafter as [?|?]. }
  assert (dates data ≡ₚ before :: after :: rest) as Hdates
    by (by rewrite Hk, Hrest).
  (* the turn of the loop for the receipt date *)
  assert (best_matches_for receipt_date data cam
          = dates data ≫= near_records receipt_date data cam) as Hbest.
  { destruct (best_matches_for_cases receipt_date data cam)
      as [[_ ->] | (_ & Hin & _)]; [apply tolerance_pass_eq|done]. }
  set (one_day := records_for receipt_date (tag_within 1) (clients data) cam).
  assert (near_records receipt_date data cam before = one_day) as Hnb.
  { unfold near_records. simpl. by rewrite Hdb. }
  assert (near_records receipt_date data cam after = one_day) as Hna.
  { unfold near_records. simpl. by rewrite Hda. }
  assert (r ∈ one_day) as Hr.
  { apply elem_of_records_for. by exists c, addr. }
  assert (occurrences r (best_matches_for receipt_date data cam)
          = (occurrences r one_day + occurrences r one_day
             + occurrences r (rest ≫= near_records receipt_date data cam))%nat)
    as Hocc.
  { rewrite Hbest.
    rewrite (occurrences_perm _ _
               ((before :: after :: rest)
                  ≫= near_records receipt_date data cam))
      by (by rewrite Hdates).
    csimpl. rewrite !occurrences_app, Hnb, Hna. lia. }
  pose proof (occurrences_elem_of r one_day Hr) as Hone.
  assert (2 ≤ occurrences r output)%nat as Htwo.
  { apply elem_of_Permutation in Hrd as [rds' Hrds'].
    unfold output. rewrite match_dates_to_clients_eq.
    rewrite (occurrences_perm _ _
               ((receipt_date :: rds')
                  ≫= λ rd, best_matches_for rd data cam))
      by (by rewrite Hrds').
    csimpl. rewrite occurrences_app, Hocc. lia. }
  split; [exact Htwo|]. split.
  - intros Hnd. apply (occurrences_NoDup r) in Hnd. lia.
  - intros Hnd_rds Hnd_dates Hnd_clients.
    unfold output, occurrences.
    rewrite (filter_match_dates_to_clients _ _ _ _ receipt_date);
      [|by intros ? ->|done..].
    fold (occurrences r (best_matches_for receipt_date data cam)).
    rewrite Hocc.
    assert (occurrences r one_day = 1%nat) as ->.
    { pose proof (occurrences_NoDup r one_day
                    (NoDup_records_for _ _ _ _ Hnd_clients)). lia. }
    rewrite occurrences_not_elem_of; [done|].
    rewrite Hdates in Hnd_dates.
    apply NoDup_cons in Hnd_dates as [Hb [Ha _]%NoDup_cons].
    intros (td & Hin & Htd)%list_elem_of_bind.
    unfold near_records in Hin; simpl in Hin.
    destruct (Z.leb_spec (Z.abs (datetime.days_between receipt_date td)) 1)
      as [Hle|]; [|by apply elem_of_nil in Hin].
    apply records_for_date in Hin as [_ Htag]. simpl in Htag.
    destruct (abs_days_between_le_1 _ _ Hle) as [-> | Habs].
    + destruct Hnot. rewrite Hdates. by do 2 right.
    + assert (td = before ∨ td = after) as [-> | ->].
      { unfold datetime.days_between in *.
        destruct (decide (datetime.toordinal td = datetime.toordinal before));
          [left; by apply toordinal_inj|right; apply toordinal_inj; lia]. }
      * destruct Hb. by right.
      * done.
Qed.

(** C10 on March 15 with work dates March 14 and March 16. *)
Lemma C10_witness :
  let r := MatchRecord mar15 "Acme Inc" "1 Main St"
             (["177"%char] ++ "1 day(s)") in
  match_dates_to_clients [mar15] neighbours_report acme_addresses = [r; r]
  ∧ occurrences r
      (match_dates_to_clients [mar15] neighbours_report acme_addresses)
    = 2%nat.
Proof.
  intros r. split; [by vm_compute|].
  refine (proj2 (proj2 (C10_two_neighbours_duplicate_records
            [mar15] neighbours_report acme_addresses mar15 mar14 mar16
            "Acme Inc" "1 Main St" _ _ _ _ _ _ _ _)) _ _ _).
  - left.
  - by_decide.
  - left.
  - right; left.
  - by vm_compute.
  - by vm_compute.
  - left.
  - by vm_compute.
  - apply NoDup_singleton.
  - by_decide.
  - apply NoDup_singleton.
Defined.

End matcher_properties.


(** ** The order of [str] *)
Section str_order.

#[global] Instance str_le_trans : Transitive str_le.
Proof. intros s1 s2 s3. unfold str_le. apply transitivity. Qed.

#[global] Instance str_le_total : Total str_le.
Proof. intros s1 s2. unfold str_le. apply total, _. Qed.

#[global] Instance str_le_refl : Reflexive str_le.
Proof. intros s. unfold str_le. reflexivity. Qed.

#[global] Instance str_le_antisym : AntiSymm (=) str_le.
Proof.
  intros s1 s2 H1 H2. unfold str_le in *.
  pose proof (anti_symm String.le _ _ H1 H2) as Heq.
  rewrite <- (list_ascii_of_string_of_list_ascii s1).
  rewrite <- (list_ascii_of_string_of_list_ascii s2).
  by rewrite Heq.
Qed.

End str_order.

(** ** Sets as lists *)
Section set_order.
Context `{SetOrder}.

Lemma elem_of_list_of_set {A} `{EqDecision A} (l : list A) x :
  x ∈ list_of_set l ↔ x ∈ l.
Proof. by rewrite list_of_set_perm, elem_of_remove_dups. Qed.

Lemma NoDup_list_of_set {A} `{EqDecision A} (l : list A) :
  NoDup (list_of_set l).
Proof. rewrite list_of_set_perm. apply NoDup_remove_dups. Qed.

Lemma length_list_of_set {A} `{EqDecision A} (l : list A) :
  (length (list_of_set l) ≤ length l)%nat.
Proof.
  rewrite list_of_set_perm.
  induction l as [|x l IH]; simpl; [done|].
  case_decide; simpl; lia.
Qed.

End set_order.

(** ** The date miner: the result as a set *)

(** C6: whatever the iteration order of the set, the result of the date
    miner has no date twice and holds exactly the dates the two loops
    collected; two calls on the same text, under any two iteration
    orders, return the same dates, each once. *)
Theorem C6_date_miner_result_is_a_set (order1 order2 : SetOrder) (text : str) :
  NoDup (@parse_dates_from_text order1 text)
  ∧ (∀ d, d ∈ @parse_dates_from_text order1 text ↔ d ∈ mined_dates text)
  ∧ (∀ d, d ∈ @parse_dates_from_text order1 text
          ↔ d ∈ @parse_dates_from_text order2 text)
  ∧ @parse_dates_from_text order1 text ≡ₚ @parse_dates_from_text order2 text
  ∧ @parse_dates_from_text order1 "03/15/2024, 2024-03-15, 15 March 2024"
    = [mar15].
Proof.
  unfold parse_dates_from_text. split_and!.
  - apply NoDup_list_of_set.
  - intros d. apply elem_of_list_of_set.
  - intros d. by rewrite !elem_of_list_of_set.
  - by rewrite !list_of_set_perm.
  - apply Permutation_singleton_r. rewrite list_of_set_perm. by vm_compute.
Qed.

(** ** Amounts *)

(** C9: on the single line [Parked 03/15/2024], which holds a date and
    no dollar sign, the amounts are 3, 15 and 2024: the runs of digits of
    the date. *)
Theorem C9_date_digits_are_amounts (order : SetOrder) :
  let text : str := "Parked 03/15/2024" in
  r_amounts (parse_parking_receipts text)
  = [inject_Z 3; inject_Z 15; inject_Z 2024]
  ∧ r_amounts (parse_parking_receipts text) ≠ []
  ∧ Re.findall false amount_pattern text
    = ["03" : str; "15" : str; "2024" : str]
  ∧ lines_of text = [text]
  ∧ (("$"%char) ∉ text)
  ∧ r_dates (parse_parking_receipts text) = [mar15].
Proof.
  intros text.
  assert (r_amounts (parse_parking_receipts text)
          = [inject_Z 3; inject_Z 15; inject_Z 2024]) as Hamounts
    by (by vm_compute).
  split_and!.
  - exact Hamounts.
  - by rewrite Hamounts.
  - by vm_compute.
  - by vm_compute.
  - by_decide.
  - simpl. unfold parse_dates_from_text.
    apply Permutation_singleton_r. rewrite list_of_set_perm. by vm_compute.
Qed.

(** ** Client names *)
Section clients.
Context `{SetOrder}.

Lemma client_step_eq clients line :
  client_step clients line =
  match line_candidate line with
  | Some client_name =>
      if bool_decide (client_name ∈ clients) then clients
      else clients ++ [client_name]
  | None => clients
  end.
Proof.
  unfold client_step, line_candidate.
  destruct (skip_line (Str.strip line)); [done|].
  set (potential_client := filter _ _).
  destruct (Nat.leb 1 (length potential_client)); cbn [andb]; [|done].
  destruct (Nat.leb 3 (length (Str.join " " potential_client)));
    cbn [andb]; [|done].
  destruct (Nat.leb (length (Str.join " " potential_client)) 50);
    cbn [andb]; [|done].
  by case_bool_decide.
Qed.

Lemma line_candidate_length line client_name :
  line_candidate line = Some client_name →
  (3 ≤ length client_name ≤ 50)%nat.
Proof.
  unfold line_candidate.
  destruct (skip_line (Str.strip line)); [done|].
  set (potential_client := filter _ _).
  destruct (Nat.leb 1 (length potential_client)); cbn [andb]; [|done].
  destruct (Nat.leb_spec 3 (length (Str.join " " potential_client)));
    cbn [andb]; [|done].
  destruct (Nat.leb_spec (length (Str.join " " potential_client)) 50);
    cbn [andb]; [|done].
  intros [= <-]. split; assumption.
Qed.

(** The loop over the lines keeps the names accepted so far and adds
    only candidates of the lines. *)
Lemma elem_of_foldl_client_step lines clients name :
  name ∈ foldl client_step clients lines ↔
  name ∈ clients ∨ ∃ line, line ∈ lines ∧ line_candidate line = Some name.
Proof.
  revert clients. induction lines as [|line lines IH]; intros clients; simpl.
  - split; [by left|]. intros [?|(line & Hin & _)]; [done|].
    by apply elem_of_nil in Hin.
  - rewrite IH, client_step_eq. split.
    + intros [Hin | (l & Hl & Hc)].
      * destruct (line_candidate line) as [cn|] eqn:E; [|by left].
        case_bool_decide; [by left|].
        apply elem_of_app in Hin as [?|Heq%list_elem_of_singleton];
          [by left|subst name].
        right. exists line. split; [left|done].
      * right. exists l. split; [by right|done].
    + intros [Hin | (l & [->|Hl]%elem_of_cons & Hc)].
      * left. destruct (line_candidate line); [|done].
        case_bool_decide; [done|]. apply elem_of_app. by left.
      * left. rewrite Hc. case_bool_decide; [done|].
        apply elem_of_app. right. left.
      * right. by exists l.
Qed.

Lemma elem_of_found_clients text name :
  name ∈ found_clients text ↔
  ∃ line, line ∈ lines_of text ∧ line_candidate line = Some name.
Proof.
  unfold found_clients. rewrite elem_of_foldl_client_step. split.
  - intros [Hin|?]; [by apply elem_of_nil in Hin|done].
  - by right.
Qed.

Lemma elem_of_sorted (l : list str) x : x ∈ sorted l ↔ x ∈ l.
Proof. unfold sorted. by rewrite merge_sort_Permutation. Qed.

Lemma StronglySorted_take {A} (R : relation A) (l : list A) n :
  StronglySorted R l → StronglySorted R (take n l).
Proof.
  intros Hl. revert n. induction Hl as [|x l Hl IH Hx]; intros [|n]; simpl;
    try constructor.
  - apply IH.
  - apply Forall_take, Hx.
Qed.

(** C7: the clients of a parsed time report are at most ten names, each
    once, in increasing order of [str] (code point by code point), and
    each from 3 to 50 characters long. *)
Theorem C7_clients_sorted_distinct_capped (text : str) :
  let result := clients (parse_time_report text) in
  NoDup result
  ∧ StronglySorted str_le result
  ∧ (length result ≤ 10)%nat
  ∧ (∀ name, name ∈ result → (3 ≤ length name ≤ 50)%nat)
  ∧ (∀ name, name ∈ result → name ∈ found_clients text).
Proof.
  simpl. split_and!.
  - apply (sublist_NoDup _ (sorted (list_of_set (found_clients text))));
      [|apply sublist_take].
    unfold sorted. rewrite merge_sort_Permutation. apply NoDup_list_of_set.
  - apply StronglySorted_take. unfold sorted.
    apply (StronglySorted_merge_sort str_le).
  - rewrite length_take. lia.
  - intros name Hin%(subseteq_take 10).
    rewrite elem_of_sorted, elem_of_list_of_set, elem_of_found_clients in Hin.
    destruct Hin as (line & _ & Hc).
    by apply line_candidate_length in Hc.
  - intros name Hin%(subseteq_take 10).
    by rewrite elem_of_sorted, elem_of_list_of_set in Hin.
Qed.

Lemma foldl_client_step_app clients lines1 lines2 :
  foldl client_step clients (lines1 ++ lines2)
  = foldl client_step (foldl client_step clients lines1) lines2.
Proof. apply foldl_app. Qed.

(** C8: the line [Total Hours: 40] yields no candidate, each of its
    words failing the test for a word of a name, so that the names found
    in a text are those found in the text without that line; the line
    [ABC Corporation] yields the candidate [ABC Corporation], which is
    among the names found in every text that has this line, and among
    the clients returned when at most ten names were found. *)
Theorem C8_total_hours_rejected_abc_corporation_accepted (text : str) :
  line_candidate "Total Hours: 40" = None
  ∧ Str.split "Total Hours: 40" = ["Total" : str; "Hours:" : str; "40" : str]
  ∧ Forall (λ word, keep_word word = false) (Str.split "Total Hours: 40")
  ∧ (∀ clients, client_step clients "Total Hours: 40" = clients)
  ∧ (∀ lines1 lines2,
       lines_of text = lines1 ++ ["Total Hours: 40" : str] ++ lines2 →
       found_clients text = foldl client_step [] (lines1 ++ lines2))
  ∧ line_candidate "ABC Corporation" = Some ("ABC Corporation" : str)
  ∧ (("ABC Corporation" : str) ∈ lines_of text →
     ("ABC Corporation" : str) ∈ found_clients text
     ∧ ((length (found_clients text) ≤ 10)%nat →
        ("ABC Corporation" : str) ∈ clients (parse_time_report text))).
Proof.
  assert (line_candidate "Total Hours: 40" = None) as Hnone by (by vm_compute).
  assert (line_candidate "ABC Corporation" = Some ("ABC Corporation" : str))
    as Hsome by (by vm_compute).
  assert (∀ clients, client_step clients "Total Hours: 40" = clients) as Hstep.
  { intros clients. by rewrite client_step_eq, Hnone. }
  split_and!.
  - exact Hnone.
  - by vm_compute.
  - by_decide.
  - exact Hstep.
  - intros lines1 lines2 Hlines. unfold found_clients.
    fold (lines_of text). rewrite Hlines.
    rewrite !foldl_client_step_app. simpl. by rewrite Hstep.
  - exact Hsome.
  - intros Hline.
    assert (("ABC Corporation" : str) ∈ found_clients text) as Hfound.
    { apply elem_of_found_clients. by eexists. }
    split; [exact Hfound|]. intros Hlen. simpl.
    rewrite take_ge.
    + by rewrite elem_of_sorted, elem_of_list_of_set.
    + unfold sorted. rewrite merge_sort_Permutation.
      pose proof (length_list_of_set (found_clients text)). lia.
Qed.

End clients.

(** C8 on a report of three lines. *)
Lemma C8_witness :
  let text : str :=
    "Total Hours: 40" ++ ["010"%char] ++ "ABC Corporation" ++ ["010"%char]
    ++ "Zed Ltd" in
  found_clients text = ["ABC Corporation" : str; "Zed Ltd" : str]
  ∧ ("ABC Corporation" : str) ∈ found_clients text.
Proof.
  intros text. split; [by vm_compute|].
  refine (proj1 (proj2 (proj2 (proj2 (proj2 (proj2 (proj2
            (@C8_total_hours_rejected_abc_corporation_accepted
               last_occurrence_order text)))))) _)).
  by_decide.
Defined.


(** ** Locations *)
Section locations.
Import Unicode Re.

Lemma startswith_spec s p :
  Str.startswith s p = true ↔ ∃ post, s = p ++ post.
Proof.
  revert s. induction p as [|a p IH]; intros s.
  - destruct s; simpl; (split; [by eexists|done]).
  - destruct s as [|b s]; simpl.
    + split; [done|]. by intros (post & ?).
    + rewrite andb_true_iff, bool_decide_eq_true, IH. split.
      * intros [-> (post & ->)]. by exists post.
      * intros (post & [= -> ->]). split; [done|by exists post].
Qed.

(** [sub in s] holds exactly when [s] is some text, [sub], some text. *)
Lemma contains_spec sub s :
  Str.contains sub s = true ↔ ∃ pre post, s = pre ++ sub ++ post.
Proof.
  assert (∀ s, Str.contains sub s
               = Str.startswith s sub
                 || match s with [] => false | _ :: s' => Str.contains sub s' end)
    as Hunfold by (by intros []).
  induction s as [|c s IH]; rewrite Hunfold, orb_true_iff, startswith_spec.
  - split.
    + intros [(post & Hs) | ?]; [|done]. by exists [], post.
    + intros (pre & post & Hs). left.
      destruct pre; [by exists post|done].
  - rewrite IH. split.
    + intros [(post & Hs) | (pre & post & ->)].
      * by exists [], post.
      * by exists (c :: pre), post.
    + intros ([|c' pre] & post & Hs).
      * left. by exists post.
      * right. injection Hs as -> ->. by exists pre, post.
Qed.

Lemma match_at_Cls ignorecase p prev s :
  match_at ignorecase (Cls p) prev s =
  match s with
  | c :: _ => if p c then Some (Match [] 1) else None
  | [] => None
  end.
Proof.
  unfold match_at. simpl. destruct s as [|c s]; [done|].
  by destruct (p c).
Qed.

(** Substituting on a class of characters works character by
    character. *)
Lemma sub_Cls p repl s :
  sub (Cls p) repl s = s ≫= λ c, if p c then repl else [c].
Proof.
  unfold sub. generalize (@None ascii) as prev.
  induction s as [|c s IH]; intros prev.
  - change (sub_from false (Cls p) repl 0 prev [])
      with (match match_at false (Cls p) prev [] with
            | Some m => repl ++ []
            | None => []
            end).
    by rewrite match_at_Cls.
  - change (sub_from false (Cls p) repl 0 prev (c :: s))
      with (match match_at false (Cls p) prev (c :: s) with
            | Some m => repl ++ sub_from false (Cls p) repl (pred (span m)) (Some c) s
            | None => c :: sub_from false (Cls p) repl 0 (Some c) s
            end).
    rewrite match_at_Cls. csimpl. destruct (p c); simpl; by rewrite IH.
Qed.

Lemma clean_location_eq line :
  clean_location line = Str.strip (blank_out line).
Proof.
  unfold clean_location, blank_out. rewrite sub_Cls. f_equal.
  induction line as [|c line IH]; csimpl; [done|].
  unfold not_location_char, location_char in *.
  destruct (is_word c || is_space c || one_of "-." c); simpl;
    f_equal; exact IH.
Qed.

Lemma location_step_eq locations line :
  location_step locations line
  = locations ++ option_list (location_of_line blank_out line).
Proof.
  unfold location_step, location_of_line. rewrite clean_location_eq.
  destruct (is_location_candidate line); simpl; [|by rewrite app_nil_r].
  set (cleaned_line := Str.strip (blank_out line)).
  destruct (length cleaned_line) as [|[|[|[|n]]]]; simpl;
    by rewrite ?app_nil_r.
Qed.

Lemma found_locations_eq text :
  found_locations text = omap (location_of_line blank_out) (lines_of text).
Proof.
  unfold found_locations, lines_of.
  rewrite (foldl_append (λ line, option_list (location_of_line blank_out line)))
    by apply location_step_eq.
  simpl. induction (Str.split_on "010" text) as [|line lines IH]; csimpl;
    [done|].
  rewrite IH. by destruct (location_of_line blank_out line).
Qed.

Lemma lstrip_Forall (P : ascii → Prop) s : Forall P s → Forall P (Str.lstrip s).
Proof.
  induction 1 as [|c s Hc Hs IH]; simpl; [done|].
  destruct (is_space c); [done|by constructor].
Qed.

Lemma strip_Forall (P : ascii → Prop) s : Forall P s → Forall P (Str.strip s).
Proof.
  intros Hs. unfold Str.strip, Str.rstrip.
  apply Forall_rev, lstrip_Forall, Forall_rev, lstrip_Forall, Hs.
Qed.

Lemma is_location_candidate_spec line :
  is_location_candidate line = true ↔
  ∃ keyword pre post,
    keyword ∈ location_keywords
    ∧ Str.strip (Str.lower line) = pre ++ keyword ++ post.
Proof.
  unfold is_location_candidate. rewrite existsb_exists. split.
  - intros (keyword & Hin%list_elem_of_In & (pre & post & Hc)%contains_spec).
    by exists keyword, pre, post.
  - intros (keyword & pre & post & Hin%list_elem_of_In & Hc).
    exists keyword. split; [done|]. apply contains_spec. by exists pre, post.
Qed.

Lemma blank_out_chars line :
  Forall (λ c, location_char c = true) (blank_out line).
Proof.
  unfold blank_out. apply Forall_fmap, Forall_forall. intros c _. simpl.
  by destruct (location_char c) eqn:E.
Qed.

Lemma location_of_line_Some line location :
  location_of_line blank_out line = Some location ↔
  is_location_candidate line = true
  ∧ location = clean_location line
  ∧ (4 ≤ length location)%nat.
Proof.
  unfold location_of_line. rewrite clean_location_eq.
  destruct (is_location_candidate line); [|by split; [|intros [? _]]].
  destruct (Nat.leb_spec 4 (length (Str.strip (blank_out line)))).
  - split; [by intros [= <-]|by intros (_ & -> & _)].
  - split; [done|]. intros (_ & -> & ?). lia.
Qed.

(** C2, amended: a line is a candidate when its lowercase form holds a
    keyword; the candidate is cleaned by replacing every character that
    is not a word character, white space, a hyphen or a period by one
    space (the line keeps its length), then trimmed; the locations found
    are the cleaned candidates of at least 4 characters, in the order of
    the lines, and the first ten of them are returned. *)
Theorem C2_locations_blank_out_and_trim (order : SetOrder) (text : str) :
  r_locations (parse_parking_receipts text) = take 10 (found_locations text)
  ∧ found_locations text = omap (location_of_line blank_out) (lines_of text)
  ∧ (∀ line location,
       location_of_line blank_out line = Some location ↔
       is_location_candidate line = true
       ∧ location = Str.strip (blank_out line)
       ∧ (4 ≤ length location)%nat)
  ∧ (∀ line,
       is_location_candidate line = true ↔
       ∃ keyword pre post,
         keyword ∈ location_keywords
         ∧ Str.strip (Str.lower line) = pre ++ keyword ++ post)
  ∧ (∀ line,
       clean_location line = Str.strip (blank_out line)
       ∧ length (blank_out line) = length line
       ∧ Forall (λ c, location_char c = true) (clean_location line)).
Proof.
  split_and!.
  - done.
  - apply found_locations_eq.
  - intros line location. rewrite location_of_line_Some.
    by rewrite clean_location_eq.
  - apply is_location_candidate_spec.
  - intros line. split_and!.
    + apply clean_location_eq.
    + unfold blank_out. apply length_fmap.
    + rewrite clean_location_eq. apply strip_Forall, blank_out_chars.
Qed.

(** C2, counterexample to the statement as given: on the line
    [Garage, Lot #7] the location found has a space for the comma and a
    space for the hash sign, whereas the line stripped of these two
    characters has neither; on the line [rd,x] a location of four
    characters is found, whereas the line stripped of the comma has
    three characters and would be dropped; and of eleven candidate lines
    the eleventh yields no location. *)
Lemma C2_counterexample :
  r_locations (@parse_parking_receipts last_occurrence_order "Garage, Lot #7")
  = ["Garage  Lot  7" : str]
  ∧ omap (location_of_line take_out) (lines_of "Garage, Lot #7")
    = ["Garage Lot 7" : str]
  ∧ r_locations (@parse_parking_receipts last_occurrence_order "rd,x")
    = ["rd x" : str]
  ∧ omap (location_of_line take_out) (lines_of "rd,x") = []
  ∧ lines_of eleven_lots !! 10%nat = Some ("lot 11" : str)
  ∧ location_of_line blank_out "lot 11" = Some ("lot 11" : str)
  ∧ r_locations (@parse_parking_receipts last_occurrence_order eleven_lots)
    = ["lot 01" : str; "lot 02" : str; "lot 03" : str; "lot 04" : str;
       "lot 05" : str; "lot 06" : str; "lot 07" : str; "lot 08" : str;
       "lot 09" : str; "lot 10" : str].
Proof. split_and!; by vm_compute. Qed.

End locations.

(** ** The matcher of patterns *)
Section regex.
Import Unicode Re.

Lemma last_or_cons prev c w : last_or prev (c :: w) = last_or (Some c) w.
Proof.
  unfold last_or. destruct w as [|c' w]; [done|].
  rewrite last_cons_cons.
  destruct (last (c' :: w)) eqn:E; [done|]. by apply last_None in E.
Qed.

(** What a successful repetition has matched. *)
Lemma rep_Some {A} p lo hi prev0 pos0 s (k : cursor → option A) x :
  rep p lo hi prev0 pos0 s k = Some x →
  ∃ w s',
    s = w ++ s'
    ∧ Forall (λ c, p c = true) w
    ∧ (lo ≤ length w)%nat
    ∧ (∀ h, hi = Some h → (length w ≤ h)%nat)
    ∧ k (Cursor (last_or prev0 w) (pos0 + length w) s') = Some x.
Proof.
  revert lo hi prev0 pos0.
  induction s as [|c s IH]; intros lo hi prev0 pos0; simpl.
  - destruct lo; [|done]. intros Hk. exists [], [].
    split_and!; [done|constructor|done|simpl; lia|].
    by rewrite Nat.add_0_r.
  - assert (match lo with
            | O => k (Cursor prev0 pos0 (c :: s))
            | S _ => None
            end = Some x →
            ∃ w s', c :: s = w ++ s' ∧ Forall (λ c, p c = true) w
              ∧ (lo ≤ length w)%nat
              ∧ (∀ h, hi = Some h → (length w ≤ h)%nat)
              ∧ k (Cursor (last_or prev0 w) (pos0 + length w) s') = Some x)
      as Hstop.
    { destruct lo; [|done]. intros Hk. exists [], (c :: s).
      split_and!; [done|constructor|done|simpl; lia|].
      by rewrite Nat.add_0_r. }
    destruct (p c) eqn:Hp; simpl; [|done].
    destruct (may_take hi) eqn:Hhi; simpl; [|done].
    destruct (rep p (pred lo) (pred <$> hi) (Some c) (S pos0) s k)
      as [y|] eqn:Hrep; [|done].
    intros [= ->].
    apply IH in Hrep as (w & s' & -> & Hw & Hlo & Hmax & Hk).
    exists (c :: w), s'. split_and!.
    + done.
    + by constructor.
    + simpl. lia.
    + intros h ->. simpl. destruct h as [|h]; [done|].
      specialize (Hmax h eq_refl). lia.
    + rewrite last_or_cons. simpl length.
      by replace (pos0 + S (length w))%nat with (S pos0 + length w)%nat by lia.
Qed.

(** What a match of the first date pattern has matched: one or two
    digits, a separator, one or two digits, a separator, four digits,
    between two word boundaries. *)
Lemma pattern_mdy_shape prev0 s m :
  match_at true pattern_mdy prev0 s = Some m →
  ∃ w1 c1 w2 c2 w3 s',
    s = w1 ++ c1 :: w2 ++ c2 :: w3 ++ s'
    ∧ Forall (λ c, is_decimal c = true) w1 ∧ (1 ≤ length w1 ≤ 2)%nat
    ∧ date_sep c1 = true
    ∧ Forall (λ c, is_decimal c = true) w2 ∧ (1 ≤ length w2 ≤ 2)%nat
    ∧ date_sep c2 = true
    ∧ Forall (λ c, is_decimal c = true) w3 ∧ length w3 = 4%nat
    ∧ span m = (length w1 + 1 + length w2 + 1 + length w3)%nat.
Proof.
  unfold match_at, pattern_mdy, cat, range, exactly.
  cbn [run foldr prev pos rest].
  destruct (at_boundary prev0 s) eqn:Hb1; [|done].
  intros (w1 & s1 & -> & Hw1 & Hlo1 & Hhi1 & Hk)%rep_Some.
  cbn [prev pos rest] in Hk.
  destruct s1 as [|c1 s1]; [done|]. destruct (date_sep c1) eqn:Hc1; [|done].
  apply rep_Some in Hk as (w2 & s2 & -> & Hw2 & Hlo2 & Hhi2 & Hk).
  cbn [prev pos rest] in Hk.
  destruct s2 as [|c2 s2]; [done|]. destruct (date_sep c2) eqn:Hc2; [|done].
  apply rep_Some in Hk as (w3 & s3 & -> & Hw3 & Hlo3 & Hhi3 & Hk).
  cbn [prev pos rest] in Hk.
  destruct (at_boundary _ s3); [|done]. injection Hk as <-.
  specialize (Hhi1 _ eq_refl). specialize (Hhi2 _ eq_refl).
  specialize (Hhi3 _ eq_refl).
  exists w1, c1, w2, c2, w3, s3. split_and!; try done; try lia.
  simpl. lia.
Qed.

(** A repetition that finds as many characters as it may take, and
    whose continuation succeeds from there, takes them all. *)
Lemma rep_greedy {A} p lo prev0 pos0 w s' (k : cursor → option A) x :
  Forall (λ c, p c = true) w →
  (lo ≤ length w)%nat →
  k (Cursor (last_or prev0 w) (pos0 + length w) s') = Some x →
  rep p lo (Some (length w)) prev0 pos0 (w ++ s') k = Some x.
Proof.
  intros Hw. revert lo prev0 pos0.
  induction Hw as [|c w Hc Hw IH]; intros lo prev0 pos0 Hlo Hk.
  - simpl in *. assert (lo = 0%nat) as -> by lia.
    rewrite Nat.add_0_r in Hk.
    destruct s' as [|c s']; simpl; [done|].
    by rewrite andb_false_r.
  - simpl. rewrite Hc. simpl.
    rewrite (IH (pred lo) (Some c) (S pos0)); [done|simpl in Hlo; lia|].
    rewrite last_or_cons in Hk. simpl length in Hk.
    by replace (S pos0 + length w)%nat with (pos0 + S (length w))%nat by lia.
Qed.

Lemma is_decimal_is_word c : is_decimal c = true → is_word c = true.
Proof.
  intros Hc. unfold is_word, is_alnum, is_numeric, is_digit. rewrite Hc.
  by rewrite !orb_true_r.
Qed.

Lemma at_boundary_before_digit prev0 c s :
  no_word_char prev0 → is_decimal c = true →
  at_boundary prev0 (c :: s) = true.
Proof.
  unfold no_word_char, at_boundary. intros -> Hc. simpl.
  by rewrite (is_decimal_is_word c Hc).
Qed.

Lemma at_boundary_after_digit c s :
  is_decimal c = true → no_word_char (head s) →
  at_boundary (Some c) s = true.
Proof.
  unfold no_word_char, at_boundary. intros Hc ->. simpl.
  by rewrite (is_decimal_is_word c Hc).
Qed.

(** The first date pattern matches a numeric date that stands between
    two characters that are no word characters (or the ends of the
    text). *)
Lemma pattern_mdy_here prev0 a b c d e f g h post :
  Forall (λ x, is_decimal x = true) [a; b; c; d; e; f; g; h] →
  no_word_char prev0 → no_word_char (head post) →
  match_at true pattern_mdy prev0 (numeric_date a b c d e f g h ++ post)
  = Some (Match [[a; b]; [c; d]; [e; f; g; h]] 10).
Proof.
  intros Hdigits Hbefore Hafter.
  repeat match goal with
    | H : Forall _ (_ :: _) |- _ => apply Forall_cons in H as [? H]
    end.
  unfold match_at, pattern_mdy, cat, range, exactly, numeric_date.
  cbn [run foldr prev pos rest app].
  rewrite at_boundary_before_digit by done.
  apply (rep_greedy is_decimal 1 prev0 0 [a; b]); [by repeat constructor|simpl; lia|].
  cbn [prev pos rest last_or last length Nat.add].
  replace (date_sep "/") with true by (by vm_compute).
  apply (rep_greedy is_decimal 1 (Some "/"%char) 3 [c; d]);
    [by repeat constructor|simpl; lia|].
  cbn [prev pos rest last_or last length Nat.add].
  replace (date_sep "/") with true by (by vm_compute).
  apply (rep_greedy is_decimal 4 (Some "/"%char) 6 [e; f; g; h]);
    [by repeat constructor|simpl; lia|].
  cbn [prev pos rest last_or last length Nat.add].
  by rewrite at_boundary_after_digit.
Qed.

Lemma date_sep_not_decimal c : date_sep c = true → is_decimal c = false.
Proof.
  unfold date_sep, one_of. intros Hc%bool_decide_eq_true.
  repeat (apply elem_of_cons in Hc as [->|Hc]; [by vm_compute|]).
  by apply elem_of_nil in Hc.
Qed.

Ltac split_Forall :=
  repeat match goal with
    | H : Forall _ (_ :: _) |- _ => apply Forall_cons in H as [? H]
    | H : Forall _ [] |- _ => clear H
    end.

(** Three ways in which a character cannot be what the alignment of a
    match with the text asks of it. *)
Ltac absurd_char :=
  match goal with
  | H : is_decimal "/" = true |- _ => by vm_compute in H
  | H1 : date_sep ?c = true, H2 : is_decimal ?c = true |- _ =>
      rewrite (date_sep_not_decimal c H1) in H2; done
  | H1 : is_word ?c = false, H2 : is_decimal ?c = true |- _ =>
      rewrite (is_decimal_is_word c H2) in H1; done
  end.

(** A match of the first date pattern that starts before a delimited
    numeric date ends before it: the character [x] in front of the date
    is no word character, so it could only be one of the two separators
    of the match, and then the digits and slashes of the date do not fit
    the rest of the pattern. *)
Lemma pattern_mdy_no_crossing prev0 pre x a b c d e f g h post m :
  Forall (λ x, is_decimal x = true) [a; b; c; d; e; f; g; h] →
  is_word x = false →
  match_at true pattern_mdy prev0
    (pre ++ x :: numeric_date a b c d e f g h ++ post) = Some m →
  (span m ≤ S (length pre))%nat.
Proof.
  intros Hdigits Hx Hm.
  apply pattern_mdy_shape in Hm
    as (w1 & c1 & w2 & c2 & w3 & s' & Heq & Hw1 & Hl1 & Hc1 & Hw2 & Hl2
        & Hc2 & Hw3 & Hl3 & ->).
  unfold numeric_date in Heq.
  destruct w1 as [|x1 [|x2 [|? ?]]]; simpl in Hl1; try lia;
    destruct w2 as [|y1 [|y2 [|? ?]]]; simpl in Hl2; try lia;
    destruct w3 as [|z1 [|z2 [|z3 [|z4 [|? ?]]]]]; simpl in Hl3; try lia;
    split_Forall; simpl in Heq |- *; clear Hl1 Hl2 Hl3;
    repeat (first
      [ lia
      | destruct pre as [|? pre]; simpl in Heq |- *;
        [ simplify_eq; absurd_char
        | injection Heq as -> Heq ] ]).
Qed.

End regex.

(** ** The date miner: which dates are mined *)
Section date_miner.
Import Unicode Re.

Lemma try_match_eq groups dates :
  try_match groups dates
  = (o ← date_of_groups groups; mret (dates ++ option_list o)).
Proof.
  unfold try_match, date_of_groups.
  destruct groups as [|g0 [|g1 [|g2 [|g3 groups]]]];
    try (simpl; by rewrite app_nil_r).
  destruct (Str.isdigit g0 && Str.isdigit g1 && Str.isdigit g2).
  - by destruct (if (length g0 =? 4)%nat then _ else _).
  - destruct (month_names !! take 3 (Str.lower g1)).
    + destruct (Str.int g0); [|done]. destruct (Str.int g2); [|done].
      simpl. by destruct (datetime.new _ _ _).
    + destruct (month_names !! take 3 (Str.lower g0)).
      * destruct (Str.int g1); [|done]. destruct (Str.int g2); [|done].
        simpl. by destruct (datetime.new _ _ _).
      * simpl. by rewrite app_nil_r.
Qed.

Lemma mine_match_eq dates m :
  mine_match dates m =
  match date_of_groups (groups m) with
  | Ok (Some d) => dates ++ [d]
  | _ => dates
  end.
Proof.
  unfold mine_match. rewrite try_match_eq.
  destruct (date_of_groups (groups m)) as [[d|]|]; simpl; [done| |done].
  by rewrite app_nil_r.
Qed.

Lemma elem_of_foldl_mine_match d dates ms :
  d ∈ foldl mine_match dates ms ↔
  d ∈ dates ∨ ∃ m, m ∈ ms ∧ date_of_groups (groups m) = Ok (Some d).
Proof.
  revert dates. induction ms as [|m ms IH]; intros dates; simpl.
  - split; [by left|]. intros [?|(m & Hm & _)]; [done|].
    by apply elem_of_nil in Hm.
  - rewrite IH, mine_match_eq. split.
    + intros [Hd | (m' & Hm' & Hg)].
      * destruct (date_of_groups (groups m)) as [[d'|]|] eqn:E;
          [|by left..].
        apply elem_of_app in Hd as [?|Hd%list_elem_of_singleton]; [by left|].
        subst d'. right. exists m. split; [left|done].
      * right. exists m'. split; [by right|done].
    + intros [Hd | (m' & [->|Hm']%elem_of_cons & Hg)].
      * left. destruct (date_of_groups (groups m)) as [[d'|]|]; [|done..].
        apply elem_of_app. by left.
      * left. rewrite Hg. apply elem_of_app. right. left.
      * right. by exists m'.
Qed.

(** The dates mined from a text are the dates of the matches of the
    four patterns. *)
Lemma elem_of_mined_dates d text :
  d ∈ mined_dates text ↔
  ∃ pattern m,
    pattern ∈ date_patterns
    ∧ m ∈ finditer true pattern text
    ∧ date_of_groups (groups m) = Ok (Some d).
Proof.
  unfold mined_dates.
  assert (∀ patterns dates,
            d ∈ foldl (mine_pattern text) dates patterns ↔
            d ∈ dates ∨ ∃ pattern m,
              pattern ∈ patterns ∧ m ∈ finditer true pattern text
              ∧ date_of_groups (groups m) = Ok (Some d)) as Hfold.
  { induction patterns as [|pattern patterns IH]; intros dates; simpl.
    - split; [by left|]. intros [?|(p & m & Hp & _)]; [done|].
      by apply elem_of_nil in Hp.
    - rewrite IH. unfold mine_pattern.
      rewrite elem_of_foldl_mine_match. split.
      + intros [[?|(m & Hm & Hg)] | (p & m & Hp & Hm & Hg)].
        * by left.
        * right. exists pattern, m. split; [left|done].
        * right. exists p, m. split; [by right|done].
      + intros [? | (p & m & [->|Hp]%elem_of_cons & Hm & Hg)].
        * left. by left.
        * left. right. by exists m.
        * right. by exists p, m. }
  rewrite Hfold. split; [|by right].
  intros [Hd|?]; [by apply elem_of_nil in Hd|done].
Qed.

Lemma finditer_from_0 ignorecase r prev0 s :
  finditer_from ignorecase r 0 prev0 s =
  match match_at ignorecase r prev0 s with
  | Some m =>
      m :: match s with
           | c :: s' => finditer_from ignorecase r (pred (span m)) (Some c) s'
           | [] => []
           end
  | None =>
      match s with
      | c :: s' => finditer_from ignorecase r 0 (Some c) s'
      | [] => []
      end
  end.
Proof. by destruct s. Qed.

(** The scan for the first date pattern reaches every delimited numeric
    date: no earlier match runs over its first character. *)
Lemma finditer_from_numeric_date skip prev0 pre a b c d e f g h post :
  Forall (λ x, is_decimal x = true) [a; b; c; d; e; f; g; h] →
  no_word_char (last_or prev0 pre) → no_word_char (head post) →
  (skip ≤ length pre)%nat →
  Match [[a; b]; [c; d]; [e; f; g; h]] 10
  ∈ finditer_from true pattern_mdy skip prev0
      (pre ++ numeric_date a b c d e f g h ++ post).
Proof.
  intros Hdigits Hbefore Hafter. revert skip prev0 Hbefore.
  induction pre as [|c0 pre IH]; intros skip prev0 Hbefore Hskip.
  - simpl in Hskip. assert (skip = 0%nat) as -> by lia.
    rewrite app_nil_l, finditer_from_0, pattern_mdy_here by done. left.
  - rewrite last_or_cons in Hbefore.
    destruct skip as [|skip].
    + rewrite finditer_from_0.
      destruct (match_at true pattern_mdy prev0 _) as [m|] eqn:Hm.
      * right. simpl. apply IH; [done|].
        assert (is_Some (last (c0 :: pre))) as [x Hx]
          by (by apply last_is_Some).
        pose proof Hx as (pre' & Hpre)%last_Some.
        assert (is_word x = false) as Hword.
        { rewrite <- last_or_cons with (prev := prev0) in Hbefore.
          unfold last_or in Hbefore. by rewrite Hx in Hbefore. }
        rewrite Hpre, <- app_assoc in Hm. simpl in Hm.
        apply pattern_mdy_no_crossing in Hm; [|done..].
        apply (f_equal length) in Hpre. rewrite length_app in Hpre.
        simpl in Hpre. lia.
      * simpl. apply IH; [done|lia].
    + simpl. apply IH; [done|]. simpl in Hskip. lia.
Qed.

Lemma finditer_numeric_date pre a b c d e f g h post :
  Forall (λ x, is_decimal x = true) [a; b; c; d; e; f; g; h] →
  no_word_char (last pre) → no_word_char (head post) →
  Match [[a; b]; [c; d]; [e; f; g; h]] 10
  ∈ finditer true pattern_mdy (pre ++ numeric_date a b c d e f g h ++ post).
Proof.
  intros Hdigits Hbefore Hafter. unfold finditer.
  apply finditer_from_numeric_date; [done| |done|lia].
  unfold last_or. by destruct (last pre).
Qed.

Lemma no_february_30 (d : datetime.date) :
  ¬ (datetime.month d = 2 ∧ datetime.day d = 30).
Proof.
  destruct d as [y m d Hd]. simpl. intros [-> ->].
  apply check_date_fields_spec in Hd as (_ & _ & _ & Hd).
  unfold datetime.days_in_month in Hd.
  destruct (datetime.is_leap y); simpl in Hd; lia.
Qed.

(** C1, amended: when [03/15/2024] stands in a text with no word
    character (letter, digit, underscore) right before it and none right
    after it, the result holds March 15, 2024.  In the same position
    [02/30/2024] is matched as a candidate; wherever it is matched, its
    conversion raises [ValueError], the loop goes on and the list of
    dates is unchanged; no result ever holds a February 30. *)
Theorem C1_delimited_date_is_mined (order : SetOrder) (pre post : str) :
  (no_word_char (last pre) → no_word_char (head post) →
   mar15 ∈ parse_dates_from_text (pre ++ "03/15/2024" ++ post)
   ∧ Match ["02" : str; "30" : str; "2024" : str] 10
     ∈ finditer true pattern_mdy (pre ++ "02/30/2024" ++ post))
  ∧ (∀ dates n,
       try_match ["02" : str; "30" : str; "2024" : str] dates = ValueError
       ∧ mine_match dates (Match ["02" : str; "30" : str; "2024" : str] n)
         = dates)
  ∧ (∀ text d,
       d ∈ parse_dates_from_text text →
       ¬ (datetime.month d = 2 ∧ datetime.day d = 30))
  ∧ parse_dates_from_text "Paid 03/15/2024, not 02/30/2024" = [mar15].
Proof.
  split_and!.
  - intros Hbefore Hafter. split.
    + unfold parse_dates_from_text.
      apply elem_of_list_of_set, elem_of_mined_dates.
      exists pattern_mdy, (Match ["03" : str; "15" : str; "2024" : str] 10).
      split_and!; [left| |by vm_compute].
      apply (finditer_numeric_date pre "0" "3" "1" "5" "2" "0" "2" "4" post);
        [by_decide|done..].
    + apply (finditer_numeric_date pre "0" "2" "3" "0" "2" "0" "2" "4" post);
        [by_decide|done..].
  - intros dates n.
    assert (date_of_groups ["02" : str; "30" : str; "2024" : str] = ValueError)
      as Hraise by (by vm_compute).
    split.
    + by rewrite try_match_eq, Hraise.
    + rewrite mine_match_eq. cbn [groups]. by rewrite Hraise.
  - intros text d _. apply no_february_30.
  - unfold parse_dates_from_text. apply Permutation_singleton_r.
    rewrite list_of_set_perm. by vm_compute.
Qed.

End date_miner.

(** C1 on a sentence of a receipt. *)
Lemma C1_witness :
  no_word_char (last ("Parked on " : str))
  ∧ no_word_char (head (" at noon" : str))
  ∧ mar15 ∈ @parse_dates_from_text last_occurrence_order
              ("Parked on " ++ "03/15/2024" ++ " at noon").
Proof.
  assert (no_word_char (last ("Parked on " : str))) as Hbefore
    by (by vm_compute).
  assert (no_word_char (head (" at noon" : str))) as Hafter
    by (by vm_compute).
  split; [exact Hbefore|]. split; [exact Hafter|].
  exact (proj1 (proj1 (C1_delimited_date_is_mined last_occurrence_order
                         "Parked on " " at noon") Hbefore Hafter)).
Defined.

(** C1, counterexample to the statement as given: a text can hold
    [03/15/2024] and yield no date, when a letter stands right before
    the date or a digit right after it. *)
Lemma C1_counterexample :
  Str.contains "03/15/2024" "Date03/15/2024" = true
  ∧ @parse_dates_from_text last_occurrence_order "Date03/15/2024" = []
  ∧ Str.contains "03/15/2024" "03/15/20240" = true
  ∧ @parse_dates_from_text last_occurrence_order "03/15/20240" = [].
Proof. split_and!; by vm_compute. Qed.

(** * Further properties *)

(** ** The matcher: composition, empty output, membership, size *)
Section matcher_more.

(** X1: matching a list of receipt dates that is made of two parts gives
    the records of the first part followed by those of the second: the
    records come in the order of the receipt dates, and those of one
    receipt date do not depend on the other receipt dates. *)
Theorem X1_match_dates_to_clients_app
    (receipt_dates1 receipt_dates2 : list datetime.date)
    (time_report_data : time_report) (client_address_mapping : gmap str str) :
  match_dates_to_clients (receipt_dates1 ++ receipt_dates2) time_report_data
    client_address_mapping
  = match_dates_to_clients receipt_dates1 time_report_data
      client_address_mapping
    ++ match_dates_to_clients receipt_dates2 time_report_data
         client_address_mapping.
Proof. rewrite !match_dates_to_clients_eq. apply bind_app. Qed.

(** X2: the matcher returns no record at all exactly when no client of
    the report is a key of the address map, or every receipt date is more
    than one day away from every date of the report. *)
Theorem X2_no_match_iff
    (receipt_dates : list datetime.date) (time_report_data : time_report)
    (client_address_mapping : gmap str str) :
  match_dates_to_clients receipt_dates time_report_data client_address_mapping
  = []
  ↔ (∀ c, c ∈ clients time_report_data → client_address_mapping !! c = None)
    ∨ (∀ rd td, rd ∈ receipt_dates → td ∈ dates time_report_data →
                1 < Z.abs (datetime.days_between rd td)).
Proof.
  rewrite match_dates_to_clients_eq, bind_nil. split.
  - intros Hall.
    destruct (decide (records_for mar15 tag_exact (clients time_report_data)
                        client_address_mapping = [])) as [Hnil|Hne].
    + left. exact (proj1 (records_for_nil _ _ _ _) Hnil).
    + right. intros rd td Hrd Htd.
      apply Hall, best_matches_for_nil in Hrd as [Hnone|Hfar]; [|by apply Hfar].
      destruct Hne. exact (proj2 (records_for_nil _ _ _ _) Hnone).
  - intros Hcase rd Hrd. apply best_matches_for_nil.
    destruct Hcase as [Hnone|Hfar]; [by left|right].
    intros td Htd. by apply Hfar.
Qed.

(** X3: a record is in the output exactly when its date is a receipt
    date, its client is a client of the report, its address is the one
    the map gives for this client, and either the date is a date of the
    report and the record is tagged [exact], or the date is no date of
    the report, some date of the report is one day away from it, and the
    record is tagged with a difference of one day. *)
Theorem X3_match_record_iff
    (receipt_dates : list datetime.date) (time_report_data : time_report)
    (client_address_mapping : gmap str str) (r : match_record) :
  r ∈ match_dates_to_clients receipt_dates time_report_data
        client_address_mapping
  ↔ date r ∈ receipt_dates
    ∧ client r ∈ clients time_report_data
    ∧ client_address_mapping !! client r = Some (address r)
    ∧ ((date r ∈ dates time_report_data ∧ match_type r = tag_exact)
       ∨ ((date r ∉ dates time_report_data)
          ∧ (∃ td, td ∈ dates time_report_data
                   ∧ Z.abs (datetime.days_between (date r) td) = 1)
          ∧ match_type r = tag_within 1)).
Proof.
  rewrite elem_of_match_dates_to_clients. split.
  - intros (rd & Hrd & Hr).
    pose proof (best_matches_for_date _ _ _ _ Hr) as <-.
    split; [done|].
    destruct (best_matches_for_cases (date r) time_report_data
                client_address_mapping) as [[E Hb] | (E & Hin & Hb)];
      rewrite Hb in Hr.
    + rewrite tolerance_pass_eq in Hr.
      apply list_elem_of_bind in Hr as (td & Hr & Htd).
      unfold near_records in Hr; simpl in Hr.
      destruct (Z.leb_spec (Z.abs (datetime.days_between (date r) td)) 1)
        as [Hle|]; [|by apply elem_of_nil in Hr].
      assert (date r ∉ dates time_report_data) as Hnot.
      { intros Hin. rewrite exact_pass_eq, bool_decide_eq_true_2 in E by done.
        rewrite (records_for_tag_irrelevant _ _ _ _ _ E) in Hr.
        by apply elem_of_nil in Hr. }
      destruct (abs_days_between_le_1 _ _ Hle) as [-> | Hone]; [done|].
      rewrite Hone in Hr.
      apply elem_of_records_for in Hr as (c & a & Hc & Ha & Heq).
      assert (client r = c) as -> by (by rewrite Heq).
      assert (address r = a) as -> by (by rewrite Heq).
      split_and!; [done..|]. right. split_and!; [done|by exists td|].
      by rewrite Heq.
    + apply elem_of_records_for in Hr as (c & a & Hc & Ha & Heq).
      assert (client r = c) as -> by (by rewrite Heq).
      assert (address r = a) as -> by (by rewrite Heq).
      split_and!; [done..|]. left. split; [done|]. by rewrite Heq.
  - intros (Hrd & Hc & Ha & Hcase). exists (date r). split; [done|].
    assert (∀ tag, match_type r = tag →
              r ∈ records_for (date r) tag (clients time_report_data)
                    client_address_mapping) as Hrec.
    { intros tag Htag. apply elem_of_records_for.
      exists (client r), (address r). split_and!; [done..|].
      destruct r; simpl in *. by subst. }
    destruct (best_matches_for_cases (date r) time_report_data
                client_address_mapping) as [[E Hb] | (E & Hin & Hb)];
      rewrite Hb.
    + destruct Hcase as [[Hin Htag] | (Hnot & (td & Htd & Hone) & Htag)].
      * rewrite exact_pass_eq, bool_decide_eq_true_2 in E by done.
        specialize (Hrec _ Htag). rewrite E in Hrec.
        by apply elem_of_nil in Hrec.
      * rewrite tolerance_pass_eq. apply list_elem_of_bind. exists td.
        split; [|done]. unfold near_records; simpl. rewrite Hone. simpl.
        by apply Hrec.
    + destruct Hcase as [[_ Htag] | (Hnot & _)]; [by apply Hrec|done].
Qed.

Lemma length_bind_le {A B} (f : B → list A) (l : list B) (b : nat) :
  (∀ y, y ∈ l → (length (f y) ≤ b)%nat) →
  (length (l ≫= f) ≤ length l * b)%nat.
Proof.
  induction l as [|y l IH]; intros Hb; csimpl; [done|].
  rewrite length_app.
  assert (length (f y) ≤ b)%nat by (apply Hb; left).
  assert (length (l ≫= f) ≤ length l * b)%nat
    by (apply IH; intros z Hz; apply Hb; by right).
  lia.
Qed.

Lemma bind_filter_nil {A B} (P : B → Prop) `{∀ y, Decision (P y)}
    (f : B → list A) (l : list B) :
  (∀ y, y ∈ l → ¬ P y → f y = []) →
  l ≫= f = filter P l ≫= f.
Proof.
  induction l as [|y l IH]; intros Hnil; [done|].
  rewrite filter_cons. csimpl.
  rewrite IH by (intros z Hz; apply Hnil; by right).
  case_decide; [done|]. by rewrite (Hnil y) by (done || left).
Qed.

(** In a list of distinct dates at most two are one day away from a
    given date. *)
Lemma neighbours_le_2 rd (l : list datetime.date) :
  NoDup l →
  (length (filter (λ td, (Z.abs (datetime.days_between rd td) = 1)%Z) l)
   ≤ 2)%nat.
Proof.
  intros Hnd.
  set (near := filter (λ td, Z.abs (datetime.days_between rd td) = 1) l).
  assert (NoDup (datetime.toordinal <$> near)) as Hnd'.
  { apply NoDup_fmap_2_strong; [|by apply NoDup_filter].
    intros x y _ _. apply toordinal_inj. }
  assert (datetime.toordinal <$> near
          ⊆+ [datetime.toordinal rd - 1; datetime.toordinal rd + 1]) as Hsub.
  { apply NoDup_submseteq; [done|].
    intros o (td & -> & [Htd _]%list_elem_of_filter)%list_elem_of_fmap.
    unfold datetime.days_between in Htd.
    destruct (decide (datetime.toordinal td = datetime.toordinal rd - 1))
      as [->|]; [left|].
    replace (datetime.toordinal td) with (datetime.toordinal rd + 1) by lia.
    right; left. }
  apply submseteq_length in Hsub. by rewrite length_fmap in Hsub.
Qed.

(** X4: when the dates of the report are distinct, a receipt date gets
    at most twice as many records as there are clients with an address
    (once that many for an exact match, once for each of the two
    neighbouring days otherwise), so the output has at most
    2 * receipt dates * such clients records. *)
Theorem X4_output_size
    (receipt_dates : list datetime.date) (time_report_data : time_report)
    (client_address_mapping : gmap str str) :
  NoDup (dates time_report_data) →
  let known := filter (λ c, is_Some (client_address_mapping !! c))
                 (clients time_report_data) in
  (∀ rd, (length (best_matches_for rd time_report_data
                    client_address_mapping) ≤ 2 * length known)%nat)
  ∧ (length (match_dates_to_clients receipt_dates time_report_data
               client_address_mapping)
     ≤ length receipt_dates * (2 * length known))%nat.
Proof.
  intros Hnd known.
  assert (∀ rd, (length (best_matches_for rd time_report_data
                           client_address_mapping) ≤ 2 * length known)%nat)
    as Hone.
  { intros rd.
    destruct (best_matches_for_cases rd time_report_data
                client_address_mapping) as [[E ->] | (_ & _ & ->)].
    - rewrite tolerance_pass_eq.
      rewrite (bind_filter_nil
                 (λ td, Z.abs (datetime.days_between rd td) = 1)).
      + etrans; [apply (length_bind_le _ _ (length known))|].
        * intros td _. unfold near_records; simpl. case_match; simpl; [|lia].
          by rewrite length_records_for.
        * pose proof (neighbours_le_2 rd _ Hnd). nia.
      + intros td Htd Hne. unfold near_records; simpl.
        destruct (Z.leb_spec (Z.abs (datetime.days_between rd td)) 1)
          as [Hle|]; [|done].
        destruct (abs_days_between_le_1 _ _ Hle) as [-> | ?]; [|done].
        rewrite exact_pass_eq, bool_decide_eq_true_2 in E by done.
        by apply records_for_tag_irrelevant with (tag := tag_exact).
    - rewrite length_records_for. fold known. lia. }
  split; [exact Hone|].
  rewrite match_dates_to_clients_eq. apply length_bind_le.
  intros rd _. apply Hone.
Qed.

(** X4 on the report with the days before and after March 15. *)
Lemma X4_witness :
  NoDup (dates neighbours_report)
  ∧ (length (match_dates_to_clients [mar15] neighbours_report acme_addresses)
     ≤ 1 * (2 * 1))%nat.
Proof.
  assert (NoDup (dates neighbours_report)) as Hnd by by_decide.
  split; [exact Hnd|].
  exact (proj2 (X4_output_size [mar15] neighbours_report acme_addresses Hnd)).
Defined.

End matcher_more.

(** ** The figures shown with the matches *)
Section figures.

Lemma output_tag r rds data cam :
  r ∈ match_dates_to_clients rds data cam →
  match_type r = tag_exact ∨ match_type r = tag_within 1.
Proof.
  intros (rd & _ & Hr)%elem_of_match_dates_to_clients.
  destruct (best_matches_for_cases rd data cam) as [[E Hb] | (E & Hin & Hb)];
    rewrite Hb in Hr.
  - right. by destruct (tolerance_pass_tag _ _ _ _ E Hr).
  - left. by destruct (records_for_date _ _ _ _ _ Hr).
Qed.

Lemma length_filter_split {A} (P Q : A → Prop)
    `{∀ x, Decision (P x)} `{∀ x, Decision (Q x)} (l : list A) :
  (∀ x, x ∈ l → (P x ∧ ¬ Q x) ∨ (Q x ∧ ¬ P x)) →
  (length (filter P l) + length (filter Q l) = length l)%nat.
Proof.
  induction l as [|x l IH]; intros Hl; [done|].
  specialize (IH (λ y Hy, Hl y (list_elem_of_further _ _ _ Hy))).
  destruct (Hl x) as [[HP HQ] | [HQ HP]]; [left|..].
  - rewrite filter_cons_True, (filter_cons_False Q) by done. simpl. lia.
  - rewrite (filter_cons_False P), (filter_cons_True Q) by done. simpl. lia.
Qed.

Lemma length_bind_nonempty {A B} (f : B → list A) (l : list B) :
  (length (filter (λ y, f y ≠ []) l) ≤ length (l ≫= f))%nat.
Proof.
  induction l as [|y l IH]; csimpl; [done|].
  rewrite filter_cons, length_app. case_decide as Hne; simpl; [|lia].
  assert (length (f y) ≠ 0%nat)
    by (intros Hz; apply nil_length_inv in Hz; exact (Hne Hz)). lia.
Qed.

Lemma length_bind_at_most_one {A B} (f : B → list A) (l : list B) :
  (∀ y, y ∈ l → (length (f y) ≤ 1)%nat) →
  length (l ≫= f) = length (filter (λ y, f y ≠ []) l).
Proof.
  induction l as [|y l IH]; intros Hl; csimpl; [done|].
  rewrite filter_cons, length_app.
  rewrite IH by (intros z Hz; apply Hl; by right).
  assert (length (f y) ≤ 1)%nat as Hy by (apply Hl; left).
  case_decide as Hne.
  - assert (length (f y) ≠ 0%nat)
    by (intros Hz; apply nil_length_inv in Hz; exact (Hne Hz)).
    simpl. lia.
  - pose proof (f_equal length Hne) as E. simpl in E. lia.
Qed.

(** X5: on the output of the matcher the count of exact matches and the
    count of near matches add up to the number of records, each record
    carrying exactly one of the two kinds of tag.  The figure shown as
    unmatched, the number of receipt dates minus the number of records,
    is at most the number of receipt dates without record; it is that
    number when no receipt date has more than one record, and it is
    smaller (possibly negative) otherwise. *)
Theorem X5_figures
    (receipt_dates : list datetime.date) (time_report_data : time_report)
    (client_address_mapping : gmap str str) :
  let matches := match_dates_to_clients receipt_dates time_report_data
                   client_address_mapping in
  let best rd := best_matches_for rd time_report_data client_address_mapping in
  let without_record := length (filter (λ rd, best rd = []) receipt_dates) in
  (exact_matches matches + near_matches matches = length matches)%nat
  ∧ unmatched receipt_dates matches ≤ Z.of_nat without_record
  ∧ ((∀ rd, rd ∈ receipt_dates → (length (best rd) ≤ 1)%nat) →
     unmatched receipt_dates matches = Z.of_nat without_record)
  ∧ ((∃ rd, rd ∈ receipt_dates ∧ (2 ≤ length (best rd))%nat) →
     unmatched receipt_dates matches < Z.of_nat without_record).
Proof.
  intros matches best without_record.
  assert (length (filter (λ rd, best rd ≠ []) receipt_dates) + without_record
          = length receipt_dates)%nat as Hsplit.
  { apply length_filter_split. intros rd _.
    destruct (decide (best rd = [])); [right|left]; split; try done.
    by intros ?. }
  assert (matches = receipt_dates ≫= best) as Hm
    by apply match_dates_to_clients_eq.
  split_and!.
  - unfold exact_matches, near_matches. apply length_filter_split.
    intros r Hr. apply output_tag in Hr as [-> | ->]; [left|right];
      (split; [by vm_compute|by vm_compute]).
  - unfold unmatched. pose proof (length_bind_nonempty best receipt_dates).
    rewrite <- Hm in *. lia.
  - intros Hone. unfold unmatched.
    pose proof (length_bind_at_most_one best receipt_dates Hone).
    rewrite <- Hm in *. lia.
  - intros (rd & Hrd & Htwo). unfold unmatched.
    apply elem_of_Permutation in Hrd as [rest Hrest].
    assert (length matches = (length (best rd) + length (rest ≫= best))%nat)
      as Hlen.
    { rewrite Hm, Hrest. csimpl. by rewrite length_app. }
    assert (length (filter (λ rd, best rd ≠ []) receipt_dates)
            = S (length (filter (λ rd, best rd ≠ []) rest))) as Hne.
    { rewrite Hrest, filter_cons_True; [done|].
      intros E. rewrite E in Htwo. simpl in Htwo. lia. }
    pose proof (length_bind_nonempty best rest). lia.
Qed.

End figures.

(** ** What a match consumes *)
Section consumption.
Import Unicode Re.

(** A successful run of the matcher has consumed a prefix of the text
    and handed the rest to its continuation; the prefix holds a digit
    when the pattern needs one. *)
Lemma run_Some {A} ignorecase r cur caps (k : cursor → list str → option A) x :
  run ignorecase r cur caps k = Some x →
  ∃ w cur' caps',
    rest cur = w ++ rest cur'
    ∧ k cur' caps' = Some x
    ∧ (needs_digit r → Exists (λ c, is_decimal c = true) w).
Proof.
  revert cur caps k.
  induction r as [|a|p|r1 IH1 r2 IH2|r1 IH1 r2 IH2|p lo hi|r1 IH1| |];
    intros cur caps k; simpl.
  - intros Hk. exists [], cur, caps. by split_and!.
  - destruct (rest cur) as [|c s'] eqn:E; [done|].
    destruct (lit_matches ignorecase a c); [|done]. intros Hk.
    exists [c], (Cursor (Some c) (S (pos cur)) s'), caps. by split_and!.
  - destruct (rest cur) as [|c s'] eqn:E; [done|].
    destruct (p c) eqn:Hp; [|done]. intros Hk.
    exists [c], (Cursor (Some c) (S (pos cur)) s'), caps.
    split_and!; [done..|]. intros Hall. left. by apply Hall.
  - intros (w1 & cur1 & caps1 & E1 & Hk1 & Hd1)%IH1.
    apply IH2 in Hk1 as (w2 & cur2 & caps2 & E2 & Hk2 & Hd2).
    exists (w1 ++ w2), cur2, caps2. split_and!; [|done|].
    + by rewrite E1, E2, app_assoc.
    + intros [?|?]; apply Exists_app; [left|right]; auto.
  - destruct (run ignorecase r1 cur caps k) as [y|] eqn:E1.
    + intros [= ->]. apply IH1 in E1 as (w & cur' & caps' & E & Hk & Hd).
      exists w, cur', caps'. split_and!; [done..|]. intros [? _]. auto.
    + intros (w & cur' & caps' & E & Hk & Hd)%IH2.
      exists w, cur', caps'. split_and!; [done..|]. intros [_ ?]. auto.
  - intros (w & s' & E & Hw & Hlo & _ & Hk)%rep_Some.
    exists w, (Cursor (last_or (prev cur) w) (pos cur + length w) s'), caps.
    split_and!; [done..|]. intros [Hone Hall].
    destruct Hw as [|c w Hc Hw]; [simpl in Hlo; lia|]. left. by apply Hall.
  - intros (w & cur' & caps' & E & Hk & Hd)%IH1.
    exists w, cur', (caps' ++ [take (pos cur' - pos cur) (rest cur)]).
    by split_and!.
  - destruct (at_boundary (prev cur) (rest cur)); [|done]. intros Hk.
    exists [], cur, caps. by split_and!.
  - destruct (prev cur); [done|]. intros Hk.
    exists [], cur, caps. by split_and!.
Qed.

Lemma match_at_no_digit ignorecase r prev0 s :
  needs_digit r → no_digit s → match_at ignorecase r prev0 s = None.
Proof.
  intros Hr Hs. unfold match_at.
  destruct (run _ _ _ _ _) as [m|] eqn:E; [|done].
  apply run_Some in E as (w & cur' & caps' & Hrest & _ & Hd). simpl in Hrest.
  apply Hd, Exists_exists in Hr as (c & Hc & Hdec).
  unfold no_digit in Hs. rewrite Hrest, Forall_app, Forall_forall in Hs.
  destruct Hs as [Hs _]. specialize (Hs c Hc). congruence.
Qed.

Lemma finditer_from_no_digit ignorecase r skip prev0 s :
  needs_digit r → no_digit s → finditer_from ignorecase r skip prev0 s = [].
Proof.
  intros Hr Hs. revert skip prev0.
  induction Hs as [|c s Hc Hs IH]; intros skip prev0.
  - destruct skip; [|done]. rewrite finditer_from_0.
    by rewrite match_at_no_digit by (done || constructor).
  - destruct skip as [|skip]; [|apply IH].
    rewrite finditer_from_0, match_at_no_digit; [apply IH|done|].
    by constructor.
Qed.

Lemma date_patterns_need_digit pattern :
  pattern ∈ date_patterns → needs_digit pattern.
Proof.
  unfold date_patterns.
  intros Hp. repeat (apply elem_of_cons in Hp as [->|Hp]);
    [..|by apply elem_of_nil in Hp]; simpl.
  - right; left. split; [lia|done].
  - right; left. split; [lia|done].
  - right; left. split; [lia|done].
  - do 4 right. left. split; [lia|done].
Qed.

Lemma amount_pattern_needs_digit : needs_digit amount_pattern.
Proof. simpl. right; left. left. split; [lia|done]. Qed.

End consumption.

(** X6: a text without any decimal digit yields no date and no amount,
    whatever else it holds (names of months, separators, dollar
    signs). *)
Theorem X6_no_digit_no_date_no_amount (order : SetOrder) (text : str) :
  no_digit text →
  parse_dates_from_text text = []
  ∧ r_dates (parse_parking_receipts text) = []
  ∧ r_amounts (parse_parking_receipts text) = []
  ∧ dates (parse_time_report text) = [].
Proof.
  intros Hs.
  assert (parse_dates_from_text text = []) as Hdates.
  { unfold parse_dates_from_text.
    assert (mined_dates text = []) as ->.
    { destruct (mined_dates text) as [|d l] eqn:E; [done|].
      assert (d ∈ mined_dates text) as Hd by (rewrite E; left).
      apply elem_of_mined_dates in Hd as (pattern & m & Hp & Hm & _).
      unfold Re.finditer in Hm.
      rewrite finditer_from_no_digit in Hm
        by (done || by apply date_patterns_need_digit).
      by apply elem_of_nil in Hm. }
    apply Permutation_nil_r. by rewrite list_of_set_perm. }
  split_and!; [done..| |done].
  simpl. unfold found_amounts, Re.findall, Re.finditer.
  by rewrite finditer_from_no_digit
    by (done || apply amount_pattern_needs_digit).
Qed.

(** X6 on a line with a month and a dollar sign but no digit. *)
Lemma X6_witness :
  no_digit "Paid in March, $ due"
  ∧ @parse_dates_from_text last_occurrence_order "Paid in March, $ due" = [].
Proof.
  assert (no_digit "Paid in March, $ due") as Hs by by_decide.
  split; [exact Hs|].
  exact (proj1 (X6_no_digit_no_date_no_amount last_occurrence_order _ Hs)).
Defined.

(** ** Lines that are skipped when client names are looked for *)
Section skipped_lines.
Import Unicode Re.

(** A repetition succeeds when its continuation succeeds after some run
    of characters it may take (it may then succeed with a longer run). *)
Lemma rep_is_Some {A} p lo hi prev0 pos0 w s' (k : cursor → option A) :
  Forall (λ c, p c = true) w →
  (lo ≤ length w)%nat →
  (∀ h, hi = Some h → (length w ≤ h)%nat) →
  is_Some (k (Cursor (last_or prev0 w) (pos0 + length w) s')) →
  is_Some (rep p lo hi prev0 pos0 (w ++ s') k).
Proof.
  intros Hw. revert lo hi prev0 pos0.
  induction Hw as [|c w Hc Hw IH]; intros lo hi prev0 pos0 Hlo Hhi Hk.
  - simpl in *. assert (lo = 0%nat) as -> by lia.
    rewrite Nat.add_0_r in Hk. change (last_or prev0 []) with prev0 in Hk.
    destruct s' as [|c s']; simpl; [done|].
    destruct (p c && may_take hi); [|done].
    by destruct (rep p 0 (pred <$> hi) (Some c) (S pos0) s' k).
  - simpl. rewrite Hc.
    assert (may_take hi = true) as ->.
    { destruct hi as [[|h]|]; try done. specialize (Hhi 0%nat eq_refl).
      simpl in Hhi. lia. }
    simpl.
    destruct (IH (pred lo) (pred <$> hi) (Some c) (S pos0)) as [y ->];
      [simpl in Hlo; lia| | |done].
    + intros h Hh. destruct hi as [[|h']|]; simplify_eq/=;
        specialize (Hhi _ eq_refl); simpl in Hhi; lia.
    + rewrite last_or_cons in Hk. simpl length in Hk.
      by replace (S pos0 + length w)%nat with (pos0 + S (length w))%nat
        by lia.
Qed.

(** The scan finds a match when the pattern matches at some position,
    whatever character stands before it. *)
Lemma search_is_Some ignorecase r pre s :
  (∀ prev0, is_Some (match_at ignorecase r prev0 s)) →
  is_Some (search ignorecase r (pre ++ s)).
Proof.
  intros Hs. unfold search, finditer. generalize (@None ascii) as prev0.
  induction pre as [|c pre IH]; intros prev0; rewrite finditer_from_0.
  - simpl. by destruct (Hs prev0) as [m ->].
  - destruct (match_at ignorecase r prev0 _); [done|]. apply IH.
Qed.

Lemma dollar_pattern_here prev0 d post :
  is_decimal d = true →
  is_Some (match_at false dollar_pattern prev0 ("$"%char :: d :: post)).
Proof.
  intros Hd. unfold match_at, dollar_pattern, cat, plus.
  cbn [run foldr prev pos rest]. simpl lit_matches. cbn match.
  apply (rep_is_Some is_decimal 1 None _ _ [d] post);
    [by constructor|simpl; lia|done|done].
Qed.

Lemma leading_date_pattern_here w1 c1 w2 c2 d post :
  Forall (λ c, is_decimal c = true) w1 → w1 ≠ [] →
  date_sep c1 = true →
  Forall (λ c, is_decimal c = true) w2 → w2 ≠ [] →
  date_sep c2 = true →
  is_decimal d = true →
  is_Some (match_ false leading_date_pattern
             (w1 ++ c1 :: w2 ++ c2 :: d :: post)).
Proof.
  intros Hw1 Hn1 Hc1 Hw2 Hn2 Hc2 Hd.
  assert (∀ w : str, w ≠ [] → (1 ≤ length w)%nat) as Hlen
    by (intros [|? ?]; simpl; [done|lia]).
  unfold match_, match_at, leading_date_pattern, cat, plus.
  cbn [run foldr prev pos rest].
  apply rep_is_Some; [done|by apply Hlen|done|].
  cbn [run foldr prev pos rest]. rewrite Hc1.
  apply rep_is_Some; [done|by apply Hlen|done|].
  cbn [run foldr prev pos rest]. rewrite Hc2.
  apply (rep_is_Some is_decimal 1 None _ _ [d] post);
    [by constructor|simpl; lia|done|done].
Qed.

(** X7: a line yields no client name, and leaves the names found so far
    as they are, when (trimmed) it has fewer than 3 characters, or is
    made of digits only, or holds a dollar sign followed by a digit
    anywhere, or starts with digits, a separator, digits, a separator
    and a digit, as a line that starts with a date does. *)
Theorem X7_skipped_lines (line : str) :
  (length (Str.strip line) < 3)%nat
  ∨ Str.isdigit (Str.strip line) = true
  ∨ (∃ pre d post,
       Str.strip line = pre ++ "$"%char :: d :: post
       ∧ is_decimal d = true)
  ∨ (∃ w1 c1 w2 c2 d post,
       Str.strip line = w1 ++ c1 :: w2 ++ c2 :: d :: post
       ∧ Forall (λ c, is_decimal c = true) w1 ∧ w1 ≠ []
       ∧ date_sep c1 = true
       ∧ Forall (λ c, is_decimal c = true) w2 ∧ w2 ≠ []
       ∧ date_sep c2 = true
       ∧ is_decimal d = true) →
  skip_line (Str.strip line) = true
  ∧ line_candidate line = None
  ∧ ∀ clients, client_step clients line = clients.
Proof.
  intros Hcase.
  assert (skip_line (Str.strip line) = true) as Hskip.
  { unfold skip_line. rewrite !orb_true_iff.
    destruct Hcase as [Hlen | [Hdigit | [Hdollar | Hdate]]].
    - do 3 left. by apply Nat.ltb_lt.
    - left; left; by right.
    - right. apply bool_decide_eq_true.
      destruct Hdollar as (pre & d & post & -> & Hd).
      apply search_is_Some. intros prev0. by apply dollar_pattern_here.
    - left; right. apply bool_decide_eq_true.
      destruct Hdate
        as (w1 & c1 & w2 & c2 & d & post & -> & ? & ? & ? & ? & ? & ? & ?).
      by apply leading_date_pattern_here. }
  split; [done|].
  assert (line_candidate line = None) as Hnone.
  { unfold line_candidate. by rewrite Hskip. }
  split; [done|]. intros clients. unfold client_step. by rewrite Hskip.
Qed.

(** X7 on a line that names a client and a fee. *)
Lemma X7_witness :
  (∃ pre d post,
     Str.strip "ABC Corporation fee $40" = pre ++ "$"%char :: d :: post
     ∧ is_decimal d = true)
  ∧ line_candidate "ABC Corporation fee $40" = None.
Proof.
  assert (∃ pre d post,
            Str.strip "ABC Corporation fee $40" = pre ++ "$"%char :: d :: post
            ∧ is_decimal d = true) as Hdollar.
  { exists ("ABC Corporation fee " : str), "4"%char, ("0" : str).
    split; by vm_compute. }
  split; [exact Hdollar|].
  exact (proj1 (proj2 (X7_skipped_lines "ABC Corporation fee $40"
                         (or_intror (or_intror (or_introl Hdollar)))))).
Defined.

End skipped_lines.

(** ** [strip] *)
Section strip.
Import Unicode.

Lemma rev_is_reverse {A} (l : list A) : rev l = reverse l.
Proof. unfold reverse. apply rev_alt. Qed.

Lemma lstrip_split s :
  ∃ pre, s = pre ++ Str.lstrip s ∧ Forall (λ c, is_space c = true) pre.
Proof.
  induction s as [|c s (pre & Hs & Hpre)]; simpl; [by exists []|].
  destruct (is_space c) eqn:Hc.
  - exists (c :: pre). split; [by rewrite Hs at 1|by constructor].
  - by exists [].
Qed.

Lemma lstrip_head s : from_option is_space false (head (Str.lstrip s)) = false.
Proof.
  induction s as [|c s IH]; simpl; [done|].
  by destruct (is_space c) eqn:Hc; simpl.
Qed.

Lemma lstrip_id s :
  from_option is_space false (head s) = false → Str.lstrip s = s.
Proof. destruct s as [|c s]; simpl; [done|]. by intros ->. Qed.

Lemma rstrip_split s :
  ∃ suf, s = Str.rstrip s ++ suf ∧ Forall (λ c, is_space c = true) suf.
Proof.
  unfold Str.rstrip. destruct (lstrip_split (rev s)) as (pre & Hs & Hpre).
  exists (rev pre). split; [|by apply Forall_rev].
  rewrite <- rev_app_distr, <- Hs. by rewrite rev_involutive.
Qed.

Lemma rstrip_last s : from_option is_space false (last (Str.rstrip s)) = false.
Proof.
  unfold Str.rstrip. rewrite rev_is_reverse, last_reverse. apply lstrip_head.
Qed.

Lemma rstrip_head s :
  from_option is_space false (head s) = false →
  from_option is_space false (head (Str.rstrip s)) = false.
Proof.
  intros Hs. destruct (rstrip_split s) as (suf & Heq & _).
  destruct (Str.rstrip s) as [|c t]; [done|]. rewrite Heq in Hs. done.
Qed.

Lemma rstrip_id s :
  from_option is_space false (last s) = false → Str.rstrip s = s.
Proof.
  intros Hs. unfold Str.rstrip. rewrite lstrip_id; [apply rev_involutive|].
  by rewrite rev_is_reverse, head_reverse.
Qed.

(** What [strip] returns is trimmed, and a trimmed text is returned as
    it is. *)
Lemma strip_trimmed s : trimmed (Str.strip s).
Proof.
  unfold Str.strip. split; [apply rstrip_head, lstrip_head|apply rstrip_last].
Qed.

Lemma strip_id s : trimmed s → Str.strip s = s.
Proof.
  intros [Hh Hl]. unfold Str.strip. by rewrite lstrip_id, rstrip_id.
Qed.

(** [strip] removes characters at the two ends only. *)
Lemma strip_split s :
  ∃ pre suf,
    s = pre ++ Str.strip s ++ suf
    ∧ Forall (λ c, is_space c = true) pre
    ∧ Forall (λ c, is_space c = true) suf.
Proof.
  unfold Str.strip. destruct (lstrip_split s) as (pre & Hs & Hpre).
  destruct (rstrip_split (Str.lstrip s)) as (suf & Ht & Hsuf).
  exists pre, suf. split; [|done]. by rewrite <- Ht.
Qed.

End strip.

(** ** The locations returned *)
Section locations_more.
Context `{SetOrder}.

(** X8: every location returned comes from a line of the text that
    holds a keyword, is that line with the excluded characters blanked
    out and the white space at its two ends removed, has at least 4
    characters, starts and ends with a character that is no white space,
    and holds no character other than word characters, white space,
    hyphens and periods; at most ten locations are returned, the first
    ones found, in the order of the lines. *)
Theorem X8_locations_returned (text : str) :
  let locations := r_locations (parse_parking_receipts text) in
  (length locations ≤ 10)%nat
  ∧ locations `prefix_of` found_locations text
  ∧ found_locations text
    `sublist_of` ((λ line, Str.strip (blank_out line)) <$> lines_of text)
  ∧ ∀ location, location ∈ locations →
      (∃ line, line ∈ lines_of text
               ∧ is_location_candidate line = true
               ∧ location = Str.strip (blank_out line))
      ∧ (4 ≤ length location)%nat
      ∧ trimmed location
      ∧ Str.strip location = location
      ∧ Forall (λ c, location_char c = true) location.
Proof.
  simpl. split_and!.
  - rewrite length_take. lia.
  - exists (drop 10 (found_locations text)). by rewrite take_drop.
  - rewrite found_locations_eq.
    induction (lines_of text) as [|line lines IH]; csimpl; [done|].
    destruct (location_of_line blank_out line) as [location|] eqn:E.
    + apply location_of_line_Some in E as (_ & -> & _).
      rewrite clean_location_eq. by constructor.
    + by constructor.
  - intros location Hin%(subseteq_take 10).
    rewrite found_locations_eq in Hin.
    apply list_elem_of_omap in Hin as (line & Hline & Hloc).
    apply location_of_line_Some in Hloc as (Hcand & -> & Hlen).
    rewrite clean_location_eq in *. split_and!.
    + by exists line.
    + done.
    + apply strip_trimmed.
    + apply strip_id, strip_trimmed.
    + apply strip_Forall, blank_out_chars.
Qed.

End locations_more.

(** ** The amounts returned *)
Section amounts.
Import Unicode Re.

Lemma is_decimal_cases c :
  is_decimal c = true → c ∈ ("0123456789" : str).
Proof.
  destruct c as [[] [] [] [] [] [] [] []]; intros Hc;
    try discriminate Hc; by_decide.
Qed.

Lemma is_decimal_props c :
  is_decimal c = true →
  is_space c = false ∧ c ≠ "."%char ∧ 0 ≤ Str.digit_value c ≤ 9.
Proof.
  intros Hc%is_decimal_cases.
  repeat (apply elem_of_cons in Hc as [->|Hc]; [by vm_compute|]).
  by apply elem_of_nil in Hc.
Qed.




Lemma forallb_Forall (p : ascii → bool) w :
  Forall (λ c, p c = true) w → forallb p w = true.
Proof. induction 1 as [|c w Hc Hw IH]; simpl; [done|]. by rewrite Hc. Qed.






End amounts.

(** ** [split] and [join] *)
Section split_join.
Import Unicode.

Lemma split_runs_words s :
  Forall (λ c, is_space c = false) (Str.split_runs s).1
  ∧ Forall is_word_of_split (Str.split_runs s).2.
Proof.
  induction s as [|c s [IHh IHt]]; simpl; [by split|].
  destruct (Str.split_runs s) as [h t]. simpl in *.
  destruct (is_space c) eqn:Hc; simpl.
  - split; [done|]. destruct h as [|c' h]; [done|].
    constructor; [|done]. by split.
  - split; [by constructor|done].
Qed.

(** The words [split] returns are not empty and hold no white space. *)
Lemma split_words s : Forall is_word_of_split (Str.split s).
Proof.
  unfold Str.split. pose proof (split_runs_words s) as [Hh Ht].
  destruct (Str.split_runs s) as [h t]. simpl in *.
  destruct h as [|c h]; [done|]. constructor; [|done]. by split.
Qed.

Lemma split_runs_app w s :
  Forall (λ c, is_space c = false) w →
  Str.split_runs (w ++ s)
  = (w ++ (Str.split_runs s).1, (Str.split_runs s).2).
Proof.
  induction 1 as [|c w Hc Hw IH]; simpl.
  - by destruct (Str.split_runs s).
  - rewrite IH, Hc. done.
Qed.

Lemma split_runs_space s :
  Str.split_runs (" "%char :: s) = ([], Str.split s).
Proof.
  simpl. unfold Str.split. destruct (Str.split_runs s) as [h t].
  by replace (is_space " ") with true by (by vm_compute).
Qed.

(** Joining words with single spaces and splitting again gives the words
    back. *)
Lemma split_join ws :
  Forall is_word_of_split ws → Str.split (Str.join " " ws) = ws.
Proof.
  induction 1 as [|w ws [Hne Hw] Hws IH]; [done|].
  destruct ws as [|w' ws].
  - simpl. unfold Str.split.
    rewrite <- (app_nil_r w), split_runs_app by done. simpl.
    rewrite app_nil_r. by destruct w.
  - change (Str.join " " (w :: w' :: ws))
      with (w ++ " "%char :: Str.join " " (w' :: ws)).
    unfold Str.split at 1.
    rewrite split_runs_app, split_runs_space by done. cbn [fst snd].
    rewrite app_nil_r, IH. by destruct w.
Qed.

End split_join.

(** ** The client names found *)
Section clients_more.
Context `{SetOrder}.

Lemma line_candidate_Some line client_name :
  line_candidate line = Some client_name →
  client_name = Str.join " " (kept_words line) ∧ kept_words line ≠ [].
Proof.
  unfold line_candidate, kept_words.
  destruct (skip_line (Str.strip line)); [done|].
  set (potential_client := filter _ _).
  destruct (Nat.leb_spec 1 (length potential_client)); cbn [andb]; [|done].
  destruct (Nat.leb 3 (length (Str.join " " potential_client)));
    cbn [andb]; [|done].
  destruct (Nat.leb (length (Str.join " " potential_client)) 50);
    cbn [andb]; [|done].
  intros [= <-]. split; [done|]. intros E. rewrite E in *. simpl in *. lia.
Qed.

Lemma kept_words_spec line :
  Forall is_word_of_split (kept_words line)
  ∧ Forall (λ word, keep_word word = true) (kept_words line).
Proof.
  unfold kept_words. split.
  - apply Forall_forall. intros w [_ Hw]%list_elem_of_filter.
    pose proof (split_words (Str.strip line)) as Hall.
    rewrite Forall_forall in Hall. by apply Hall.
  - apply Forall_forall. intros w [Hk _]%list_elem_of_filter.
    by apply Is_true_true.
Qed.

Lemma NoDup_foldl_client_step lines clients :
  NoDup clients → NoDup (foldl client_step clients lines).
Proof.
  revert clients. induction lines as [|line lines IH]; intros clients Hnd;
    simpl; [done|].
  apply IH. rewrite client_step_eq.
  destruct (line_candidate line) as [name|]; [|done].
  case_bool_decide; [done|].
  apply NoDup_app. split_and!; [done| |apply NoDup_singleton].
  intros x Hx ->%list_elem_of_singleton. done.
Qed.

(** X10: the names found in a time report are distinct already before
    they are put in a set.  Every client returned is made of the kept
    words of one line, joined by single spaces: splitting the name gives
    these words back, so every word of a returned name passed the test
    of [keep_word] (more than one character, capitalised or in capitals,
    not a word of the list of excluded words, not a number), and the
    name has no white space at its ends and no two words separated by
    more than one space. *)
Theorem X10_client_names (text : str) :
  NoDup (found_clients text)
  ∧ length (clients (parse_time_report text))
    = min 10 (length (found_clients text))
  ∧ ∀ name, name ∈ clients (parse_time_report text) →
      (∃ line, line ∈ lines_of text ∧ name = Str.join " " (kept_words line))
      ∧ Str.split name ≠ []
      ∧ Forall (λ word, keep_word word = true) (Str.split name)
      ∧ Str.join " " (Str.split name) = name.
Proof.
  assert (NoDup (found_clients text)) as Hnd.
  { unfold found_clients. apply NoDup_foldl_client_step. constructor. }
  split_and!.
  - exact Hnd.
  - cbn [clients parse_time_report]. rewrite length_take. unfold sorted.
    rewrite merge_sort_Permutation, list_of_set_perm.
    assert (remove_dups (found_clients text) ≡ₚ found_clients text) as ->;
      [|done].
    apply NoDup_Permutation;
      [apply NoDup_remove_dups|done|apply elem_of_remove_dups].
  - intros name Hin. simpl in Hin. apply (subseteq_take 10) in Hin.
    rewrite elem_of_sorted, elem_of_list_of_set, elem_of_found_clients in Hin.
    destruct Hin as (line & Hline & Hc).
    apply line_candidate_Some in Hc as [-> Hne].
    destruct (kept_words_spec line) as [Hwords Hkept].
    rewrite (split_join _ Hwords). split_and!; [by exists line|done..].
Qed.

End clients_more.

(** ** [strptime] on numeric dates *)
Section strptime.
Import Unicode Re datetime.

Lemma sub_1 n : (S n - n)%nat = 1%nat.
Proof. lia. Qed.

Lemma sub_2 n : (S (S n) - n)%nat = 2%nat.
Proof. lia. Qed.

Lemma sub_4 n : (S (S (S (S n))) - n)%nat = 4%nat.
Proof. lia. Qed.

Ltac split_digits :=
  repeat match goal with
    | H : Forall _ (_ :: _) |- _ => apply Forall_cons in H as [? H]
    | H : Forall _ [] |- _ => clear H
    end.

Ltac digit_cases H :=
  apply is_decimal_cases in H;
  repeat (apply elem_of_cons in H as [->|H]);
  [..|by apply elem_of_nil in H].

Lemma decimal_digits_1_2 w :
  decimal_digits 1 2 w →
  (∃ a, w = [a] ∧ is_decimal a = true)
  ∨ (∃ a b, w = [a; b] ∧ is_decimal a = true ∧ is_decimal b = true).
Proof.
  intros [Hw Hl]. destruct w as [|a [|b [|c w]]]; simpl in Hl; try lia;
    split_digits; eauto 6.
Qed.

Lemma decimal_digits_4 w :
  decimal_digits 4 4 w →
  ∃ e f g h, w = [e; f; g; h]
             ∧ Forall (λ c, is_decimal c = true) [e; f; g; h].
Proof.
  intros [Hw Hl]. destruct w as [|e [|f [|g [|h [|c w]]]]]; simpl in Hl;
    try lia. by exists e, f, g, h.
Qed.

(** The group of the month, followed by a slash or a hyphen: one or two
    digits are taken together or not at all, and they are taken exactly
    when they write a number from 1 to 12. *)
Lemma month_group {A} w sep p n s caps R (k : cursor → list str → option A) :
  decimal_digits 1 2 w → sep = "/"%char ∨ sep = "-"%char →
  run true (Cat (directive_regex dir_m) (Cat (Lit sep) R))
    (Cursor p n (w ++ sep :: s)) caps k
  = if (1 <=? Str.digits_value w) && (Str.digits_value w <=? 12)
    then run true R (Cursor (Some sep) (S (length w + n)) s) (caps ++ [w]) k
    else None.
Proof.
  intros [(a & -> & Ha) | (a & b & -> & Ha & Hb)]%decimal_digits_1_2 Hsep.
  - digit_cases Ha; destruct Hsep as [-> | ->];
      cbn; rewrite ?sub_1; try reflexivity;
      by destruct (run true R _ _ k).
  - digit_cases Ha; digit_cases Hb; destruct Hsep as [-> | ->];
      cbn; rewrite ?sub_2; try reflexivity;
      by destruct (run true R _ _ k).
Qed.

(** The group of the day, followed by a slash: one or two digits are
    taken exactly when they write a number from 1 to 31. *)
Lemma day_group {A} w p n s caps R (k : cursor → list str → option A) :
  decimal_digits 1 2 w →
  run true (Cat (directive_regex dir_d) (Cat (Lit "/") R))
    (Cursor p n (w ++ "/"%char :: s)) caps k
  = if (1 <=? Str.digits_value w) && (Str.digits_value w <=? 31)
    then run true R (Cursor (Some "/"%char) (S (length w + n)) s)
           (caps ++ [w]) k
    else None.
Proof.
  intros [(a & -> & Ha) | (a & b & -> & Ha & Hb)]%decimal_digits_1_2.
  - digit_cases Ha; cbn; rewrite ?sub_1; try reflexivity;
      by destruct (run true R _ _ k).
  - digit_cases Ha; digit_cases Hb;
      cbn; rewrite ?sub_2; try reflexivity;
      by destruct (run true R _ _ k).
Qed.

(** The group of the day at the end of the format: one or two digits
    that write a number from 1 to 31 are taken; of other digits, one at
    most is taken. *)
Lemma day_group_end w p n caps :
  decimal_digits 1 2 w →
  match run true (Cat (directive_regex dir_d) Eps) (Cursor p n w) caps
          (λ cur caps', Some (Match caps' (pos cur))) with
  | Some m =>
      if (1 <=? Str.digits_value w) && (Str.digits_value w <=? 31)
      then m = Match (caps ++ [w]) (length w + n)
      else span m ≠ (length w + n)%nat
  | None => (1 <=? Str.digits_value w) && (Str.digits_value w <=? 31) = false
  end.
Proof.
  intros [(a & -> & Ha) | (a & b & -> & Ha & Hb)]%decimal_digits_1_2.
  - digit_cases Ha; cbn; rewrite ?sub_1; reflexivity.
  - digit_cases Ha; digit_cases Hb;
      cbn; rewrite ?sub_1, ?sub_2; lazy; first [reflexivity | lia].
Qed.

(** The group of the year takes four digits. *)
Lemma year_group {A} e f g h p n s caps (k : cursor → list str → option A) :
  Forall (λ c, is_decimal c = true) [e; f; g; h] →
  run true (directive_regex dir_Y) (Cursor p n (e :: f :: g :: h :: s)) caps k
  = k (Cursor (Some h) (S (S (S (S n)))) s) (caps ++ [[e; f; g; h]]).
Proof.
  intros Hd. split_digits.
  cbn [directive_regex run cat foldr prev pos rest].
  repeat match goal with H : is_decimal _ = true |- _ => rewrite H; clear H end.
  by rewrite sub_4.
Qed.

Lemma int_digits w :
  Forall (λ c, is_decimal c = true) w → w ≠ [] →
  Str.int w = Ok (Str.digits_value w).
Proof.
  intros Hw Hne. unfold Str.int.
  assert (trimmed w) as Htrim.
  { rewrite Forall_forall in Hw. split.
    - destruct w as [|c w]; [done|]. simpl.
      by destruct (is_decimal_props c (Hw c ltac:(left))).
    - destruct (last w) as [c|] eqn:E; [|done].
      apply last_Some_elem_of in E. simpl.
      by destruct (is_decimal_props c (Hw c E)). }
  rewrite (strip_id _ Htrim), (forallb_Forall _ _ Hw). by destruct w.
Qed.

Lemma int_decimal_digits lo hi w :
  decimal_digits (S lo) hi w → Str.int w = Ok (Str.digits_value w).
Proof.
  intros [Hw Hl]. apply int_digits; [done|]. intros ->. simpl in Hl. lia.
Qed.

Lemma isdigit_decimal_digits lo hi w :
  decimal_digits (S lo) hi w → Str.isdigit w = true.
Proof.
  intros [Hw Hl]. unfold Str.isdigit.
  destruct w as [|c w]; [simpl in Hl; lia|].
  apply Is_true_true, forallb_True. eapply Forall_impl; [exact Hw|].
  intros x Hx%is_decimal_cases. apply Is_true_true.
  repeat (apply elem_of_cons in Hx as [->|Hx]; [by vm_compute|]).
  by apply elem_of_nil in Hx.
Qed.

Lemma days_in_month_le_31 y m : 1 ≤ m ≤ 12 → days_in_month y m ≤ 31.
Proof.
  intros Hm. unfold days_in_month. destruct (_ && _); [lia|].
  apply month_cases in Hm. destruct_or!; subst m;
    repeat match goal with
      | |- context [Z.to_nat ?k] =>
          let n := eval vm_compute in (Z.to_nat k) in
          change (Z.to_nat k) with n
      end; cbn; lia.
Qed.

Lemma new_ValueError y m d :
  check_date_fields y m d = false → new y m d = ValueError.
Proof.
  intros E. unfold new. generalize (Date y m d). by rewrite E.
Qed.

Lemma new_Ok y m d dt :
  new y m d = Ok dt → year dt = y ∧ month dt = m ∧ day dt = d.
Proof.
  assert (∀ b (mk : Is_true b → date),
            (∀ Hb, fields (mk Hb) = (y, m, d)) →
            (if b as b return (Is_true b → date) → result date
             then λ mk, Ok (mk I) else λ _, ValueError) mk = Ok dt →
            fields dt = (y, m, d)) as Hgen.
  { intros [] mk Hmk; simpl; [|done]. intros [= <-]. apply Hmk. }
  intros Hnew. apply Hgen in Hnew; [|done].
  unfold fields in Hnew. by simplify_eq.
Qed.

Lemma new_is_Ok y m d :
  check_date_fields y m d = true →
  ∃ dt, new y m d = Ok dt ∧ fields dt = (y, m, d).
Proof.
  intros E. unfold new.
  assert (∀ b (mk : Is_true b → date),
            b = true → (∀ Hb, fields (mk Hb) = (y, m, d)) →
            ∃ dt,
              (if b as b return (Is_true b → date) → result date
               then λ mk, Ok (mk I) else λ _, ValueError) mk = Ok dt
              ∧ fields dt = (y, m, d)) as Hgen.
  { intros [] mk Hb Hmk; [|done]. by exists (mk I). }
  by apply Hgen.
Qed.

(** The constructor of dates raises for a number that is no month and
    for a number that is no day of any month. *)
Lemma new_no_month y m d :
  (1 <=? m) && (m <=? 12) = false → new y m d = ValueError.
Proof.
  intros Hm. apply new_ValueError. unfold check_date_fields.
  apply andb_false_iff in Hm as [Hm|Hm]; rewrite Hm;
    by rewrite ?andb_false_r.
Qed.

Lemma new_no_day y m d :
  (1 <=? d) && (d <=? 31) = false → new y m d = ValueError.
Proof.
  intros Hd.
  destruct ((1 <=? m) && (m <=? 12)) eqn:Hm; [|by apply new_no_month].
  apply new_ValueError. unfold check_date_fields.
  apply andb_false_iff in Hd as [Hd|Hd].
  - rewrite Hd. by rewrite !andb_false_r.
  - assert ((d <=? days_in_month y m) = false) as ->;
      [|by rewrite !andb_false_r].
    apply Z.leb_gt. apply Z.leb_gt in Hd.
    apply andb_true_iff in Hm as [Hm1 Hm2]. apply Z.leb_le in Hm1, Hm2.
    pose proof (days_in_month_le_31 y _ (conj Hm1 Hm2)). lia.
Qed.

Lemma run_Cat {A} ignorecase r1 r2 cur caps
    (k : cursor → list str → option A) :
  run ignorecase (Cat r1 r2) cur caps k
  = run ignorecase r1 cur caps (λ cur' caps', run ignorecase r2 cur' caps' k).
Proof. done. Qed.

(** On one or two digits, a slash, one or two digits, a slash and four
    digits, [strptime] with the format of month, day and year returns
    what the constructor of dates returns for the year, the month and
    the day written, and raises when the constructor does. *)
Lemma strptime_mdY w1 w2 w3 :
  decimal_digits 1 2 w1 → decimal_digits 1 2 w2 → decimal_digits 4 4 w3 →
  strptime (w1 ++ "/" ++ w2 ++ "/" ++ w3) fmt_mdY
  = new (Str.digits_value w3) (Str.digits_value w1) (Str.digits_value w2).
Proof.
  intros H1 H2 H3.
  pose proof (int_decimal_digits _ _ _ H1) as Hi1.
  pose proof (int_decimal_digits _ _ _ H2) as Hi2.
  pose proof (int_decimal_digits _ _ _ H3) as Hi3.
  destruct (decimal_digits_4 _ H3) as (e & f & g & h & -> & Hy).
  unfold strptime, match_, match_at.
  change (format_regex fmt_mdY)
    with (Cat (directive_regex dir_m) (Cat (Lit "/")
           (Cat (directive_regex dir_d) (Cat (Lit "/")
              (Cat (directive_regex dir_Y) Eps))))).
  cbn [app list_ascii_of_string].
  rewrite month_group by (done || by left).
  destruct ((1 <=? Str.digits_value w1) && (Str.digits_value w1 <=? 12))
    eqn:Hm; [|symmetry; by apply new_no_month].
  rewrite day_group by done.
  destruct ((1 <=? Str.digits_value w2) && (Str.digits_value w2 <=? 31))
    eqn:Hday; [|symmetry; by apply new_no_day].
  rewrite run_Cat, year_group by done. cbn [run pos span groups].
  rewrite bool_decide_eq_true_2
    by (rewrite !length_app; cbn [length]; rewrite !length_app;
        cbn [length]; lia).
  change (zip _ _) with [(dir_m, w1); (dir_d, w2); (dir_Y, [e; f; g; h])].
  cbn [found_field].
  repeat first [rewrite decide_True by done | rewrite decide_False by done].
  by rewrite Hi1, Hi2, Hi3.
Qed.

Lemma run_Lit_here {A} c R p n s caps (k : cursor → list str → option A) :
  run true (Cat (Lit c) R) (Cursor p n (c :: s)) caps k
  = run true R (Cursor (Some c) (S n) s) caps k.
Proof. cbn [run rest pos]. unfold lit_matches. by rewrite bool_decide_eq_true_2. Qed.

(** On four digits, a hyphen, one or two digits, a hyphen and one or
    two digits, [strptime] with the format of year, month and day
    returns what the constructor of dates returns, and raises when the
    constructor does. *)
Lemma strptime_Ymd w1 w2 w3 :
  decimal_digits 4 4 w1 → decimal_digits 1 2 w2 → decimal_digits 1 2 w3 →
  strptime (w1 ++ "-" ++ w2 ++ "-" ++ w3) fmt_Ymd
  = new (Str.digits_value w1) (Str.digits_value w2) (Str.digits_value w3).
Proof.
  intros H1 H2 H3.
  pose proof (int_decimal_digits _ _ _ H1) as Hi1.
  pose proof (int_decimal_digits _ _ _ H2) as Hi2.
  pose proof (int_decimal_digits _ _ _ H3) as Hi3.
  destruct (decimal_digits_4 _ H1) as (e & f & g & h & -> & Hy).
  unfold strptime, match_, match_at.
  change (format_regex fmt_Ymd)
    with (Cat (directive_regex dir_Y) (Cat (Lit "-")
           (Cat (directive_regex dir_m) (Cat (Lit "-")
              (Cat (directive_regex dir_d) Eps))))).
  cbn [app list_ascii_of_string].
  rewrite run_Cat, year_group by done.
  rewrite run_Lit_here.
  assert (w2 ++ "-"%char :: w3 = w2 ++ "-"%char :: w3) as _ by done.
  rewrite month_group by (done || by right).
  destruct ((1 <=? Str.digits_value w2) && (Str.digits_value w2 <=? 12))
    eqn:Hm; [|symmetry; by apply new_no_month].
  pose proof (day_group_end w3 (Some "-"%char) (S (length w2 + 5))
                ([] ++ [[e; f; g; h]] ++ [w2]) H3) as Hend.
  rewrite <- app_assoc in Hend.
  destruct (run true (Cat (directive_regex dir_d) Eps) _ _ _) as [m|];
    [|symmetry; by apply new_no_day].
  destruct ((1 <=? Str.digits_value w3) && (Str.digits_value w3 <=? 31))
    eqn:Hday.
  - subst m. cbn [span groups].
    rewrite bool_decide_eq_true_2
      by (cbn [length]; rewrite !length_app; cbn [length]; lia).
    change (zip _ _) with [(dir_Y, [e; f; g; h]); (dir_m, w2); (dir_d, w3)].
    cbn [found_field].
    repeat first [rewrite decide_True by done | rewrite decide_False by done].
    by rewrite Hi1, Hi2, Hi3.
  - rewrite bool_decide_eq_false_2; [symmetry; by apply new_no_day|].
    cbn [length]. rewrite !length_app. cbn [length]. lia.
Qed.

End strptime.

(** ** What the matches of the date patterns hold, and how they are read *)
Section readings.
Import Unicode Re.

Lemma run_WordB_Some {A} ic cur caps (k : cursor → list str → option A) x :
  run ic WordB cur caps k = Some x →
  at_boundary (prev cur) (rest cur) = true ∧ k cur caps = Some x.
Proof. cbn [run]. by destruct (at_boundary _ _). Qed.

Lemma run_Cls_Some {A} ic p cur caps (k : cursor → list str → option A) x :
  run ic (Cls p) cur caps k = Some x →
  ∃ c s', rest cur = c :: s' ∧ p c = true
          ∧ k (Cursor (Some c) (S (pos cur)) s') caps = Some x.
Proof.
  cbn [run]. destruct (rest cur) as [|c s']; [done|].
  destruct (p c) eqn:Hc; [|done]. intros Hk. by exists c, s'.
Qed.

Lemma run_Rep_Some {A} ic p lo hi cur caps
    (k : cursor → list str → option A) x :
  run ic (Rep p lo hi) cur caps k = Some x →
  ∃ w s',
    rest cur = w ++ s'
    ∧ Forall (λ c, p c = true) w
    ∧ (lo ≤ length w)%nat
    ∧ (∀ h, hi = Some h → (length w ≤ h)%nat)
    ∧ k (Cursor (last_or (prev cur) w) (pos cur + length w) s') caps
      = Some x.
Proof. cbn [run]. apply rep_Some. Qed.

Lemma run_Grp_Rep_Some {A} ic p lo hi cur caps
    (k : cursor → list str → option A) x :
  run ic (Grp (Rep p lo hi)) cur caps k = Some x →
  ∃ w s',
    rest cur = w ++ s'
    ∧ Forall (λ c, p c = true) w
    ∧ (lo ≤ length w)%nat
    ∧ (∀ h, hi = Some h → (length w ≤ h)%nat)
    ∧ k (Cursor (last_or (prev cur) w) (pos cur + length w) s')
        (caps ++ [w]) = Some x.
Proof.
  cbn [run]. intros (w & s' & Hrest & Hw & Hlo & Hhi & Hk)%rep_Some.
  exists w, s'. split_and!; try done. cbn [pos] in Hk.
  rewrite Hrest in Hk.
  replace (pos cur + length w - pos cur)%nat with (length w) in Hk by lia.
  by rewrite take_app_length in Hk.
Qed.

Lemma run_Alt_Some {A} ic r1 r2 cur caps
    (k : cursor → list str → option A) x :
  run ic (Alt r1 r2) cur caps k = Some x →
  run ic r1 cur caps k = Some x ∨ run ic r2 cur caps k = Some x.
Proof.
  cbn [run]. destruct (run ic r1 cur caps k); [by left|by right].
Qed.

Lemma run_lit_Some {A} ic l cur caps (k : cursor → list str → option A) x :
  run ic (lit l) cur caps k = Some x →
  ∃ w s',
    rest cur = w ++ s'
    ∧ Forall2 (λ a c, lit_matches ic a c = true) l w
    ∧ k (Cursor (last_or (prev cur) w) (pos cur + length w) s') caps
      = Some x.
Proof.
  revert cur. induction l as [|a l IH]; intros cur.
  - cbn. intros Hk. exists [], (rest cur). split_and!; [done|constructor|].
    rewrite Nat.add_0_r. by destruct cur.
  - change (lit (a :: l)) with (Cat (Lit a) (lit l)). cbn [run].
    destruct (rest cur) as [|c s'] eqn:Hrest; [done|].
    destruct (lit_matches ic a c) eqn:Hc; [|done].
    intros (w & s'' & Hrest' & Hw & Hk)%IH. cbn [rest prev pos] in *.
    exists (c :: w), s''. split_and!.
    + by rewrite Hrest'.
    + by constructor.
    + rewrite last_or_cons. cbn [length].
      by replace (pos cur + S (length w))%nat
        with (S (pos cur) + length w)%nat by lia.
Qed.

(** The group of the month name holds three letters that are, in lower
    case, the key of a month. *)
Lemma run_Grp_month_abbr_Some {A} cur caps
    (k : cursor → list str → option A) x :
  run true (Grp month_abbr) cur caps k = Some x →
  ∃ w s' month,
    rest cur = w ++ s'
    ∧ month_of w month
    ∧ k (Cursor (last w) (pos cur + 3) s') (caps ++ [w]) = Some x.
Proof.
  change (run true (Grp month_abbr) cur caps k)
    with (run true month_abbr cur caps
            (λ cur' caps',
               k cur' (caps' ++ [take (pos cur' - pos cur) (rest cur)]))).
  unfold month_abbr, alt. cbn [foldl]. intros Hrun.
  repeat (apply run_Alt_Some in Hrun as [Hrun|Hrun]);
    apply run_lit_Some in Hrun as (w & s' & Hrest & Hw & Hk);
    cbn [list_ascii_of_string] in Hw;
    repeat match goal with
      | H : Forall2 _ (_ :: _) _ |- _ =>
          apply Forall2_cons_inv_l in H as (? & ? & ?%bool_decide_eq_true & H & ->)
      | H : Forall2 _ [] _ |- _ => apply Forall2_nil_inv_l in H as ->
      end;
    cbn [length pos] in Hk; rewrite Hrest in Hk;
    replace (pos cur + 3 - pos cur)%nat with 3%nat in Hk by lia;
    cbn [take app] in Hk;
    (eexists _, s', _; split_and!; [exact Hrest| |exact Hk]);
    (split; [done|]);
    cbn [Str.lower map];
    repeat match goal with
      | H : to_lower _ = to_lower ?c |- _ => rewrite <- H; clear H
      end;
    by vm_compute.
Qed.

Lemma month_of_not_isdigit w month : month_of w month → Str.isdigit w = false.
Proof.
  intros [Hl Hm]. destruct w as [|a [|b [|c [|? ?]]]]; try done.
  assert (is_digit a = false) as Ha; [|by cbn; rewrite Ha].
  apply elem_of_list_to_map_2 in Hm. cbn [Str.lower map] in Hm.
  destruct (is_digit a) eqn:Hd; [|done].
  assert (to_lower a = a) as Hlow.
  { clear -Hd. by destruct a as [[] [] [] [] [] [] [] []]. }
  rewrite Hlow in Hm.
  repeat (apply elem_of_cons in Hm as [[= -> _ _ _]|Hm]; [by vm_compute in Hd|]).
  by apply elem_of_nil in Hm.
Qed.

Lemma month_names_digits w :
  decimal_digits 1 2 w → month_names !! take 3 (Str.lower w) = None.
Proof.
  intros Hw. apply decimal_digits_1_2 in Hw
    as [(a & -> & Ha) | (a & b & -> & Ha & Hb)].
  - apply is_decimal_cases in Ha.
    repeat (apply elem_of_cons in Ha as [->|Ha]; [by vm_compute|]).
    by apply elem_of_nil in Ha.
  - apply is_decimal_cases in Ha. apply is_decimal_cases in Hb.
    repeat (apply elem_of_cons in Ha as [->|Ha];
            [repeat (apply elem_of_cons in Hb as [->|Hb]; [by vm_compute|]);
             by apply elem_of_nil in Hb|]).
    by apply elem_of_nil in Ha.
Qed.

(** *** The four readings *)
Lemma date_of_groups_mdy w1 w2 w3 :
  decimal_digits 1 2 w1 → decimal_digits 1 2 w2 → decimal_digits 4 4 w3 →
  date_of_groups [w1; w2; w3]
  = (dt ← datetime.new (Str.digits_value w3) (Str.digits_value w1)
            (Str.digits_value w2);
     mret (Some dt)).
Proof.
  intros H1 H2 H3. unfold date_of_groups.
  rewrite (isdigit_decimal_digits _ _ _ H1), (isdigit_decimal_digits _ _ _ H2),
    (isdigit_decimal_digits _ _ _ H3). cbn [andb].
  assert ((length w1 =? 4)%nat = false) as ->
    by (destruct H1 as [_ ?]; apply Nat.eqb_neq; lia).
  by rewrite strptime_mdY.
Qed.

Lemma date_of_groups_ymd w1 w2 w3 :
  decimal_digits 4 4 w1 → decimal_digits 1 2 w2 → decimal_digits 1 2 w3 →
  date_of_groups [w1; w2; w3]
  = (dt ← datetime.new (Str.digits_value w1) (Str.digits_value w2)
            (Str.digits_value w3);
     mret (Some dt)).
Proof.
  intros H1 H2 H3. unfold date_of_groups.
  rewrite (isdigit_decimal_digits _ _ _ H1), (isdigit_decimal_digits _ _ _ H2),
    (isdigit_decimal_digits _ _ _ H3). cbn [andb].
  assert ((length w1 =? 4)%nat = true) as ->
    by (destruct H1 as [_ ?]; apply Nat.eqb_eq; lia).
  by rewrite strptime_Ymd.
Qed.

Lemma date_of_groups_d_month_y w1 w2 w3 month :
  decimal_digits 1 2 w1 → month_of w2 month → decimal_digits 4 4 w3 →
  date_of_groups [w1; w2; w3]
  = (dt ← datetime.new (Str.digits_value w3) month (Str.digits_value w1);
     mret (Some dt)).
Proof.
  intros H1 H2 H3. unfold date_of_groups.
  rewrite (month_of_not_isdigit _ _ H2), andb_false_r. cbn [andb].
  destruct H2 as [Hl Hm]. rewrite take_ge by (unfold Str.lower; rewrite length_map, Hl; lia).
  rewrite Hm, (int_decimal_digits _ _ _ H1), (int_decimal_digits _ _ _ H3).
  done.
Qed.

Lemma date_of_groups_month_d_y w1 w2 w3 month :
  month_of w1 month → decimal_digits 1 2 w2 → decimal_digits 4 4 w3 →
  date_of_groups [w1; w2; w3]
  = (dt ← datetime.new (Str.digits_value w3) month (Str.digits_value w2);
     mret (Some dt)).
Proof.
  intros H1 H2 H3. unfold date_of_groups.
  rewrite (month_of_not_isdigit _ _ H1). cbn [andb].
  rewrite (month_names_digits _ H2).
  destruct H1 as [Hl Hm]. rewrite take_ge by (unfold Str.lower; rewrite length_map, Hl; lia).
  rewrite Hm, (int_decimal_digits _ _ _ H2), (int_decimal_digits _ _ _ H3).
  done.
Qed.

End readings.

(** ** The dates mined are written in the text *)
Create HintDb occurs.

Section written.
Context `{SetOrder}.
Import Unicode Re.

Lemma elem_of_finditer_from_suffix ignorecase r skip prev0 s m :
  m ∈ finditer_from ignorecase r skip prev0 s →
  ∃ pre prev1 s1, s = pre ++ s1 ∧ match_at ignorecase r prev1 s1 = Some m.
Proof.
  revert skip prev0. induction s as [|c s IH]; intros skip prev0.
  - destruct skip; [|by intros ?%elem_of_nil]. rewrite finditer_from_0.
    destruct (match_at ignorecase r prev0 []) as [m'|] eqn:E;
      [|by intros ?%elem_of_nil].
    intros [->|?%elem_of_nil]%elem_of_cons; [|done]. by exists [], prev0, [].
  - assert (∀ skip' prev',
              m ∈ finditer_from ignorecase r skip' prev' s →
              ∃ pre prev1 s1,
                c :: s = pre ++ s1 ∧ match_at ignorecase r prev1 s1 = Some m)
      as Hnext.
    { intros skip' prev' (pre & prev1 & s1 & -> & Hm)%IH.
      by exists (c :: pre), prev1, s1. }
    destruct skip as [|skip]; [|apply Hnext]. rewrite finditer_from_0.
    destruct (match_at ignorecase r prev0 (c :: s)) as [m'|] eqn:E;
      [|apply Hnext].
    intros [->|Hm]%elem_of_cons; [|by eapply Hnext].
    by exists [], prev0, (c :: s).
Qed.

Lemma occurs_in_app_l pre w s : occurs_in w s → occurs_in w (pre ++ s).
Proof.
  intros (pre' & post & ->). exists (pre ++ pre'), post.
  by rewrite <- app_assoc.
Qed.

Lemma occurs_in_cons c w s : occurs_in w s → occurs_in w (c :: s).
Proof. apply (occurs_in_app_l [c]). Qed.

Lemma occurs_in_here w s : occurs_in w (w ++ s).
Proof. by exists [], s. Qed.

Lemma written_in_app_l pre s year month day :
  written_in s year month day → written_in (pre ++ s) year month day.
Proof.
  intros (yt & mt & dt & (Hy & ?) & (Hm & ?) & (Hd & ?)).
  exists yt, mt, dt.
  split; [|split]; (split; [by apply occurs_in_app_l|done]).
Qed.

#[local] Hint Resolve occurs_in_app_l occurs_in_cons occurs_in_here : occurs.

Ltac run_step H :=
  rewrite run_Cat in H;
  first
    [ apply run_WordB_Some in H as [_ H]
    | apply run_Grp_month_abbr_Some in H as (? & ? & ? & ? & ? & H)
    | apply run_Grp_Rep_Some in H as (? & ? & ? & ? & ? & ? & H)
    | apply run_Rep_Some in H as (? & ? & ? & _ & _ & _ & H)
    | apply run_Cls_Some in H as (? & ? & ? & _ & H) ];
  cbn beta in H; cbn [rest prev pos] in *; subst.

Ltac digits_bounds :=
  repeat match goal with
    | H : ∀ h, Some _ = Some h → _ |- _ => specialize (H _ eq_refl)
    end.

(** What a match of each of the four patterns holds in its groups. *)
Lemma pattern_mdy_groups prev0 s m :
  match_at true pattern_mdy prev0 s = Some m →
  ∃ w1 w2 w3,
    groups m = [w1; w2; w3]
    ∧ decimal_digits 1 2 w1 ∧ decimal_digits 1 2 w2 ∧ decimal_digits 4 4 w3
    ∧ occurs_in w1 s ∧ occurs_in w2 s ∧ occurs_in w3 s.
Proof.
  unfold match_at, pattern_mdy, cat, range, exactly. cbn [foldr].
  intros Hrun. do 7 run_step Hrun. cbn [run] in Hrun. injection Hrun as <-.
  digits_bounds.
  eexists _, _, _. split_and!; [done|by split..| | |]; eauto 10 with occurs.
Qed.

Lemma pattern_ymd_groups prev0 s m :
  match_at true pattern_ymd prev0 s = Some m →
  ∃ w1 w2 w3,
    groups m = [w1; w2; w3]
    ∧ decimal_digits 4 4 w1 ∧ decimal_digits 1 2 w2 ∧ decimal_digits 1 2 w3
    ∧ occurs_in w1 s ∧ occurs_in w2 s ∧ occurs_in w3 s.
Proof.
  unfold match_at, pattern_ymd, cat, range, exactly. cbn [foldr].
  intros Hrun. do 7 run_step Hrun. cbn [run] in Hrun. injection Hrun as <-.
  digits_bounds.
  eexists _, _, _. split_and!; [done|by split..| | |]; eauto 10 with occurs.
Qed.

Lemma pattern_d_month_y_groups prev0 s m :
  match_at true pattern_d_month_y prev0 s = Some m →
  ∃ w1 w2 w3 month,
    groups m = [w1; w2; w3]
    ∧ decimal_digits 1 2 w1 ∧ month_of w2 month ∧ decimal_digits 4 4 w3
    ∧ occurs_in w1 s ∧ occurs_in w2 s ∧ occurs_in w3 s.
Proof.
  unfold match_at, pattern_d_month_y, cat, range, exactly, plus, star.
  cbn [foldr].
  intros Hrun. do 8 run_step Hrun. cbn [run] in Hrun. injection Hrun as <-.
  digits_bounds.
  eexists _, _, _, _. split_and!; [done|by split|done|by split| | |];
    eauto 10 with occurs.
Qed.

Lemma pattern_month_d_y_groups prev0 s m :
  match_at true pattern_month_d_y prev0 s = Some m →
  ∃ w1 w2 w3 month,
    groups m = [w1; w2; w3]
    ∧ month_of w1 month ∧ decimal_digits 1 2 w2 ∧ decimal_digits 4 4 w3
    ∧ occurs_in w1 s ∧ occurs_in w2 s ∧ occurs_in w3 s.
Proof.
  unfold match_at, pattern_month_d_y, cat, range, exactly, plus, star, opt.
  cbn [foldr].
  intros Hrun. do 9 run_step Hrun. cbn [run] in Hrun. injection Hrun as <-.
  digits_bounds.
  eexists _, _, _, _. split_and!; [done|done|by split|by split| | |];
    eauto 10 with occurs.
Qed.

(** A match of a date pattern is read as a year, a month and a day that
    stand in the text, and the body of the [try] hands them to the
    constructor of dates. *)
Lemma match_reading pattern prev0 s m :
  pattern ∈ date_patterns →
  match_at true pattern prev0 s = Some m →
  ∃ year month day,
    written_in s year month day
    ∧ date_of_groups (groups m)
      = (dt ← datetime.new year month day; mret (Some dt)).
Proof.
  unfold date_patterns.
  intros Hp Hm. repeat apply elem_of_cons in Hp as [->|Hp].
  - apply pattern_mdy_groups in Hm
      as (w1 & w2 & w3 & -> & H1 & H2 & H3 & Ho1 & Ho2 & Ho3).
    exists (Str.digits_value w3), (Str.digits_value w1), (Str.digits_value w2).
    split; [|by apply date_of_groups_mdy].
    exists w3, w1, w2.
    split; [|split]; (split; [done|]); [by split|left; by split|by split].
  - apply pattern_ymd_groups in Hm
      as (w1 & w2 & w3 & -> & H1 & H2 & H3 & Ho1 & Ho2 & Ho3).
    exists (Str.digits_value w1), (Str.digits_value w2), (Str.digits_value w3).
    split; [|by apply date_of_groups_ymd].
    exists w1, w2, w3.
    split; [|split]; (split; [done|]); [by split|left; by split|by split].
  - apply pattern_d_month_y_groups in Hm
      as (w1 & w2 & w3 & month & -> & H1 & H2 & H3 & Ho1 & Ho2 & Ho3).
    exists (Str.digits_value w3), month, (Str.digits_value w1).
    split; [|by apply date_of_groups_d_month_y].
    exists w3, w2, w1.
    split; [|split]; (split; [done|]); [by split|by right|by split].
  - apply pattern_month_d_y_groups in Hm
      as (w1 & w2 & w3 & month & -> & H1 & H2 & H3 & Ho1 & Ho2 & Ho3).
    exists (Str.digits_value w3), month, (Str.digits_value w2).
    split; [|by apply date_of_groups_month_d_y].
    exists w3, w1, w2.
    split; [|split]; (split; [done|]); [by split|by right|by split].
  - by apply elem_of_nil in Hp.
Qed.

Lemma finditer_reading pattern text m :
  pattern ∈ date_patterns →
  m ∈ finditer true pattern text →
  ∃ year month day,
    written_in text year month day
    ∧ date_of_groups (groups m)
      = (dt ← datetime.new year month day; mret (Some dt)).
Proof.
  intros Hp (pre & prev1 & s1 & -> & Hm)%elem_of_finditer_from_suffix.
  destruct (match_reading pattern prev1 s1 m Hp Hm)
    as (year & month & day & Hw & Hg).
  exists year, month, day. split; [by apply written_in_app_l|done].
Qed.


(** X17: every date of the result is written in the text: its year as
    four digits, its day as one or two digits, its month as one or two
    digits or as the three letters of its name. *)
Theorem X17_mined_dates_are_written (text : str) (d : datetime.date) :
  d ∈ parse_dates_from_text text →
  written_in text (datetime.year d) (datetime.month d) (datetime.day d).
Proof.
  unfold parse_dates_from_text.
  intros (pattern & m & Hp & Hm & Hg)%elem_of_list_of_set%elem_of_mined_dates.
  destruct (finditer_reading pattern text m Hp Hm)
    as (year & month & day & Hw & Hg').
  rewrite Hg' in Hg.
  destruct (datetime.new year month day) as [dt|] eqn:Hnew; [|done].
  injection Hg as ->.
  by apply new_Ok in Hnew as (-> & -> & ->).
Qed.

End written.


(** X17 on the same text. *)
Lemma X17_witness :
  mar15 ∈ @parse_dates_from_text last_occurrence_order "Due March 15, 2024"
  ∧ written_in "Due March 15, 2024" 2024 3 15.
Proof.
  assert (mar15 ∈ @parse_dates_from_text last_occurrence_order
                    "Due March 15, 2024") as Hd.
  { assert (@parse_dates_from_text last_occurrence_order "Due March 15, 2024"
            = [mar15]) as -> by (by vm_compute).
    left. }
  split; [exact Hd|].
  exact (@X17_mined_dates_are_written last_occurrence_order
           "Due March 15, 2024" mar15 Hd).
Defined.

(** ** Numeric dates that stand between delimiters are mined *)
Section delimited.
Context `{SetOrder}.
Import Unicode Re.

(** A repetition that meets a character it cannot take, or that has
    taken as many characters as it may, stops there when the rest of the
    pattern succeeds. *)
Lemma rep_longest {A} p lo hi prev0 pos0 w s' (k : cursor → option A) x :
  Forall (λ c, p c = true) w →
  (lo ≤ length w)%nat →
  (∀ h, hi = Some h → (length w ≤ h)%nat) →
  hi = Some (length w) ∨ from_option p false (head s') = false →
  k (Cursor (last_or prev0 w) (pos0 + length w) s') = Some x →
  rep p lo hi prev0 pos0 (w ++ s') k = Some x.
Proof.
  intros Hw. revert lo hi prev0 pos0.
  induction Hw as [|c w Hc Hw IH]; intros lo hi prev0 pos0 Hlo Hhi Hstop Hk.
  - simpl in *. assert (lo = 0%nat) as -> by lia.
    rewrite Nat.add_0_r in Hk. change (last_or prev0 []) with prev0 in Hk.
    destruct s' as [|c s']; simpl; [done|].
    destruct Hstop as [-> | Hstop].
    + by rewrite andb_false_r.
    + simpl in Hstop. by rewrite Hstop.
  - simpl. rewrite Hc.
    assert (may_take hi = true) as ->.
    { destruct hi as [[|h]|]; try done. specialize (Hhi _ eq_refl).
      simpl in Hhi. lia. }
    simpl.
    rewrite (IH (pred lo) (pred <$> hi) (Some c) (S pos0)); [done| | | |].
    + simpl in Hlo. lia.
    + intros h Hh. destruct hi as [h'|]; [|done]. simpl in Hh.
      specialize (Hhi _ eq_refl). simpl in Hhi. simplify_eq. lia.
    + destruct Hstop as [-> | Hstop]; [by left|by right].
    + rewrite last_or_cons in Hk. simpl length in Hk.
      by replace (S pos0 + length w)%nat
        with (pos0 + S (length w))%nat by lia.
Qed.

Lemma date_sep_stops c s :
  date_sep c = true → from_option is_decimal false (head (c :: s)) = false.
Proof. intros Hc. simpl. by apply date_sep_not_decimal. Qed.

Lemma no_word_char_stops s :
  no_word_char (head s) → from_option is_decimal false (head s) = false.
Proof.
  unfold no_word_char. destruct s as [|c s]; [done|]. simpl. intros Hc.
  destruct (is_decimal c) eqn:Hd; [|done].
  by rewrite (is_decimal_is_word c Hd) in Hc.
Qed.

Ltac split_groups :=
  repeat match goal with
    | H : decimal_digits 1 2 _ |- _ =>
        apply decimal_digits_1_2 in H
          as [(? & -> & ?) | (? & ? & -> & ? & ?)]
    | H : decimal_digits 4 4 _ |- _ =>
        apply decimal_digits_4 in H as (? & ? & ? & ? & -> & H)
    | H : Forall _ (_ :: _) |- _ => apply Forall_cons in H as [? H]
    | H : Forall _ [] |- _ => clear H
    end.

Ltac take_group w lo hi :=
  match goal with
  | |- rep _ _ _ ?prev0 ?pos0 _ _ = Some _ =>
      apply (rep_longest is_decimal lo hi prev0 pos0 w);
      [ by repeat constructor
      | simpl; lia
      | intros ? [= <-]; simpl; lia
      | first [ by left
              | right; first [ by apply date_sep_stops
                             | by apply no_word_char_stops ] ]
      | cbn [prev pos rest last_or last length Nat.add app take Nat.sub] ]
  end.

Ltac take_sep :=
  match goal with
  | H : date_sep ?c = true |- context [date_sep ?c] => rewrite H
  end.

(** The first date pattern matches a date written month first that
    stands between two characters that are no word characters (or the
    ends of the text). *)
Lemma pattern_mdy_matches prev0 w1 c1 w2 c2 w3 post :
  decimal_digits 1 2 w1 → date_sep c1 = true →
  decimal_digits 1 2 w2 → date_sep c2 = true →
  decimal_digits 4 4 w3 →
  no_word_char prev0 → no_word_char (head post) →
  match_at true pattern_mdy prev0 (delimited_date w1 c1 w2 c2 w3 ++ post)
  = Some (Match [w1; w2; w3] (length (delimited_date w1 c1 w2 c2 w3))).
Proof.
  intros H1 Hc1 H2 Hc2 H3 Hbefore Hafter.
  unfold match_at, pattern_mdy, cat, range, exactly, delimited_date.
  split_groups;
    cbn [run foldr prev pos rest app];
    rewrite at_boundary_before_digit by done;
    match goal with
    | |- context [rep _ _ _ _ _ (?a :: c1 :: _)] => take_group [a] 1%nat (Some 2%nat)
    | |- context [rep _ _ _ _ _ (?a :: ?b :: c1 :: _)] =>
        take_group [a; b] 1%nat (Some 2%nat)
    end;
    take_sep;
    match goal with
    | |- context [rep _ _ _ _ _ (?a :: c2 :: _)] => take_group [a] 1%nat (Some 2%nat)
    | |- context [rep _ _ _ _ _ (?a :: ?b :: c2 :: _)] =>
        take_group [a; b] 1%nat (Some 2%nat)
    end;
    take_sep;
    match goal with
    | |- context [rep _ _ _ _ _ (?e :: ?f :: ?g :: ?h :: post)] =>
        take_group [e; f; g; h] 4%nat (Some 4%nat)
    end;
    by rewrite at_boundary_after_digit.
Qed.

(** The second date pattern, on a date written year first. *)
Lemma pattern_ymd_matches prev0 w1 c1 w2 c2 w3 post :
  decimal_digits 4 4 w1 → date_sep c1 = true →
  decimal_digits 1 2 w2 → date_sep c2 = true →
  decimal_digits 1 2 w3 →
  no_word_char prev0 → no_word_char (head post) →
  match_at true pattern_ymd prev0 (delimited_date w1 c1 w2 c2 w3 ++ post)
  = Some (Match [w1; w2; w3] (length (delimited_date w1 c1 w2 c2 w3))).
Proof.
  intros H1 Hc1 H2 Hc2 H3 Hbefore Hafter.
  unfold match_at, pattern_ymd, cat, range, exactly, delimited_date.
  split_groups;
    cbn [run foldr prev pos rest app];
    rewrite at_boundary_before_digit by done;
    match goal with
    | |- context [rep _ _ _ _ _ (?e :: ?f :: ?g :: ?h :: c1 :: _)] =>
        take_group [e; f; g; h] 4%nat (Some 4%nat)
    end;
    take_sep;
    match goal with
    | |- context [rep _ _ _ _ _ (?a :: c2 :: _)] => take_group [a] 1%nat (Some 2%nat)
    | |- context [rep _ _ _ _ _ (?a :: ?b :: c2 :: _)] =>
        take_group [a; b] 1%nat (Some 2%nat)
    end;
    take_sep;
    match goal with
    | |- context [rep _ _ _ _ _ (?a :: ?b :: post)] =>
        first [ take_group [a; b] 1%nat (Some 2%nat)
              | take_group [a] 1%nat (Some 2%nat) ]
    | |- context [rep _ _ _ _ _ (?a :: post)] =>
        take_group [a] 1%nat (Some 2%nat)
    end;
    by rewrite at_boundary_after_digit.
Qed.

(** What a match of the second date pattern has matched: four digits, a
    separator, one or two digits, a separator, one or two digits, and
    no word character after them. *)
Lemma pattern_ymd_shape prev0 s m :
  match_at true pattern_ymd prev0 s = Some m →
  ∃ w1 c1 w2 c2 w3 s',
    s = w1 ++ c1 :: w2 ++ c2 :: w3 ++ s'
    ∧ decimal_digits 4 4 w1 ∧ date_sep c1 = true
    ∧ decimal_digits 1 2 w2 ∧ date_sep c2 = true
    ∧ decimal_digits 1 2 w3
    ∧ no_word_char (head s')
    ∧ span m = (length w1 + 1 + length w2 + 1 + length w3)%nat.
Proof.
  unfold match_at, pattern_ymd, cat, range, exactly.
  cbn [run foldr prev pos rest].
  destruct (at_boundary prev0 s) eqn:Hb1; [|done].
  intros (w1 & s1 & -> & Hw1 & Hlo1 & Hhi1 & Hk)%rep_Some.
  cbn [prev pos rest] in Hk.
  destruct s1 as [|c1 s1]; [done|]. destruct (date_sep c1) eqn:Hc1; [|done].
  apply rep_Some in Hk as (w2 & s2 & -> & Hw2 & Hlo2 & Hhi2 & Hk).
  cbn [prev pos rest] in Hk.
  destruct s2 as [|c2 s2]; [done|]. destruct (date_sep c2) eqn:Hc2; [|done].
  apply rep_Some in Hk as (w3 & s3 & -> & Hw3 & Hlo3 & Hhi3 & Hk).
  cbn [prev pos rest] in Hk.
  destruct (at_boundary _ s3) eqn:Hb2; [|done]. injection Hk as <-.
  specialize (Hhi1 _ eq_refl). specialize (Hhi2 _ eq_refl).
  specialize (Hhi3 _ eq_refl).
  exists w1, c1, w2, c2, w3, s3. split_and!; try done; try lia.
  - unfold no_word_char. unfold at_boundary in Hb2.
    destruct w3 as [|z w3 _] using rev_ind; [simpl in Hlo3; lia|].
    apply Forall_app in Hw3 as [_ Hz]. apply Forall_inv in Hz.
    unfold last_or in Hb2. rewrite last_snoc in Hb2. simpl in Hb2.
    rewrite (is_decimal_is_word z Hz) in Hb2.
    by destruct (from_option is_word false (head s3)).
  - simpl. lia.
Qed.

(** Ways in which a character cannot be what the alignment of a match
    with the text asks of it. *)
Ltac absurd_char :=
  match goal with
  | H1 : date_sep ?c = true, H2 : is_decimal ?c = true |- _ =>
      rewrite (date_sep_not_decimal c H1) in H2; done
  | H1 : is_word ?c = false, H2 : is_decimal ?c = true |- _ =>
      rewrite (is_decimal_is_word c H2) in H1; done
  | H1 : no_word_char (head (?c :: _)), H2 : is_decimal ?c = true |- _ =>
      unfold no_word_char in H1; simpl in H1;
      rewrite (is_decimal_is_word c H2) in H1; done
  end.

Ltac align Heq pre :=
  repeat (first
    [ lia
    | destruct pre as [|? pre]; simpl in Heq |- *;
      [ simplify_eq; absurd_char
      | injection Heq as -> Heq ] ]).

(** A match of the first date pattern that starts before a delimited
    date written month first ends before it. *)
Lemma pattern_mdy_stops_before prev0 pre x w1 c1 w2 c2 w3 post m :
  decimal_digits 1 2 w1 → date_sep c1 = true →
  decimal_digits 1 2 w2 → date_sep c2 = true →
  decimal_digits 4 4 w3 →
  is_word x = false →
  match_at true pattern_mdy prev0
    (pre ++ x :: delimited_date w1 c1 w2 c2 w3 ++ post) = Some m →
  (span m ≤ S (length pre))%nat.
Proof.
  intros H1 Hc1 H2 Hc2 H3 Hx Hm.
  apply pattern_mdy_shape in Hm
    as (v1 & d1 & v2 & d2 & v3 & s' & Heq & Hv1 & Hl1 & Hd1 & Hv2 & Hl2
        & Hd2 & Hv3 & Hl3 & ->).
  unfold delimited_date in Heq.
  destruct v1 as [|x1 [|x2 [|? ?]]]; simpl in Hl1; try lia;
    destruct v2 as [|y1 [|y2 [|? ?]]]; simpl in Hl2; try lia;
    destruct v3 as [|z1 [|z2 [|z3 [|z4 [|? ?]]]]]; simpl in Hl3; try lia;
    clear Hl1 Hl2 Hl3; split_groups; simpl in Heq |- *; align Heq pre.
Qed.

(** The same for the second date pattern and a date written year
    first. *)
Lemma pattern_ymd_stops_before prev0 pre x w1 c1 w2 c2 w3 post m :
  decimal_digits 4 4 w1 → date_sep c1 = true →
  decimal_digits 1 2 w2 → date_sep c2 = true →
  decimal_digits 1 2 w3 →
  is_word x = false →
  match_at true pattern_ymd prev0
    (pre ++ x :: delimited_date w1 c1 w2 c2 w3 ++ post) = Some m →
  (span m ≤ S (length pre))%nat.
Proof.
  intros H1 Hc1 H2 Hc2 H3 Hx Hm.
  apply pattern_ymd_shape in Hm
    as (v1 & d1 & v2 & d2 & v3 & s' & Heq & Hv1 & Hd1 & Hv2 & Hd2 & Hv3
        & Hafter & ->).
  unfold delimited_date in Heq.
  split_groups; simpl in Heq |- *; align Heq pre.
Qed.

(** A scan reaches a text that stands after a character that is no
    word character, when the pattern matches there and no earlier match
    runs over the first character of that text. *)
Lemma finditer_from_reaches r target post m skip prev0 pre :
  (∀ prev1, no_word_char prev1 →
            match_at true r prev1 (target ++ post) = Some m) →
  (∀ prev1 pre' x m',
     is_word x = false →
     match_at true r prev1 (pre' ++ x :: target ++ post) = Some m' →
     (span m' ≤ S (length pre'))%nat) →
  no_word_char (last_or prev0 pre) →
  (skip ≤ length pre)%nat →
  m ∈ finditer_from true r skip prev0 (pre ++ target ++ post).
Proof.
  intros Hhere Hstops. revert skip prev0.
  induction pre as [|c0 pre IH]; intros skip prev0 Hbefore Hskip.
  - simpl in Hskip. assert (skip = 0%nat) as -> by lia.
    rewrite app_nil_l, finditer_from_0, Hhere by done. left.
  - rewrite last_or_cons in Hbefore.
    destruct skip as [|skip].
    + rewrite finditer_from_0.
      destruct (match_at true r prev0 _) as [m'|] eqn:Hm.
      * right. simpl. apply IH; [done|].
        assert (is_Some (last (c0 :: pre))) as [x Hx]
          by (by apply last_is_Some).
        pose proof Hx as (pre' & Hpre)%last_Some.
        assert (is_word x = false) as Hword.
        { rewrite <- last_or_cons with (prev := prev0) in Hbefore.
          unfold last_or in Hbefore. by rewrite Hx in Hbefore. }
        rewrite Hpre, <- app_assoc in Hm. simpl in Hm.
        apply Hstops in Hm; [|done].
        apply (f_equal length) in Hpre. rewrite length_app in Hpre.
        simpl in Hpre. lia.
      * simpl. apply IH; [done|lia].
    + simpl. apply IH; [done|]. simpl in Hskip. lia.
Qed.

Lemma finditer_reaches r target post m pre :
  (∀ prev1, no_word_char prev1 →
            match_at true r prev1 (target ++ post) = Some m) →
  (∀ prev1 pre' x m',
     is_word x = false →
     match_at true r prev1 (pre' ++ x :: target ++ post) = Some m' →
     (span m' ≤ S (length pre'))%nat) →
  no_word_char (last pre) →
  m ∈ finditer true r (pre ++ target ++ post).
Proof.
  intros Hhere Hstops Hbefore. unfold finditer.
  apply finditer_from_reaches; [done..| |lia].
  unfold last_or. by destruct (last pre).
Qed.

(** What becomes of a match whose groups are read as a year, a month
    and a day. *)
Lemma mined_or_raised pattern text m year month day :
  pattern ∈ date_patterns →
  m ∈ finditer true pattern text →
  date_of_groups (groups m)
  = (dt ← datetime.new year month day; mret (Some dt)) →
  (datetime.check_date_fields year month day = true →
   ∃ dt, datetime.fields dt = (year, month, day)
         ∧ dt ∈ parse_dates_from_text text)
  ∧ (datetime.check_date_fields year month day = false →
     ∀ dates,
       try_match (groups m) dates = ValueError
       ∧ mine_match dates m = dates).
Proof.
  intros Hp Hm Hg. split.
  - intros (dt & Hnew & Hfields)%new_is_Ok. exists dt. split; [done|].
    unfold parse_dates_from_text.
    apply elem_of_list_of_set, elem_of_mined_dates.
    exists pattern, m. split_and!; [done..|]. by rewrite Hg, Hnew.
  - intros Hnew%new_ValueError dates. split.
    + by rewrite try_match_eq, Hg, Hnew.
    + by rewrite mine_match_eq, Hg, Hnew.
Qed.

(** X11: a date written month first, as one or two digits, a separator
    (slash, period or hyphen), one or two digits, a separator and four
    digits, with no word character right before it and none right after
    it, is found by the first pattern and read month first.  When the
    first number is a month, the second a day of that month and the year
    is not 0, the result holds the date of that year, month and day;
    otherwise the candidate raises [ValueError] in the [try], and the
    loop goes on with the list of dates unchanged. *)
Theorem X11_numeric_date_month_first
    (pre post w1 w2 w3 : str) (c1 c2 : ascii) :
  decimal_digits 1 2 w1 → date_sep c1 = true →
  decimal_digits 1 2 w2 → date_sep c2 = true →
  decimal_digits 4 4 w3 →
  no_word_char (last pre) → no_word_char (head post) →
  Match [w1; w2; w3] (length (delimited_date w1 c1 w2 c2 w3))
    ∈ finditer true pattern_mdy (pre ++ delimited_date w1 c1 w2 c2 w3 ++ post)
  ∧ (datetime.check_date_fields (Str.digits_value w3) (Str.digits_value w1)
       (Str.digits_value w2) = true →
     ∃ dt,
       datetime.fields dt
       = (Str.digits_value w3, Str.digits_value w1, Str.digits_value w2)
       ∧ dt ∈ parse_dates_from_text
                (pre ++ delimited_date w1 c1 w2 c2 w3 ++ post))
  ∧ (datetime.check_date_fields (Str.digits_value w3) (Str.digits_value w1)
       (Str.digits_value w2) = false →
     ∀ dates,
       try_match [w1; w2; w3] dates = ValueError
       ∧ mine_match dates
           (Match [w1; w2; w3] (length (delimited_date w1 c1 w2 c2 w3)))
         = dates).
Proof.
  intros H1 Hc1 H2 Hc2 H3 Hbefore Hafter.
  assert (Match [w1; w2; w3] (length (delimited_date w1 c1 w2 c2 w3))
          ∈ finditer true pattern_mdy
              (pre ++ delimited_date w1 c1 w2 c2 w3 ++ post)) as Hfound.
  { apply finditer_reaches; [|intros prev1 pre' x m' Hx|done].
    - intros prev1 Hprev1. by apply pattern_mdy_matches.
    - by apply pattern_mdy_stops_before. }
  split; [done|].
  apply (mined_or_raised pattern_mdy _
           (Match [w1; w2; w3] (length (delimited_date w1 c1 w2 c2 w3))));
    [|done|].
  - unfold date_patterns. left.
  - by apply date_of_groups_mdy.
Qed.

(** X18: a date written year first, as four digits, a separator, one
    or two digits, a separator and one or two digits, with no word
    character right before it and none right after it, is found by the
    second pattern and read as year, month and day, whatever the two
    separators are.  The result holds the date when there is such a
    date; otherwise the candidate raises [ValueError] in the [try], and
    the loop goes on with the list of dates unchanged. *)
Theorem X18_numeric_date_year_first
    (pre post w1 w2 w3 : str) (c1 c2 : ascii) :
  decimal_digits 4 4 w1 → date_sep c1 = true →
  decimal_digits 1 2 w2 → date_sep c2 = true →
  decimal_digits 1 2 w3 →
  no_word_char (last pre) → no_word_char (head post) →
  Match [w1; w2; w3] (length (delimited_date w1 c1 w2 c2 w3))
    ∈ finditer true pattern_ymd (pre ++ delimited_date w1 c1 w2 c2 w3 ++ post)
  ∧ (datetime.check_date_fields (Str.digits_value w1) (Str.digits_value w2)
       (Str.digits_value w3) = true →
     ∃ dt,
       datetime.fields dt
       = (Str.digits_value w1, Str.digits_value w2, Str.digits_value w3)
       ∧ dt ∈ parse_dates_from_text
                (pre ++ delimited_date w1 c1 w2 c2 w3 ++ post))
  ∧ (datetime.check_date_fields (Str.digits_value w1) (Str.digits_value w2)
       (Str.digits_value w3) = false →
     ∀ dates,
       try_match [w1; w2; w3] dates = ValueError
       ∧ mine_match dates
           (Match [w1; w2; w3] (length (delimited_date w1 c1 w2 c2 w3)))
         = dates).
Proof.
  intros H1 Hc1 H2 Hc2 H3 Hbefore Hafter.
  assert (Match [w1; w2; w3] (length (delimited_date w1 c1 w2 c2 w3))
          ∈ finditer true pattern_ymd
              (pre ++ delimited_date w1 c1 w2 c2 w3 ++ post)) as Hfound.
  { apply finditer_reaches; [|intros prev1 pre' x m' Hx|done].
    - intros prev1 Hprev1. by apply pattern_ymd_matches.
    - by apply pattern_ymd_stops_before. }
  split; [done|].
  apply (mined_or_raised pattern_ymd _
           (Match [w1; w2; w3] (length (delimited_date w1 c1 w2 c2 w3))));
    [|done|].
  - unfold date_patterns. right. left.
  - by apply date_of_groups_ymd.
Qed.

End delimited.

(** X11 on a date with periods and single digits: the fourth of July,
    not the seventh of April. *)
Lemma X11_witness :
  decimal_digits 1 2 "7" ∧ date_sep "." = true
  ∧ decimal_digits 1 2 "4" ∧ date_sep "." = true
  ∧ decimal_digits 4 4 "2023"
  ∧ no_word_char (last ("Paid " : str))
  ∧ no_word_char (head ("!" : str))
  ∧ ∃ dt,
      datetime.fields dt = (2023, 7, 4)
      ∧ dt ∈ @parse_dates_from_text last_occurrence_order
               ("Paid " ++ delimited_date "7" "." "4" "." "2023" ++ "!").
Proof.
  assert (decimal_digits 1 2 "7") as H1
    by (split; [by repeat constructor|simpl; lia]).
  assert (date_sep "." = true) as Hc by reflexivity.
  assert (decimal_digits 1 2 "4") as H2
    by (split; [by repeat constructor|simpl; lia]).
  assert (decimal_digits 4 4 "2023") as H3
    by (split; [by repeat constructor|simpl; lia]).
  assert (no_word_char (last ("Paid " : str))) as Hbefore by reflexivity.
  assert (no_word_char (head ("!" : str))) as Hafter by reflexivity.
  split_and!; [done..|].
  exact (proj1 (proj2 (@X11_numeric_date_month_first last_occurrence_order
                         "Paid " "!" "7" "4" "2023" "." "."
                         H1 Hc H2 Hc H3 Hbefore Hafter)) eq_refl).
Defined.

(** X18 on a date with hyphens and single digits. *)
Lemma X18_witness :
  decimal_digits 4 4 "2024" ∧ date_sep "-" = true
  ∧ decimal_digits 1 2 "3" ∧ date_sep "-" = true
  ∧ decimal_digits 1 2 "5"
  ∧ no_word_char (last ("Worked " : str))
  ∧ no_word_char (head (" on site" : str))
  ∧ ∃ dt,
      datetime.fields dt = (2024, 3, 5)
      ∧ dt ∈ @parse_dates_from_text last_occurrence_order
               ("Worked " ++ delimited_date "2024" "-" "3" "-" "5"
                ++ " on site").
Proof.
  assert (decimal_digits 4 4 "2024") as H1
    by (split; [by repeat constructor|simpl; lia]).
  assert (date_sep "-" = true) as Hc by reflexivity.
  assert (decimal_digits 1 2 "3") as H2
    by (split; [by repeat constructor|simpl; lia]).
  assert (decimal_digits 1 2 "5") as H3
    by (split; [by repeat constructor|simpl; lia]).
  assert (no_word_char (last ("Worked " : str))) as Hbefore by reflexivity.
  assert (no_word_char (head (" on site" : str))) as Hafter by reflexivity.
  split_and!; [done..|].
  exact (proj1 (proj2 (@X18_numeric_date_year_first last_occurrence_order
                         "Worked " " on site" "2024" "3" "5" "-" "-"
                         H1 Hc H2 Hc H3 Hbefore Hafter)) eq_refl).
Defined.

(** ** Dates with the name of the month that stand between delimiters *)
Section named_months.
Context `{SetOrder}.
Import Unicode Re.

(** *** Characters *)
Lemma is_space_not_word c : is_space c = true → is_word c = false.
Proof. by destruct c as [[] [] [] [] [] [] [] []]. Qed.

Lemma is_space_not_decimal c : is_space c = true → is_decimal c = false.
Proof. by destruct c as [[] [] [] [] [] [] [] []]. Qed.

Lemma is_space_not_comma c : is_space c = true → one_of "," c = false.
Proof. by destruct c as [[] [] [] [] [] [] [] []]. Qed.

Lemma is_decimal_not_space c : is_decimal c = true → is_space c = false.
Proof. by destruct c as [[] [] [] [] [] [] [] []]. Qed.

Lemma comma_not_word c : one_of "," c = true → is_word c = false.
Proof. by destruct c as [[] [] [] [] [] [] [] []]. Qed.

(** A character whose lowercase form is one of the letters from a to z
    is a letter. *)
Lemma letter_props c :
  between "a" "z" (to_lower c) = true →
  is_word c = true ∧ is_space c = false ∧ is_decimal c = false.
Proof. by destruct c as [[] [] [] [] [] [] [] []]. Qed.

Lemma month_of_letters w month :
  month_of w month →
  ∃ a b c, w = [a; b; c]
           ∧ Forall (λ x, between "a" "z" (to_lower x) = true) [a; b; c].
Proof.
  intros [Hl Hm]. destruct w as [|a [|b [|c [|? ?]]]]; try done.
  exists a, b, c. split; [done|].
  apply elem_of_list_to_map_2 in Hm. cbn [Str.lower map] in Hm.
  repeat (apply elem_of_cons in Hm as [[= Ha Hb Hc _]|Hm];
          [repeat constructor; by rewrite ?Ha, ?Hb, ?Hc|]).
  by apply elem_of_nil in Hm.
Qed.

Lemma month_of_first w month s :
  month_of w month →
  from_option is_word false (head (w ++ s)) = true
  ∧ from_option is_space false (head (w ++ s)) = false
  ∧ from_option is_decimal false (head (w ++ s)) = false.
Proof.
  intros (a & b & c & -> & Hw)%month_of_letters.
  apply Forall_cons in Hw as [Ha _]. simpl.
  by destruct (letter_props a Ha) as (-> & -> & ->).
Qed.

Lemma month_of_word w month :
  month_of w month → Forall (λ c, is_word c = true) w.
Proof.
  intros (a & b & c & -> & Hw)%month_of_letters.
  eapply Forall_impl; [exact Hw|]. intros x Hx.
  by destruct (letter_props x Hx).
Qed.

(** *** Ends of runs of characters *)
Lemma white_space_head w s :
  white_space w →
  ∃ c, head (w ++ s) = Some c ∧ is_space c = true.
Proof.
  intros [Hne Hw]. destruct w as [|c w]; [done|].
  apply Forall_cons in Hw as [Hc _]. by exists c.
Qed.

Lemma decimal_digits_head lo hi w s :
  decimal_digits (S lo) hi w →
  ∃ c, head (w ++ s) = Some c ∧ is_decimal c = true.
Proof.
  intros [Hw Hl]. destruct w as [|c w]; [simpl in Hl; lia|].
  apply Forall_cons in Hw as [Hc _]. by exists c.
Qed.

Lemma decimal_digits_last lo hi w p :
  decimal_digits (S lo) hi w →
  ∃ c, last_or p w = Some c ∧ is_decimal c = true.
Proof.
  intros [Hw Hl]. destruct w as [|c w _] using rev_ind; [simpl in Hl; lia|].
  apply Forall_app in Hw as [_ Hc]. apply Forall_inv in Hc.
  exists c. unfold last_or. by rewrite last_snoc.
Qed.

(** *** The pattern, element by element, on a text that fits *)
Lemma run_WordB_take {A} ic cur caps (k : cursor → list str → option A) x :
  at_boundary (prev cur) (rest cur) = true →
  k cur caps = Some x →
  run ic WordB cur caps k = Some x.
Proof. cbn [run]. by intros ->. Qed.

Lemma run_Rep_take {A} ic p lo hi prev0 pos0 w s' caps
    (k : cursor → list str → option A) x :
  Forall (λ c, p c = true) w →
  (lo ≤ length w)%nat →
  (∀ h, hi = Some h → (length w ≤ h)%nat) →
  hi = Some (length w) ∨ from_option p false (head s') = false →
  k (Cursor (last_or prev0 w) (pos0 + length w) s') caps = Some x →
  run ic (Rep p lo hi) (Cursor prev0 pos0 (w ++ s')) caps k = Some x.
Proof. intros. cbn [run prev pos rest]. by apply rep_longest. Qed.

Lemma run_Grp_Rep_take {A} ic p lo hi prev0 pos0 w s' caps
    (k : cursor → list str → option A) x :
  Forall (λ c, p c = true) w →
  (lo ≤ length w)%nat →
  (∀ h, hi = Some h → (length w ≤ h)%nat) →
  hi = Some (length w) ∨ from_option p false (head s') = false →
  k (Cursor (last_or prev0 w) (pos0 + length w) s') (caps ++ [w]) = Some x →
  run ic (Grp (Rep p lo hi)) (Cursor prev0 pos0 (w ++ s')) caps k = Some x.
Proof.
  intros Hw Hlo Hhi Hstop Hk. cbn [run prev pos rest].
  apply rep_longest; [done..|]. cbn [pos].
  replace (pos0 + length w - pos0)%nat with (length w) by lia.
  by rewrite take_app_length.
Qed.

Lemma sub_3 n : (S (S (S n)) - n)%nat = 3%nat.
Proof. lia. Qed.

(** The group of the month name takes the three letters of a month. *)
Lemma run_Grp_month_abbr_take {A} w month p n s caps
    (k : cursor → list str → option A) :
  month_of w month →
  run true (Grp month_abbr) (Cursor p n (w ++ s)) caps k
  = k (Cursor (last w) (S (S (S n))) s) (caps ++ [w]).
Proof.
  intros [Hl Hm]. destruct w as [|a [|b [|c [|? ?]]]]; try done.
  apply elem_of_list_to_map_2 in Hm. cbn [Str.lower map] in Hm.
  change (run true (Grp month_abbr) (Cursor p n ([a; b; c] ++ s)) caps k)
    with (run true month_abbr (Cursor p n (a :: b :: c :: s)) caps
            (λ cur' caps',
               k cur' (caps' ++ [take (pos cur' - n) (a :: b :: c :: s)]))).
  unfold month_abbr, alt, lit, cat.
  cbn [foldl foldr fmap list_fmap list_ascii_of_string run rest pos prev].
  unfold lit_matches. rewrite !sub_3. cbn [take].
  change (last [a; b; c]) with (Some c).
  repeat (apply elem_of_cons in Hm as [[= Ha Hb Hc _]|Hm];
          [rewrite Ha, Hb, Hc; clear Ha Hb Hc;
           destruct (k _ _); reflexivity|]).
  by apply elem_of_nil in Hm.
Qed.

Lemma at_boundary_start prev0 s c :
  no_word_char prev0 → head s = Some c → is_word c = true →
  at_boundary prev0 s = true.
Proof.
  unfold no_word_char, at_boundary. intros -> -> Hc. simpl. by rewrite Hc.
Qed.

Lemma at_boundary_end p w c s :
  last_or p w = Some c → is_decimal c = true → no_word_char (head s) →
  at_boundary (last_or p w) s = true.
Proof.
  unfold no_word_char, at_boundary. intros -> Hc ->. simpl.
  by rewrite (is_decimal_is_word c Hc).
Qed.

(** The third date pattern matches a date with the name of the month
    in the middle that stands between two characters that are no word
    characters (or the ends of the text). *)
Lemma pattern_d_month_y_matches prev0 day sp1 mon rw sp2 year month post :
  decimal_digits 1 2 day → white_space sp1 → month_of mon month →
  Forall (λ c, is_word c = true) rw → white_space sp2 →
  decimal_digits 4 4 year →
  no_word_char prev0 → no_word_char (head post) →
  match_at true pattern_d_month_y prev0
    (day_month_year day sp1 mon rw sp2 year ++ post)
  = Some (Match [day; mon; year]
            (length (day_month_year day sp1 mon rw sp2 year))).
Proof.
  intros Hday Hsp1 Hmon Hrw Hsp2 Hyear Hbefore Hafter.
  unfold match_at, pattern_d_month_y, cat, range, exactly, plus, star,
    day_month_year.
  cbn [foldr]. rewrite <- !app_assoc.
  destruct (decimal_digits_head _ _ _
              (sp1 ++ mon ++ rw ++ sp2 ++ year ++ post) Hday)
    as (d1 & Hd1 & Hd1').
  destruct (white_space_head sp1 (mon ++ rw ++ sp2 ++ year ++ post) Hsp1)
    as (s1 & Hs1 & Hs1').
  destruct (month_of_first mon month (rw ++ sp2 ++ year ++ post) Hmon)
    as (_ & Hm1 & _).
  destruct (white_space_head sp2 (year ++ post) Hsp2) as (s2 & Hs2 & Hs2').
  destruct (decimal_digits_head _ _ _ post Hyear) as (y1 & Hy1 & Hy1').
  destruct Hday as [Hday Hdl]. destruct Hyear as [Hyear Hyl].
  destruct Hsp1 as [Hne1 Hsp1]. destruct Hsp2 as [Hne2 Hsp2].
  rewrite run_Cat. apply run_WordB_take.
  { apply (at_boundary_start _ _ d1); [done..|by apply is_decimal_is_word]. }
  cbn beta.
  rewrite run_Cat.
  apply run_Grp_Rep_take;
    [done|lia|by intros ? [= <-]; lia|
     right; rewrite Hs1; simpl; by apply is_space_not_decimal|].
  cbn beta.
  rewrite run_Cat.
  apply run_Rep_take;
    [done|by destruct sp1; [|simpl; lia]|done|by right|].
  cbn beta.
  rewrite run_Cat, (run_Grp_month_abbr_take mon month) by done.
  rewrite run_Cat.
  apply run_Rep_take;
    [done|lia|done|
     right; rewrite Hs2; simpl; by apply is_space_not_word|].
  cbn beta.
  rewrite run_Cat.
  apply run_Rep_take;
    [done|by destruct sp2; [|simpl; lia]|done|
     right; rewrite Hy1; simpl; by apply is_decimal_not_space|].
  cbn beta.
  rewrite run_Cat.
  apply run_Grp_Rep_take;
    [done|lia|by intros ? [= <-]; lia|left; f_equal; lia|].
  cbn beta.
  rewrite run_Cat. apply run_WordB_take.
  { cbn [prev rest].
    destruct (decimal_digits_last 3 4 year
                (last_or (last_or (last mon) rw) sp2) (conj Hyear Hyl))
      as (y4 & Hy4 & Hy4').
    by apply (at_boundary_end _ _ y4). }
  cbn [run pos app]. f_equal. f_equal.
  destruct Hmon as [Hml _]. rewrite !length_app, Hml. lia.
Qed.

(** The fourth date pattern, on a date with the name of the month
    first. *)
Lemma pattern_month_d_y_matches prev0 mon rw sp1 day comma sp2 year month
    post :
  month_of mon month → Forall (λ c, is_word c = true) rw →
  white_space sp1 → decimal_digits 1 2 day →
  comma = [] ∨ comma = [","%char] →
  white_space sp2 → decimal_digits 4 4 year →
  no_word_char prev0 → no_word_char (head post) →
  match_at true pattern_month_d_y prev0
    (month_day_year mon rw sp1 day comma sp2 year ++ post)
  = Some (Match [mon; day; year]
            (length (month_day_year mon rw sp1 day comma sp2 year))).
Proof.
  intros Hmon Hrw Hsp1 Hday Hcomma Hsp2 Hyear Hbefore Hafter.
  unfold match_at, pattern_month_d_y, cat, range, exactly, plus, star, opt,
    month_day_year.
  cbn [foldr]. rewrite <- !app_assoc.
  destruct (month_of_first mon month
              (rw ++ sp1 ++ day ++ comma ++ sp2 ++ year ++ post) Hmon)
    as (Hm1 & _ & _).
  destruct (white_space_head sp1 (day ++ comma ++ sp2 ++ year ++ post) Hsp1)
    as (s1 & Hs1 & Hs1').
  destruct (decimal_digits_head _ _ _ (comma ++ sp2 ++ year ++ post) Hday)
    as (d1 & Hd1 & Hd1').
  destruct (white_space_head sp2 (year ++ post) Hsp2) as (s2 & Hs2 & Hs2').
  destruct (decimal_digits_head _ _ _ post Hyear) as (y1 & Hy1 & Hy1').
  destruct Hday as [Hday Hdl]. destruct Hyear as [Hyear Hyl].
  destruct Hsp1 as [Hne1 Hsp1]. destruct Hsp2 as [Hne2 Hsp2].
  rewrite run_Cat. apply run_WordB_take.
  { cbn [prev rest]. unfold at_boundary. unfold no_word_char in Hbefore.
    by rewrite Hbefore, Hm1. }
  cbn beta.
  rewrite run_Cat, (run_Grp_month_abbr_take mon month) by done.
  rewrite run_Cat.
  apply run_Rep_take;
    [done|lia|done|
     right; rewrite Hs1; simpl; by apply is_space_not_word|].
  cbn beta.
  rewrite run_Cat.
  apply run_Rep_take;
    [done|by destruct sp1; [|simpl; lia]|done|
     right; rewrite Hd1; simpl; by apply is_decimal_not_space|].
  cbn beta.
  rewrite run_Cat.
  apply run_Grp_Rep_take;
    [done|lia|by intros ? [= <-]; lia| |].
  { right. destruct Hcomma as [-> | ->]; [|done].
    rewrite app_nil_l, Hs2. simpl. by apply is_space_not_decimal. }
  cbn beta.
  rewrite run_Cat.
  apply run_Rep_take; [| | | |].
  { destruct Hcomma as [-> | ->]; by repeat constructor. }
  { lia. }
  { intros ? [= <-]. destruct Hcomma as [-> | ->]; simpl; lia. }
  { destruct Hcomma as [-> | ->]; [right|by left].
    rewrite Hs2. simpl. by apply is_space_not_comma. }
  cbn beta.
  rewrite run_Cat.
  apply run_Rep_take;
    [done|by destruct sp2; [|simpl; lia]|done|
     right; rewrite Hy1; simpl; by apply is_decimal_not_space|].
  cbn beta.
  rewrite run_Cat.
  apply run_Grp_Rep_take;
    [done|lia|by intros ? [= <-]; lia|left; f_equal; lia|].
  cbn beta.
  rewrite run_Cat. apply run_WordB_take.
  { cbn [prev rest].
    destruct (decimal_digits_last 3 4 year
                (last_or (last_or (last_or (last_or (last_or (last mon) rw)
                                              sp1) day) comma) sp2)
                (conj Hyear Hyl))
      as (y4 & Hy4 & Hy4').
    by apply (at_boundary_end _ _ y4). }
  cbn [run pos app]. f_equal. f_equal.
  destruct Hmon as [Hml _]. rewrite !length_app, Hml. lia.
Qed.

(** *** What a match of these patterns has matched *)
Lemma pattern_d_month_y_shape prev0 s m :
  match_at true pattern_d_month_y prev0 s = Some m →
  ∃ v1 t1 v2 rw t2 v3 s' month,
    s = v1 ++ t1 ++ v2 ++ rw ++ t2 ++ v3 ++ s'
    ∧ decimal_digits 1 2 v1 ∧ white_space t1 ∧ month_of v2 month
    ∧ Forall (λ c, is_word c = true) rw ∧ white_space t2
    ∧ decimal_digits 4 4 v3
    ∧ span m = length (v1 ++ t1 ++ v2 ++ rw ++ t2 ++ v3).
Proof.
  unfold match_at, pattern_d_month_y, cat, range, exactly, plus, star.
  cbn [foldr]. intros Hrun.
  rewrite run_Cat in Hrun. apply run_WordB_Some in Hrun as [_ Hrun].
  cbn beta in Hrun. rewrite run_Cat in Hrun.
  apply run_Grp_Rep_Some in Hrun as (v1 & s1 & E1 & Hv1 & Hlo1 & Hhi1 & Hrun).
  cbn beta in Hrun. rewrite run_Cat in Hrun.
  apply run_Rep_Some in Hrun as (t1 & s2 & E2 & Ht1 & Hlo2 & _ & Hrun).
  cbn beta in Hrun. rewrite run_Cat in Hrun.
  apply run_Grp_month_abbr_Some in Hrun as (v2 & s3 & month & E3 & Hv2 & Hrun).
  cbn beta in Hrun. rewrite run_Cat in Hrun.
  apply run_Rep_Some in Hrun as (rw & s4 & E4 & Hrw & _ & _ & Hrun).
  cbn beta in Hrun. rewrite run_Cat in Hrun.
  apply run_Rep_Some in Hrun as (t2 & s5 & E5 & Ht2 & Hlo5 & _ & Hrun).
  cbn beta in Hrun. rewrite run_Cat in Hrun.
  apply run_Grp_Rep_Some in Hrun as (v3 & s6 & E6 & Hv3 & Hlo6 & Hhi6 & Hrun).
  cbn beta in Hrun. rewrite run_Cat in Hrun.
  apply run_WordB_Some in Hrun as [_ Hrun].
  cbn [run] in Hrun. injection Hrun as <-.
  cbn [rest prev pos] in *. subst.
  specialize (Hhi1 _ eq_refl). specialize (Hhi6 _ eq_refl).
  exists v1, t1, v2, rw, t2, v3, s6, month.
  split_and!; try done.
  - split; [intros ->; simpl in *; lia|done].
  - split; [intros ->; simpl in *; lia|done].
  - cbn [span]. destruct Hv2 as [Hl _]. rewrite !length_app, Hl. lia.
Qed.

Lemma pattern_month_d_y_shape prev0 s m :
  match_at true pattern_month_d_y prev0 s = Some m →
  ∃ v1 rw t1 v2 cm t2 v3 s' month,
    s = v1 ++ rw ++ t1 ++ v2 ++ cm ++ t2 ++ v3 ++ s'
    ∧ month_of v1 month ∧ Forall (λ c, is_word c = true) rw
    ∧ white_space t1 ∧ decimal_digits 1 2 v2
    ∧ Forall (λ c, one_of "," c = true) cm
    ∧ white_space t2 ∧ decimal_digits 4 4 v3
    ∧ span m = length (v1 ++ rw ++ t1 ++ v2 ++ cm ++ t2 ++ v3).
Proof.
  unfold match_at, pattern_month_d_y, cat, range, exactly, plus, star, opt.
  cbn [foldr]. intros Hrun.
  rewrite run_Cat in Hrun. apply run_WordB_Some in Hrun as [_ Hrun].
  cbn beta in Hrun. rewrite run_Cat in Hrun.
  apply run_Grp_month_abbr_Some in Hrun as (v1 & s1 & month & E1 & Hv1 & Hrun).
  cbn beta in Hrun. rewrite run_Cat in Hrun.
  apply run_Rep_Some in Hrun as (rw & s2 & E2 & Hrw & _ & _ & Hrun).
  cbn beta in Hrun. rewrite run_Cat in Hrun.
  apply run_Rep_Some in Hrun as (t1 & s3 & E3 & Ht1 & Hlo3 & _ & Hrun).
  cbn beta in Hrun. rewrite run_Cat in Hrun.
  apply run_Grp_Rep_Some in Hrun as (v2 & s4 & E4 & Hv2 & Hlo4 & Hhi4 & Hrun).
  cbn beta in Hrun. rewrite run_Cat in Hrun.
  apply run_Rep_Some in Hrun as (cm & s5 & E5 & Hcm & _ & _ & Hrun).
  cbn beta in Hrun. rewrite run_Cat in Hrun.
  apply run_Rep_Some in Hrun as (t2 & s6 & E6 & Ht2 & Hlo6 & _ & Hrun).
  cbn beta in Hrun. rewrite run_Cat in Hrun.
  apply run_Grp_Rep_Some in Hrun as (v3 & s7 & E7 & Hv3 & Hlo7 & Hhi7 & Hrun).
  cbn beta in Hrun. rewrite run_Cat in Hrun.
  apply run_WordB_Some in Hrun as [_ Hrun].
  cbn [run] in Hrun. injection Hrun as <-.
  cbn [rest prev pos] in *. subst.
  specialize (Hhi4 _ eq_refl). specialize (Hhi7 _ eq_refl).
  exists v1, rw, t1, v2, cm, t2, v3, s7, month.
  split_and!; try done.
  - split; [intros ->; simpl in *; lia|done].
  - split; [intros ->; simpl in *; lia|done].
  - cbn [span]. destruct Hv1 as [Hl _]. rewrite !length_app, Hl. lia.
Qed.

(** *** A match that starts earlier ends earlier *)

(** Where a character of a text made of two parts stands: in the
    second part, or in the first. *)
Lemma app_split_at {A} (l1 l2 pre : list A) x T :
  l1 ++ l2 = pre ++ x :: T →
  (∃ pre', pre = l1 ++ pre' ∧ l2 = pre' ++ x :: T)
  ∨ (∃ l1b, l1 = pre ++ x :: l1b ∧ T = l1b ++ l2).
Proof.
  revert pre. induction l1 as [|a l1 IH]; intros pre Heq.
  - left. by exists pre.
  - destruct pre as [|b pre]; simpl in Heq.
    + injection Heq as -> <-. right. by exists l1.
    + injection Heq as -> Heq.
      apply IH in Heq as [(pre' & -> & ->) | (l1b & -> & ->)].
      * left. by exists pre'.
      * right. by exists l1b.
Qed.

(** A run of word characters does not hold a character that is no word
    character. *)
Lemma word_run_skips l1 l2 pre x T :
  Forall (λ c, is_word c = true) l1 →
  is_word x = false →
  l1 ++ l2 = pre ++ x :: T →
  ∃ pre', pre = l1 ++ pre' ∧ l2 = pre' ++ x :: T.
Proof.
  intros Hl1 Hx [?|(l1b & -> & _)]%app_split_at; [done|].
  apply Forall_app in Hl1 as [_ Hl1]. apply Forall_inv in Hl1. congruence.
Qed.

Lemma decimal_digits_word lo hi w :
  decimal_digits lo hi w → Forall (λ c, is_word c = true) w.
Proof.
  intros [Hw _]. eapply Forall_impl; [exact Hw|].
  intros c. apply is_decimal_is_word.
Qed.

(** A run of white space that holds the character before a text that
    starts with no white space ends with that character. *)
Lemma space_run_stops l1 l2 pre x T :
  Forall (λ c, is_space c = true) l1 →
  from_option is_space false (head T) = false →
  l1 ++ l2 = pre ++ x :: T →
  (∃ pre', pre = l1 ++ pre' ∧ l2 = pre' ++ x :: T)
  ∨ (l1 = pre ++ [x] ∧ T = l2).
Proof.
  intros Hl1 HT [?|(l1b & -> & ->)]%app_split_at; [by left|right].
  destruct l1b as [|c l1b]; [done|].
  apply Forall_app in Hl1 as [_ Hl1]. apply Forall_cons in Hl1 as [_ Hl1].
  apply Forall_inv in Hl1. simpl in HT. congruence.
Qed.

Lemma pattern_d_month_y_stops_before prev0 pre x day sp1 mon rw sp2 year
    month post m :
  decimal_digits 1 2 day → white_space sp1 → month_of mon month →
  Forall (λ c, is_word c = true) rw → white_space sp2 →
  decimal_digits 4 4 year →
  is_word x = false →
  match_at true pattern_d_month_y prev0
    (pre ++ x :: day_month_year day sp1 mon rw sp2 year ++ post) = Some m →
  (span m ≤ S (length pre))%nat.
Proof.
  intros Hday Hsp1 Hmon Hrw Hsp2 Hyear Hx Hm.
  apply pattern_d_month_y_shape in Hm
    as (v1 & t1 & v2 & rw' & t2 & v3 & s' & month' & Heq & Hv1 & Ht1 & Hv2
        & Hrw' & Ht2 & Hv3 & ->).
  unfold day_month_year in Heq. rewrite <- !app_assoc in Heq.
  destruct (decimal_digits_head _ _ _
              (sp1 ++ mon ++ rw ++ sp2 ++ year ++ post) Hday)
    as (d1 & Hd1 & Hd1').
  assert (from_option is_space false
            (head (day ++ sp1 ++ mon ++ rw ++ sp2 ++ year ++ post)) = false)
    as Hstart by (rewrite Hd1; simpl; by apply is_decimal_not_space).
  symmetry in Heq.
  apply word_run_skips in Heq
    as (pre1 & -> & Heq); [|by eapply decimal_digits_word|done].
  apply space_run_stops in Heq
    as [(pre2 & -> & Heq) | [_ Heq]]; [| |apply Ht1|done].
  - apply word_run_skips in Heq
      as (pre3 & -> & Heq); [|by eapply month_of_word|done].
    apply word_run_skips in Heq
      as (pre4 & -> & Heq); [|done..].
    apply space_run_stops in Heq
      as [(pre5 & -> & Heq) | [_ Heq]]; [| |apply Ht2|done].
    + apply word_run_skips in Heq
        as (pre6 & -> & Heq); [|by eapply decimal_digits_word|done].
      rewrite !length_app. lia.
    + (* the year of the match would start with the day *)
      exfalso. destruct Hsp1 as [Hne Hsp1].
      destruct sp1 as [|c sp1]; [done|]. apply Forall_cons in Hsp1 as [Hc _].
      apply is_space_not_decimal in Hc.
      apply decimal_digits_4 in Hv3 as (e & f & g & h & -> & Hv3).
      apply Forall_cons in Hv3 as [He Hv3]. apply Forall_cons in Hv3 as [Hf Hv3].
      apply Forall_cons in Hv3 as [Hg Hv3].
      apply decimal_digits_1_2 in Hday
        as [(a & -> & Ha) | (a & b & -> & Ha & Hb)];
        simpl in Heq; simplify_eq; congruence.
  - (* the month of the match would start with the day *)
    exfalso.
    destruct (month_of_first v2 month' (rw' ++ t2 ++ v3 ++ s') Hv2)
      as (_ & _ & Hnd).
    rewrite <- Heq, Hd1 in Hnd. simpl in Hnd. congruence.
Qed.

Lemma pattern_month_d_y_stops_before prev0 pre x mon rw sp1 day comma sp2
    year month post m :
  month_of mon month →
  is_word x = false →
  match_at true pattern_month_d_y prev0
    (pre ++ x :: month_day_year mon rw sp1 day comma sp2 year ++ post)
  = Some m →
  (span m ≤ S (length pre))%nat.
Proof.
  intros Hmon Hx Hm.
  apply pattern_month_d_y_shape in Hm
    as (v1 & rw' & t1 & v2 & cm & t2 & v3 & s' & month' & Heq & Hv1 & Hrw'
        & Ht1 & Hv2 & Hcm & Ht2 & Hv3 & ->).
  unfold month_day_year in Heq. rewrite <- !app_assoc in Heq.
  destruct (month_of_first mon month
              (rw ++ sp1 ++ day ++ comma ++ sp2 ++ year ++ post) Hmon)
    as (_ & Hns & Hnd).
  symmetry in Heq.
  apply word_run_skips in Heq
    as (pre1 & -> & Heq); [|by eapply month_of_word|done].
  apply word_run_skips in Heq
    as (pre2 & -> & Heq); [|done..].
  apply space_run_stops in Heq
    as [(pre3 & -> & Heq) | [_ Heq]]; [| |apply Ht1|done].
  - apply word_run_skips in Heq
      as (pre4 & -> & Heq); [|by eapply decimal_digits_word|done].
    apply app_split_at in Heq as [(pre5 & -> & Heq) | (cmb & -> & Heq)].
    + apply space_run_stops in Heq
        as [(pre6 & -> & Heq) | [_ Heq]]; [| |apply Ht2|done].
      * apply word_run_skips in Heq
          as (pre7 & -> & Heq); [|by eapply decimal_digits_word|done].
        rewrite !length_app. lia.
      * (* the year of the match would start with the month *)
        exfalso.
        destruct (decimal_digits_head _ _ _ s' Hv3) as (y1 & Hy1 & Hy1').
        rewrite Heq, Hy1 in Hnd. simpl in Hnd. congruence.
    + (* the comma of the match stands before the month *)
      exfalso. destruct cmb as [|c cmb].
      * simpl in Heq.
        destruct (white_space_head t2 (v3 ++ s') Ht2) as (c & Hc & Hc').
        rewrite Heq, Hc in Hns. simpl in Hns. congruence.
      * apply Forall_app in Hcm as [_ Hcm].
        apply Forall_cons in Hcm as [_ Hcm]. apply Forall_inv in Hcm.
        apply comma_not_word in Hcm.
        destruct (month_of_first mon month
                    (rw ++ sp1 ++ day ++ comma ++ sp2 ++ year ++ post) Hmon)
          as (Hw & _ & _).
        rewrite Heq in Hw. simpl in Hw. congruence.
  - (* the day of the match would start with the month *)
    exfalso.
    destruct (decimal_digits_head _ _ _ (cm ++ t2 ++ v3 ++ s') Hv2)
      as (y1 & Hy1 & Hy1').
    rewrite Heq, Hy1 in Hnd. simpl in Hnd. congruence.
Qed.

(** X19: a date written as the day (one or two digits), white space, a
    word that starts with the three letters of a month in upper or lower
    case, white space and the year (four digits), with no word character
    right before it and none right after it, is found by the third
    pattern and read as that day, month and year.  The result holds the
    date when there is such a date; otherwise the candidate raises
    [ValueError] in the [try], and the loop goes on with the list of
    dates unchanged. *)
Theorem X19_day_month_year
    (pre post day sp1 mon rest_of_word sp2 year : str) (month : Z) :
  decimal_digits 1 2 day → white_space sp1 → month_of mon month →
  Forall (λ c, is_word c = true) rest_of_word → white_space sp2 →
  decimal_digits 4 4 year →
  no_word_char (last pre) → no_word_char (head post) →
  Match [day; mon; year]
    (length (day_month_year day sp1 mon rest_of_word sp2 year))
    ∈ finditer true pattern_d_month_y
        (pre ++ day_month_year day sp1 mon rest_of_word sp2 year ++ post)
  ∧ (datetime.check_date_fields (Str.digits_value year) month
       (Str.digits_value day) = true →
     ∃ dt,
       datetime.fields dt
       = (Str.digits_value year, month, Str.digits_value day)
       ∧ dt ∈ parse_dates_from_text
                (pre ++ day_month_year day sp1 mon rest_of_word sp2 year
                 ++ post))
  ∧ (datetime.check_date_fields (Str.digits_value year) month
       (Str.digits_value day) = false →
     ∀ dates,
       try_match [day; mon; year] dates = ValueError
       ∧ mine_match dates
           (Match [day; mon; year]
              (length (day_month_year day sp1 mon rest_of_word sp2 year)))
         = dates).
Proof.
  intros Hday Hsp1 Hmon Hrw Hsp2 Hyear Hbefore Hafter.
  assert (Match [day; mon; year]
            (length (day_month_year day sp1 mon rest_of_word sp2 year))
          ∈ finditer true pattern_d_month_y
              (pre ++ day_month_year day sp1 mon rest_of_word sp2 year
               ++ post)) as Hfound.
  { apply finditer_reaches; [|intros prev1 pre' x m' Hx|done].
    - intros prev1 Hprev1. by eapply pattern_d_month_y_matches.
    - by eapply pattern_d_month_y_stops_before. }
  split; [done|].
  apply (mined_or_raised pattern_d_month_y _
           (Match [day; mon; year]
              (length (day_month_year day sp1 mon rest_of_word sp2 year))));
    [|done|].
  - unfold date_patterns. do 2 right. left.
  - by apply date_of_groups_d_month_y.
Qed.

(** X20: a date written as a word that starts with the three letters of
    a month, white space, the day (one or two digits), a comma or none,
    white space and the year (four digits), with no word character right
    before it and none right after it, is found by the fourth pattern
    and read as that month, day and year.  The result holds the date
    when there is such a date; otherwise the candidate raises
    [ValueError] in the [try], and the loop goes on with the list of
    dates unchanged. *)
Theorem X20_month_day_year
    (pre post mon rest_of_word sp1 day comma sp2 year : str) (month : Z) :
  month_of mon month → Forall (λ c, is_word c = true) rest_of_word →
  white_space sp1 → decimal_digits 1 2 day →
  comma = [] ∨ comma = [","%char] →
  white_space sp2 → decimal_digits 4 4 year →
  no_word_char (last pre) → no_word_char (head post) →
  Match [mon; day; year]
    (length (month_day_year mon rest_of_word sp1 day comma sp2 year))
    ∈ finditer true pattern_month_d_y
        (pre ++ month_day_year mon rest_of_word sp1 day comma sp2 year
         ++ post)
  ∧ (datetime.check_date_fields (Str.digits_value year) month
       (Str.digits_value day) = true →
     ∃ dt,
       datetime.fields dt
       = (Str.digits_value year, month, Str.digits_value day)
       ∧ dt ∈ parse_dates_from_text
                (pre ++ month_day_year mon rest_of_word sp1 day comma sp2
                          year
                 ++ post))
  ∧ (datetime.check_date_fields (Str.digits_value year) month
       (Str.digits_value day) = false →
     ∀ dates,
       try_match [mon; day; year] dates = ValueError
       ∧ mine_match dates
           (Match [mon; day; year]
              (length
                 (month_day_year mon rest_of_word sp1 day comma sp2 year)))
         = dates).
Proof.
  intros Hmon Hrw Hsp1 Hday Hcomma Hsp2 Hyear Hbefore Hafter.
  assert (Match [mon; day; year]
            (length (month_day_year mon rest_of_word sp1 day comma sp2 year))
          ∈ finditer true pattern_month_d_y
              (pre ++ month_day_year mon rest_of_word sp1 day comma sp2 year
               ++ post)) as Hfound.
  { apply finditer_reaches; [|intros prev1 pre' x m' Hx|done].
    - intros prev1 Hprev1. by eapply pattern_month_d_y_matches.
    - by eapply pattern_month_d_y_stops_before. }
  split; [done|].
  apply (mined_or_raised pattern_month_d_y _
           (Match [mon; day; year]
              (length
                 (month_day_year mon rest_of_word sp1 day comma sp2 year))));
    [|done|].
  - unfold date_patterns. do 3 right. left.
  - by apply date_of_groups_month_d_y.
Qed.

End named_months.

(** X19 on the fifteenth of March. *)
Lemma X19_witness :
  decimal_digits 1 2 "15" ∧ white_space " " ∧ month_of "Mar" 3
  ∧ Forall (λ c, Unicode.is_word c = true) ("ch" : str) ∧ white_space " "
  ∧ decimal_digits 4 4 "2024"
  ∧ no_word_char (last ("Worked on " : str))
  ∧ no_word_char (head ("." : str))
  ∧ ∃ dt,
      datetime.fields dt = (2024, 3, 15)
      ∧ dt ∈ @parse_dates_from_text last_occurrence_order
               ("Worked on " ++ day_month_year "15" " " "Mar" "ch" " " "2024"
                ++ ".").
Proof.
  assert (decimal_digits 1 2 "15") as Hday
    by (split; [by repeat constructor|simpl; lia]).
  assert (white_space " ") as Hsp
    by (split; [done|by repeat constructor]).
  assert (month_of "Mar" 3) as Hmon by (split; [done|by vm_compute]).
  assert (Forall (λ c, Unicode.is_word c = true) ("ch" : str)) as Hrw
    by (by repeat constructor).
  assert (decimal_digits 4 4 "2024") as Hyear
    by (split; [by repeat constructor|simpl; lia]).
  assert (no_word_char (last ("Worked on " : str))) as Hbefore by reflexivity.
  assert (no_word_char (head ("." : str))) as Hafter by reflexivity.
  split_and!; [done..|].
  exact (proj1 (proj2 (@X19_day_month_year last_occurrence_order
                         "Worked on " "." "15" " " "Mar" "ch" " " "2024" 3
                         Hday Hsp Hmon Hrw Hsp Hyear Hbefore Hafter))
           eq_refl).
Defined.

(** X20 on the same day, in capitals and with a comma. *)
Lemma X20_witness :
  month_of "MAR" 3
  ∧ Forall (λ c, Unicode.is_word c = true) ("CH" : str) ∧ white_space " "
  ∧ decimal_digits 1 2 "15" ∧ (("," : str) = [] ∨ ("," : str) = [","%char])
  ∧ white_space " " ∧ decimal_digits 4 4 "2024"
  ∧ no_word_char (last ("Due: " : str))
  ∧ no_word_char (head ("" : str))
  ∧ ∃ dt,
      datetime.fields dt = (2024, 3, 15)
      ∧ dt ∈ @parse_dates_from_text last_occurrence_order
               ("Due: "
                ++ month_day_year "MAR" "CH" " " "15" "," " " "2024" ++ "").
Proof.
  assert (month_of "MAR" 3) as Hmon by (split; [done|by vm_compute]).
  assert (Forall (λ c, Unicode.is_word c = true) ("CH" : str)) as Hrw
    by (by repeat constructor).
  assert (white_space " ") as Hsp
    by (split; [done|by repeat constructor]).
  assert (decimal_digits 1 2 "15") as Hday
    by (split; [by repeat constructor|simpl; lia]).
  assert (("," : str) = [] ∨ ("," : str) = [","%char]) as Hcomma
    by (by right).
  assert (decimal_digits 4 4 "2024") as Hyear
    by (split; [by repeat constructor|simpl; lia]).
  assert (no_word_char (last ("Due: " : str))) as Hbefore by reflexivity.
  assert (no_word_char (head ("" : str))) as Hafter by reflexivity.
  split_and!; [done..|].
  exact (proj1 (proj2 (@X20_month_day_year last_occurrence_order
                         "Due: " "" "MAR" "CH" " " "15" "," " " "2024" 3
                         Hmon Hrw Hsp Hday Hcomma Hsp Hyear Hbefore Hafter))
           eq_refl).
Defined.
(** ** The clients entered by hand *)
Section manual_clients.

Lemma strip_nonempty_trimmed s :
  Str.strip s ≠ [] → Str.strip s ≠ [] ∧ trimmed (Str.strip s).
Proof. intros Hs. split; [done|apply strip_trimmed]. Qed.

Lemma add_client_cases manual_clients name addr :
  (add_client manual_clients name addr = manual_clients
   ∧ (Str.strip name = [] ∨ Str.strip addr = []
      ∨ Str.strip name ∈ entry_name <$> manual_clients))
  ∨ (add_client manual_clients name addr
     = manual_clients ++ [ClientEntry (Str.strip name) (Str.strip addr)]
     ∧ Str.strip name ≠ [] ∧ Str.strip addr ≠ []
     ∧ Str.strip name ∉ entry_name <$> manual_clients).
Proof.
  unfold add_client.
  destruct (Str.strip name) as [|c n] eqn:En; [left; auto|].
  destruct (Str.strip addr) as [|c' a] eqn:Ea; [left; auto|].
  cbn [entry_name]. case_bool_decide; [left; auto|right]. done.
Qed.

(** X12: the form and the buttons keep the list of clients well formed:
    distinct names, and names and addresses that are not empty and
    neither start nor end with white space.  The form adds at most one
    entry, at the end; a name or an address that is blank adds nothing,
    and a name that is in the list already adds nothing and leaves the
    address of that name as it was.  The button of an entry does not
    raise for an index of the list, as are all the indices the page
    makes a button for; it removes one entry and leaves the others. *)
Theorem X12_manual_clients_well_formed
    (manual_clients : list client_entry) (name addr : str) (i : nat) :
  well_formed_clients manual_clients →
  well_formed_clients (add_client manual_clients name addr)
  ∧ (add_client manual_clients name addr = manual_clients
     ∨ add_client manual_clients name addr
       = manual_clients ++ [ClientEntry (Str.strip name) (Str.strip addr)])
  ∧ (add_client manual_clients name addr = manual_clients ↔
     Str.strip name = [] ∨ Str.strip addr = []
     ∨ Str.strip name ∈ entry_name <$> manual_clients)
  ∧ (is_Some (remove_client manual_clients i) ↔
     (i < length manual_clients)%nat)
  ∧ (∀ manual_clients',
       remove_client manual_clients i = Some manual_clients' →
       well_formed_clients manual_clients'
       ∧ S (length manual_clients') = length manual_clients
       ∧ ∀ c, c ∈ manual_clients' → c ∈ manual_clients).
Proof.
  intros [Hnames Hentries]. split_and!.
  - destruct (add_client_cases manual_clients name addr)
      as [[-> _] | (-> & Hn & Ha & Hnew)]; [done|].
    split.
    + rewrite fmap_app. apply NoDup_app. split_and!; [done| |].
      * intros x Hx [->|[]%elem_of_nil]%elem_of_cons. done.
      * apply NoDup_singleton.
    + apply Forall_app. split; [done|]. apply Forall_singleton. cbn.
      split; by apply strip_nonempty_trimmed.
  - destruct (add_client_cases manual_clients name addr)
      as [[-> _] | (-> & _)]; auto.
  - destruct (add_client_cases manual_clients name addr)
      as [[-> Hc] | (-> & Hn & Ha & Hnew)]; [done|].
    split.
    + intros Heq. apply (f_equal length) in Heq.
      rewrite length_app in Heq. simpl in Heq. lia.
    + intros [?|[?|?]]; done.
  - unfold remove_client. by case_decide; split; try done; intros [? ?].
  - unfold remove_client. intros manual_clients' Hpop.
    case_decide as Hi; [|done]. simplify_eq. split_and!.
    + split.
      * rewrite list_fmap_delete.
        eapply sublist_NoDup; [done|apply sublist_delete].
      * by apply Forall_delete.
    + rewrite length_delete; [lia|]. by apply lookup_lt_is_Some_2.
    + intros c Hc. eapply elem_of_sublist; [done|apply sublist_delete].
Qed.

End manual_clients.

(** X12 on a list of one client. *)
Lemma X12_witness :
  well_formed_clients [ClientEntry "Acme Inc" "1 Main St"]
  ∧ well_formed_clients
      (add_client [ClientEntry "Acme Inc" "1 Main St"]
         " Globex " "5 Oak Ave ").
Proof.
  assert (well_formed_clients [ClientEntry "Acme Inc" "1 Main St"]) as Hwf.
  { split; [by apply NoDup_singleton|].
    apply Forall_singleton. by vm_compute. }
  split; [exact Hwf|].
  exact (proj1 (X12_manual_clients_well_formed
                  [ClientEntry "Acme Inc" "1 Main St"]
                  " Globex " "5 Oak Ave " 0 Hwf)).
Defined.

(** ** The matcher on the clients entered by hand *)
Section manual_matches.

Lemma client_address_mapping_of_snoc manual_clients c :
  client_address_mapping_of (manual_clients ++ [c])
  = <[entry_name c := entry_address c]>
      (client_address_mapping_of manual_clients).
Proof. unfold client_address_mapping_of. by rewrite foldl_app. Qed.

(** The mapping holds the names of the list, each with the address of
    its last entry. *)
Lemma client_address_mapping_of_lookup manual_clients name :
  client_address_mapping_of manual_clients !! name
  = entry_address
      <$> last (filter (λ c, entry_name c = name) manual_clients).
Proof.
  induction manual_clients as [|c manual_clients IH] using rev_ind; [done|].
  rewrite client_address_mapping_of_snoc, filter_app, filter_cons, filter_nil.
  case_decide as Hc.
  - rewrite Hc, lookup_insert_eq. by rewrite last_snoc.
  - rewrite lookup_insert_ne by done. by rewrite app_nil_r.
Qed.

Lemma client_address_mapping_of_entry manual_clients c :
  NoDup (entry_name <$> manual_clients) → c ∈ manual_clients →
  client_address_mapping_of manual_clients !! entry_name c
  = Some (entry_address c).
Proof.
  intros Hnames Hc. rewrite client_address_mapping_of_lookup.
  assert (filter (λ c', entry_name c' = entry_name c) manual_clients = [c])
    as ->; [|done].
  induction manual_clients as [|c' manual_clients IH];
    [by apply elem_of_nil in Hc|].
  rewrite fmap_cons in Hnames. apply NoDup_cons in Hnames as [Hc' Hnames].
  rewrite filter_cons. apply elem_of_cons in Hc as [<-|Hc].
  - rewrite decide_True by done. f_equal.
    apply filter_none. intros c'' Hc'' Heq.
    apply Hc'. rewrite <- Heq. by apply list_elem_of_fmap_2.
  - rewrite decide_False; [by apply IH|].
    intros Heq. apply Hc'. rewrite Heq. by apply list_elem_of_fmap_2.
Qed.

Lemma client_address_mapping_of_None manual_clients name :
  client_address_mapping_of manual_clients !! name = None
  ↔ name ∉ entry_name <$> manual_clients.
Proof.
  rewrite client_address_mapping_of_lookup, fmap_None, last_None.
  rewrite list_elem_of_fmap. split.
  - intros Hnil (c & -> & Hc).
    by apply (filter_nil_not_elem_of _ _ c Hnil).
  - intros Hnot. apply filter_none. intros c Hc Heq.
    apply Hnot. by exists c.
Qed.

Lemma records_for_manual_clients rd tag manual_clients cam :
  (∀ c, c ∈ manual_clients → cam !! entry_name c = Some (entry_address c)) →
  records_for rd tag (client_names_of manual_clients) cam
  = (λ c, MatchRecord rd (entry_name c) (entry_address c) tag)
      <$> manual_clients.
Proof.
  intros Hcam. unfold records_for, client_names_of.
  induction manual_clients as [|c manual_clients IH]; [done|]. csimpl.
  rewrite (Hcam c) by left. simpl. f_equal. apply IH.
  intros c' Hc'. apply Hcam. by right.
Qed.

(** X13: once clients with distinct names are entered by hand, the
    matcher works on them alone.  A receipt date that is a date of the
    report gives one record per client entered, in the order of entry,
    with the address entered for the client and the tag [exact];
    whatever the receipt dates, every record of the output carries a
    client entered by hand with the address entered for that client; and
    the mapping has no key but the names entered. *)
Theorem X13_matches_on_manual_clients
    (manual_clients : list client_entry) (client_address_mapping : gmap str str)
    (time_report_data : time_report) (receipt_dates : list datetime.date) :
  NoDup (entry_name <$> manual_clients) → manual_clients ≠ [] →
  (∀ receipt_date,
     receipt_date ∈ dates time_report_data →
     best_matches_for receipt_date
       (update_session manual_clients client_address_mapping
          time_report_data).2
       (update_session manual_clients client_address_mapping
          time_report_data).1
     = (λ c, MatchRecord receipt_date (entry_name c) (entry_address c)
               tag_exact) <$> manual_clients)
  ∧ (∀ r,
       r ∈ match_dates_to_clients receipt_dates
             (update_session manual_clients client_address_mapping
                time_report_data).2
             (update_session manual_clients client_address_mapping
                time_report_data).1 →
       ClientEntry (client r) (address r) ∈ manual_clients)
  ∧ (∀ name,
       (update_session manual_clients client_address_mapping
          time_report_data).1 !! name = None
       ↔ name ∉ entry_name <$> manual_clients).
Proof.
  intros Hnames Hne.
  assert (update_session manual_clients client_address_mapping
            time_report_data
          = (client_address_mapping_of manual_clients,
             TimeReport (dates time_report_data)
               (client_names_of manual_clients))) as ->
    by (by destruct manual_clients).
  cbn [fst snd].
  pose proof (λ c, client_address_mapping_of_entry manual_clients c Hnames)
    as Hcam.
  split_and!; [| |apply client_address_mapping_of_None].
  - intros rd Hrd.
    destruct (best_matches_for_cases rd
                (TimeReport (dates time_report_data)
                   (client_names_of manual_clients))
                (client_address_mapping_of manual_clients))
      as [[Hnil _] | (_ & _ & ->)].
    + rewrite exact_pass_eq in Hnil. cbn [dates clients] in Hnil.
      rewrite bool_decide_eq_true_2 in Hnil by done.
      rewrite records_for_manual_clients in Hnil by done.
      apply fmap_nil_inv in Hnil. done.
    + cbn [clients]. by apply records_for_manual_clients.
  - intros r (rd & _ & Hr)%elem_of_match_dates_to_clients.
    assert (∀ tag, r ∈ records_for rd tag (client_names_of manual_clients)
                         (client_address_mapping_of manual_clients) →
                   ClientEntry (client r) (address r) ∈ manual_clients)
      as Hrec.
    { intros tag. rewrite records_for_manual_clients by done.
      intros (c & -> & Hc)%list_elem_of_fmap. by destruct c. }
    destruct (best_matches_for_cases rd
                (TimeReport (dates time_report_data)
                   (client_names_of manual_clients))
                (client_address_mapping_of manual_clients))
      as [[_ E] | (_ & _ & E)]; rewrite E in Hr; clear E.
    + rewrite tolerance_pass_eq in Hr.
      apply list_elem_of_bind in Hr as (td & Hr & _).
      unfold near_records in Hr. cbn [clients] in Hr.
      destruct (_ <=? 1); [by eapply Hrec|by apply elem_of_nil in Hr].
    + by eapply Hrec.
Qed.

End manual_matches.

(** X13 on two clients and a receipt of a day of the report. *)
Lemma X13_witness :
  NoDup (entry_name
           <$> [ClientEntry "Acme Inc" "1 Main St";
                ClientEntry "Globex" "5 Oak Ave"])
  ∧ [ClientEntry "Acme Inc" "1 Main St"; ClientEntry "Globex" "5 Oak Ave"]
    ≠ []
  ∧ ∀ r,
      r ∈ match_dates_to_clients [mar15; mar20]
            (update_session
               [ClientEntry "Acme Inc" "1 Main St";
                ClientEntry "Globex" "5 Oak Ave"] ∅ acme_report).2
            (update_session
               [ClientEntry "Acme Inc" "1 Main St";
                ClientEntry "Globex" "5 Oak Ave"] ∅ acme_report).1 →
      ClientEntry (client r) (address r)
      ∈ [ClientEntry "Acme Inc" "1 Main St"; ClientEntry "Globex" "5 Oak Ave"].
Proof.
  assert (NoDup (entry_name
                   <$> [ClientEntry "Acme Inc" "1 Main St";
                        ClientEntry "Globex" "5 Oak Ave"])) as Hnames
    by by_decide.
  assert ([ClientEntry "Acme Inc" "1 Main St"; ClientEntry "Globex" "5 Oak Ave"]
          ≠ []) as Hne by done.
  split; [exact Hnames|]. split; [exact Hne|].
  exact (proj1 (proj2 (X13_matches_on_manual_clients
                         [ClientEntry "Acme Inc" "1 Main St";
                          ClientEntry "Globex" "5 Oak Ave"] ∅ acme_report
                         [mar15; mar20] Hnames Hne))).
Defined.

(** ** The receipts of a session *)
Section receipts.
Context `{SetOrder}.

#[local] Instance date_le_total : Total date_le.
Proof. intros d1 d2. unfold date_le. lia. Qed.

#[local] Instance date_le_trans : Transitive date_le.
Proof. intros d1 d2 d3. unfold date_le. lia. Qed.

Lemma parse_dates_from_text_nil : parse_dates_from_text [] = [].
Proof.
  unfold parse_dates_from_text. apply Permutation_nil.
  by rewrite list_of_set_perm.
Qed.

Lemma parse_parking_receipts_nil :
  parse_parking_receipts [] = ReceiptData [] [] [].
Proof.
  unfold parse_parking_receipts. rewrite parse_dates_from_text_nil.
  f_equal.
Qed.

(** What one receipt adds; a file without text adds nothing. *)
Lemma add_receipt_eq all_receipt_data text :
  add_receipt all_receipt_data text
  = {| r_dates :=
         r_dates all_receipt_data
         ++ from_option (r_dates ∘ parse_parking_receipts) [] text;
       r_locations :=
         r_locations all_receipt_data
         ++ from_option (r_locations ∘ parse_parking_receipts) [] text;
       r_amounts :=
         r_amounts all_receipt_data
         ++ from_option (r_amounts ∘ parse_parking_receipts) [] text |}.
Proof.
  destruct all_receipt_data as [ds ls ams].
  destruct text as [[|c text]|];
    cbn [add_receipt from_option compose r_dates r_locations r_amounts];
    [|reflexivity|by rewrite !app_nil_r].
  rewrite parse_parking_receipts_nil. cbn [r_dates r_locations r_amounts].
  by rewrite !app_nil_r.
Qed.

Lemma foldl_add_receipt all_receipt_data texts :
  foldl add_receipt all_receipt_data texts
  = {| r_dates :=
         r_dates all_receipt_data
         ++ texts ≫= from_option (r_dates ∘ parse_parking_receipts) [];
       r_locations :=
         r_locations all_receipt_data
         ++ texts ≫= from_option (r_locations ∘ parse_parking_receipts) [];
       r_amounts :=
         r_amounts all_receipt_data
         ++ texts ≫= from_option (r_amounts ∘ parse_parking_receipts) [] |}.
Proof.
  revert all_receipt_data.
  induction texts as [|text texts IH]; intros all_receipt_data; csimpl.
  - rewrite !app_nil_r. by destruct all_receipt_data.
  - rewrite IH, add_receipt_eq. cbn [r_dates r_locations r_amounts].
    by rewrite <- !app_assoc.
Qed.

Lemma elem_of_bind_from_option {A}
    (f : str → list A) (texts : list (option str)) (x : A) :
  x ∈ texts ≫= from_option f [] ↔ ∃ text, Some text ∈ texts ∧ x ∈ f text.
Proof.
  rewrite list_elem_of_bind. split.
  - intros ([text|] & Hx & Ht); [by exists text|by apply elem_of_nil in Hx].
  - intros (text & Ht & Hx). by exists (Some text).
Qed.

(** X14: the receipt data kept in the session.  The dates are those of
    the receipts that gave a text, each once and in ascending order; the
    locations are those of these receipts, each once; the amounts are
    those of these receipts, in the order of the files, with their
    repetitions.  A file that gave no text changes nothing. *)
Theorem X14_collect_receipts (texts : list (option str)) :
  StronglySorted date_le (r_dates (collect_receipts texts))
  ∧ NoDup (r_dates (collect_receipts texts))
  ∧ (∀ d, d ∈ r_dates (collect_receipts texts) ↔
          ∃ text, Some text ∈ texts ∧ d ∈ parse_dates_from_text text)
  ∧ NoDup (r_locations (collect_receipts texts))
  ∧ (∀ l, l ∈ r_locations (collect_receipts texts) ↔
          ∃ text, Some text ∈ texts
                  ∧ l ∈ r_locations (parse_parking_receipts text))
  ∧ r_amounts (collect_receipts texts)
    = texts ≫= from_option (r_amounts ∘ parse_parking_receipts) []
  ∧ collect_receipts (filter (λ text, text ≠ None) texts)
    = collect_receipts texts.
Proof.
  unfold collect_receipts. rewrite !foldl_add_receipt.
  cbn [r_dates r_locations r_amounts app].
  split_and!.
  - apply (StronglySorted_merge_sort _).
  - rewrite merge_sort_Permutation. apply NoDup_list_of_set.
  - intros d.
    rewrite merge_sort_Permutation, elem_of_list_of_set.
    apply elem_of_bind_from_option.
  - apply NoDup_list_of_set.
  - intros l. rewrite elem_of_list_of_set.
    apply elem_of_bind_from_option.
  - done.
  - assert (∀ {A} (f : option str → list A),
              f None = [] →
              filter (λ text, text ≠ None) texts ≫= f = texts ≫= f) as Hskip.
    { intros A f Hf. induction texts as [|text texts IH]; [done|].
      rewrite filter_cons. destruct text as [text|].
      - rewrite decide_True by done. csimpl. by rewrite IH.
      - rewrite decide_False by (by intros ?). csimpl. by rewrite Hf, IH. }
    by rewrite !Hskip.
Qed.

End receipts.

(** ** The text of a file *)
Section extraction.
Import Unicode.

Lemma lstrip_blank s : blank s → Str.lstrip s = [].
Proof.
  induction 1 as [|c s Hc _ IH]; simpl; [done|]. by rewrite Hc.
Qed.

(** [strip] leaves nothing exactly of the texts of white space only. *)
Lemma strip_nil_iff s : Str.strip s = [] ↔ blank s.
Proof.
  split.
  - intros Hs. destruct (strip_split s) as (pre & suf & Heq & Hpre & Hsuf).
    rewrite Hs in Heq. rewrite Heq. by apply Forall_app.
  - intros Hs. unfold Str.strip. by rewrite lstrip_blank.
Qed.

Lemma pdfplumber_text_eq pages :
  pdfplumber_text pages
  = pages ≫= λ page_text,
      match page_text with
      | Some ((_ :: _) as page_text) => page_text ++ ["010"%char]
      | _ => []
      end.
Proof.
  unfold pdfplumber_text.
  rewrite (foldl_append
             (λ page_text,
                match page_text with
                | Some ((_ :: _) as page_text) => page_text ++ ["010"%char]
                | _ => []
                end)); [done|].
  intros acc [[|c t]|]; by rewrite ?app_nil_r.
Qed.

Lemma pymupdf_text_eq pages :
  pymupdf_text pages = pages ≫= λ page_text, page_text ++ ["010"%char].
Proof.
  unfold pymupdf_text.
  by rewrite (foldl_append (λ page_text, page_text ++ ["010"%char])).
Qed.

Lemma blank_line t : blank (t ++ ["010"%char]) ↔ blank t.
Proof.
  unfold blank. rewrite Forall_app, Forall_singleton. split; [by intros [? _]|].
  intros Ht. split; [done|]. by vm_compute.
Qed.

Lemma blank_pdfplumber_text pages :
  blank (pdfplumber_text pages) ↔ no_text id (Returned pages).
Proof.
  rewrite pdfplumber_text_eq. unfold blank at 1. rewrite Forall_bind.
  rewrite Forall_forall. cbn [no_text]. split.
  - intros Hall page t Hpage Heq. unfold id in Heq. subst page.
    specialize (Hall _ Hpage).
    destruct t as [|c t]; [constructor|].
    apply (proj1 (blank_line (c :: t))). exact Hall.
  - intros Hall [[|c t]|] Hpage; [constructor| |constructor].
    apply (proj2 (blank_line (c :: t))). by apply (Hall (Some (c :: t))).
Qed.

Lemma blank_pymupdf_text pages :
  blank (pymupdf_text pages) ↔ no_text Some (Returned pages).
Proof.
  rewrite pymupdf_text_eq. unfold blank at 1. rewrite Forall_bind.
  rewrite Forall_forall. cbn [no_text]. split.
  - intros Hall page t Hpage [= ->].
    apply (proj1 (blank_line t)). exact (Hall _ Hpage).
  - intros Hall t Hpage. apply (proj2 (blank_line t)). by apply (Hall t).
Qed.

Lemma last_bind_line_feed {A} (f : A → str) (l : list A) :
  (∀ x, f x = [] ∨ last (f x) = Some "010"%char) →
  l ≫= f = [] ∨ last (l ≫= f) = Some "010"%char.
Proof.
  intros Hf. induction l as [|x l IH]; csimpl; [by left|].
  rewrite last_app. destruct IH as [-> | ->]; [|by right].
  rewrite app_nil_r. apply Hf.
Qed.

Lemma last_pdfplumber_text pages :
  pdfplumber_text pages = [] ∨ last (pdfplumber_text pages) = Some "010"%char.
Proof.
  rewrite pdfplumber_text_eq. apply last_bind_line_feed.
  intros [[|c t]|]; [by left| |by left]. right. apply last_snoc.
Qed.

Lemma last_pymupdf_text pages :
  pymupdf_text pages = [] ∨ last (pymupdf_text pages) = Some "010"%char.
Proof.
  rewrite pymupdf_text_eq. apply last_bind_line_feed.
  intros t. right. apply last_snoc.
Qed.

(** The check both attempts end with. *)
Lemma checked_text (text : str) :
  (Str.strip text = [] ∧ blank text)
  ∨ (∃ c s, Str.strip text = c :: s ∧ ¬ blank text).
Proof.
  destruct (Str.strip text) as [|c s] eqn:E.
  - left. split; [done|]. by apply strip_nil_iff.
  - right. exists c, s. split; [done|]. rewrite <- strip_nil_iff, E. done.
Qed.

(** X15: [extract_text_from_pdf] returns [None] exactly when each of the
    two libraries raised or found white space at most on every page.  A
    text it returns holds a character that is not white space and ends
    with a line feed; it is the text of the first library, or that of
    the second when the first one raised or found white space at most. *)
Theorem X15_extract_text_from_pdf
    (pdfplumber : attempt (list (option str))) (pymupdf : attempt (list str)) :
  (extract_text_from_pdf pdfplumber pymupdf = None
   ↔ no_text id pdfplumber ∧ no_text Some pymupdf)
  ∧ (∀ text,
       extract_text_from_pdf pdfplumber pymupdf = Some text →
       ¬ blank text
       ∧ Str.strip text ≠ []
       ∧ last text = Some "010"%char
       ∧ ((∃ pages, pdfplumber = Returned pages
                    ∧ text = pdfplumber_text pages)
          ∨ (no_text id pdfplumber
             ∧ ∃ pages, pymupdf = Returned pages
                        ∧ text = pymupdf_text pages))).
Proof.
  assert (∀ text : str,
            ¬ blank text →
            text = [] ∨ last text = Some "010"%char →
            ¬ blank text ∧ Str.strip text ≠ [] ∧ last text = Some "010"%char)
    as Hgood.
  { intros text Hb Hl. split_and!; [done|by rewrite strip_nil_iff|].
    destruct Hl as [-> | Hl]; [|done]. destruct Hb. constructor. }
  assert (∀ r : option str,
            (match pymupdf with
             | Returned pages =>
                 match Str.strip (pymupdf_text pages) with
                 | _ :: _ => Some (pymupdf_text pages)
                 | [] => None
                 end
             | Raised => None
             end) = r →
            (r = None ↔ no_text Some pymupdf)
            ∧ ∀ text, r = Some text →
                (¬ blank text ∧ Str.strip text ≠ []
                 ∧ last text = Some "010"%char)
                ∧ ∃ pages, pymupdf = Returned pages
                           ∧ text = pymupdf_text pages) as Hfallback.
  { intros r <-. destruct pymupdf as [pages|]; [|done].
    destruct (checked_text (pymupdf_text pages))
      as [[-> Hb] | (c & s & -> & Hb)].
    - split; [|done]. split; [intros _|done]. by apply blank_pymupdf_text.
    - split.
      + split; [done|]. intros Hn. destruct Hb. by apply blank_pymupdf_text.
      + intros text [= <-]. split; [|by exists pages].
        apply Hgood; [done|apply last_pymupdf_text]. }
  unfold extract_text_from_pdf.
  destruct (Hfallback _ eq_refl) as [Hnone Hsome]. clear Hfallback.
  destruct pdfplumber as [pages|].
  - destruct (checked_text (pdfplumber_text pages))
      as [[-> Hb] | (c & s & -> & Hb)].
    + apply blank_pdfplumber_text in Hb. split.
      * rewrite Hnone. split; [by intros ?|by intros [_ ?]].
      * intros text Htext. destruct (Hsome text Htext) as [(?&?&?) ?].
        split_and!; [done..|]. by right.
    + split.
      * split; [done|]. intros [Hn _]. destruct Hb.
        by apply blank_pdfplumber_text.
      * intros text [= <-].
        destruct (Hgood (pdfplumber_text pages) Hb
                    (last_pdfplumber_text pages)) as (?&?&?).
        split_and!; [done..|]. left. by exists pages.
  - split.
    + rewrite Hnone. split; [by intros ?|by intros [_ ?]].
    + intros text Htext. destruct (Hsome text Htext) as [(?&?&?) ?].
      split_and!; [done..|]. by right.
Qed.

End extraction.

